(** * Rolling-window ledger synchronisation: a shallow embedding

    Embedding of [scripts/update_competitor_sheets.py] and
    [scripts/freeze_master_values.py].

    Conventions of the model.
    - Python [int] is [Z]; Python [str] is [string], read as ASCII text
      (a character is its code point [ord]); [str.upper] and [str.strip]
      act on the ASCII letters and the ASCII white space.
    - A [dict] that is only looked up is a [gmap]; a [dict] or [list] that
      is iterated is a [list] in iteration order.
    - The remote services (Drive, Sheets) are a deterministic environment:
      a function from the history of the run and the next request to the
      reply.  Every [exec_request] appends one event to the history, so the
      history is also the observable trace of the run.
    - Exceptions are values of [exn]; a computation returns [Ok v] or
      [Raise e]. *)

From Stdlib Require Import ZArith String Ascii List Lia Bool.
From stdpp Require Import gmap strings list pretty.
From Equations Require Import Equations.

Open Scope Z_scope.

(** ** Characters and strings *)

Definition ord (ch : ascii) : Z := Z.of_N (N_of_ascii ch).
Definition chr (n : Z) : ascii := ascii_of_N (Z.to_N n).

(** ["A" <= ch <= "Z"] *)
Definition is_AZ (ch : ascii) : bool := (65 <=? ord ch) && (ord ch <=? 90).

Definition is_az (ch : ascii) : bool := (97 <=? ord ch) && (ord ch <=? 122).

Definition char_upper (ch : ascii) : ascii :=
  if is_az ch then chr (ord ch - 32) else ch.

(** [s.upper()] *)
Fixpoint upper (s : string) : string :=
  match s with
  | EmptyString => EmptyString
  | String ch rest => String (char_upper ch) (upper rest)
  end.

(** ["".join(letters)] *)
Fixpoint join (letters : list ascii) : string :=
  match letters with
  | [] => EmptyString
  | ch :: rest => String ch (join rest)
  end.

(** [s.startswith(prefix)] *)
Fixpoint startswith (s prefix : string) : bool :=
  match prefix, s with
  | EmptyString, _ => true
  | String p prefix', String c s' => Ascii.eqb c p && startswith s' prefix'
  | String _ _, EmptyString => false
  end.

(** [s[n:]] for [0 <= n] *)
Fixpoint drop_chars (n : nat) (s : string) : string :=
  match n, s with
  | O, _ => s
  | S n', String _ s' => drop_chars n' s'
  | S _, EmptyString => EmptyString
  end.

(** ** Column codec *)

Module Codec.

(** The [for ch in a1.upper()] loop of [a1_to_col], [result] being the
    accumulator; [break] at the first character outside A..Z. *)
Fixpoint a1_to_col_loop (result : Z) (s : string) : Z :=
  match s with
  | EmptyString => result
  | String ch rest =>
      if negb (is_AZ ch) then result
      else a1_to_col_loop (result * 26 + (ord ch - 64)) rest
  end.

Definition a1_to_col (a1 : string) : Z := a1_to_col_loop 0 (upper a1).

(** The [while index > 0] loop of [col_to_a1]; [letters] is appended to. *)
Equations col_to_a1_loop (index : Z) (letters : list ascii) : list ascii
  by wf (Z.to_nat index) lt :=
col_to_a1_loop index letters with Z_gt_dec index 0 := {
  | left _ =>
      col_to_a1_loop ((index - 1) / 26)
                     (letters ++ [chr (65 + (index - 1) mod 26)])
  | right _ => letters }.
Next Obligation.
  assert (0 <= (index - 1) / 26 < index); [|lia].
  split; [apply Z.div_pos; lia|].
  apply Z.le_lt_trans with (index - 1); [|lia].
  apply Z.div_le_upper_bound; lia.
Qed.

Definition col_to_a1 (index : Z) : string :=
  join (rev (col_to_a1_loop index [])).

End Codec.
Export Codec.

(** ** Exceptions and outcomes *)

(** What a remote call can fail with: [googleapiclient.errors.HttpError],
    or any other exception of the transport (time-out, reset connection). *)
Inductive remote_error :=
| RemoteHttpError (status : Z)
| RemoteTransportError.

(** The exceptions of the two scripts.  [TabMissingError] is the class the
    update script declares; the others are Python's own. *)
Inductive exn :=
| HttpError (status : Z)
| TransportError
| TabMissingError (msg : string)
| RuntimeError (msg : string)
| KeyError (key : string)
| TypeError
| ValueError.

Definition exn_of_remote (e : remote_error) : exn :=
  match e with
  | RemoteHttpError status => HttpError status
  | RemoteTransportError => TransportError
  end.

Inductive outcome (A : Type) :=
| Ok (a : A)
| Raise (e : exn).
Arguments Ok {A} a.
Arguments Raise {A} e.

Definition obind {A B} (o : outcome A) (k : A -> outcome B) : outcome B :=
  match o with
  | Ok a => k a
  | Raise e => Raise e
  end.

(** ** Dates and times

    [datetime.datetime]: the calendar fields and the offset from UTC in
    seconds, [None] for a naive value. *)

Module Datetime.

Record datetime := mk_datetime {
  year : Z; month : Z; day : Z;
  hour : Z; minute : Z; second : Z; microsecond : Z;
  utcoffset : option Z }.

Definition is_leap (y : Z) : bool :=
  (y mod 4 =? 0) && (negb (y mod 100 =? 0) || (y mod 400 =? 0)).

Definition days_in_month (y m : Z) : Z :=
  if m =? 2 then (if is_leap y then 29 else 28)
  else if (m =? 4) || (m =? 6) || (m =? 9) || (m =? 11) then 30
  else 31.

Definition days_before_year (y : Z) : Z :=
  let y' := y - 1 in y' * 365 + y' / 4 - y' / 100 + y' / 400.

Definition days_before_month (y m : Z) : Z :=
  fold_left (fun acc k => acc + days_in_month y (Z.of_nat k))
            (seq 1 (Z.to_nat (m - 1))) 0.

(** Proleptic Gregorian ordinal, day 1 being 0001-01-01. *)
Definition toordinal (d : datetime) : Z :=
  days_before_year (year d) + days_before_month (year d) (month d) + day d.

(** The constructor [datetime(year, month, day, hour, minute, second)]
    with its range checks. *)
Definition make_datetime (y mo d h mi s us : Z) (tz : option Z)
  : outcome datetime :=
  if (1 <=? y) && (y <=? 9999) && (1 <=? mo) && (mo <=? 12)
     && (1 <=? d) && (d <=? days_in_month y mo)
     && (0 <=? h) && (h <=? 23) && (0 <=? mi) && (mi <=? 59)
     && (0 <=? s) && (s <=? 59) && (0 <=? us) && (us <=? 999999)
  then Ok (mk_datetime y mo d h mi s us tz)
  else Raise ValueError.

(** [datetime.min] *)
Definition datetime_min : datetime := mk_datetime 1 1 1 0 0 0 0 None.

(** Microseconds since the start of day 1, in the value's own clock. *)
Definition local_micros (d : datetime) : Z :=
  (((toordinal d * 24 + hour d) * 60 + minute d) * 60 + second d) * 1000000
  + microsecond d.

Definition utc_micros (d : datetime) (off : Z) : Z :=
  local_micros d - off * 1000000.

(** [a == b]: a naive and an aware value are never equal. *)
Definition dt_eqb (a b : datetime) : bool :=
  match utcoffset a, utcoffset b with
  | None, None => local_micros a =? local_micros b
  | Some oa, Some ob => utc_micros a oa =? utc_micros b ob
  | _, _ => false
  end.

(** [a < b]: ordering a naive against an aware value raises [TypeError]. *)
Definition dt_ltb (a b : datetime) : outcome bool :=
  match utcoffset a, utcoffset b with
  | None, None => Ok (local_micros a <? local_micros b)
  | Some oa, Some ob => Ok (utc_micros a oa <? utc_micros b ob)
  | _, _ => Raise TypeError
  end.

End Datetime.
Export Datetime.

(** ** Reading numbers out of text *)

Definition is_digit (ch : ascii) : bool := (48 <=? ord ch) && (ord ch <=? 57).

(** [int(s)] for a string of decimal digits. *)
Definition int_of_digits (s : string) : Z :=
  fold_left (fun acc ch => acc * 10 + (ord ch - 48)) (list_ascii_of_string s) 0.

(** [s[:n]] *)
Fixpoint take_chars (n : nat) (s : string) : string :=
  match n, s with
  | S n', String ch s' => String ch (take_chars n' s')
  | _, _ => EmptyString
  end.

(** [s[a:b]] for [0 <= a <= b] *)
Definition slice (a b : nat) (s : string) : string :=
  take_chars (b - a) (drop_chars a s).

Fixpoint all_digits (s : string) : bool :=
  match s with
  | EmptyString => true
  | String ch s' => is_digit ch && all_digits s'
  end.

(** The string starts with exactly-or-more than six digits: [\d{6}]. *)
Definition six_digits (s : string) : option string :=
  let tok := take_chars 6 s in
  if (String.length tok =? 6)%nat && all_digits tok then Some tok else None.

(** [re.search(r"(\d{6})(?:_(\d{6}))?", suffix)]: the leftmost match and
    its two groups. *)
Fixpoint search_stamp (suffix : string) : option (string * option string) :=
  match six_digits suffix with
  | Some yymmdd =>
      match drop_chars 6 suffix with
      | String "_" rest => Some (yymmdd, six_digits rest)
      | _ => Some (yymmdd, None)
      end
  | None =>
      match suffix with
      | EmptyString => None
      | String _ rest => search_stamp rest
      end
  end.

(** [s[a:b]] read as a number, when it is [b - a] decimal digits. *)
Definition digits_at (a b : nat) (s : string) : option Z :=
  let tok := slice a b s in
  if (String.length tok =? b - a)%nat && all_digits tok
  then Some (int_of_digits tok) else None.

Definition char_is (i : nat) (ch : ascii) (s : string) : bool :=
  match String.get i s with
  | Some c => Ascii.eqb c ch
  | None => false
  end.

(** The fraction of a second after the seconds field: nothing, or a dot
    and three or six digits.  Returns the microseconds and the rest. *)
Definition parse_fraction (rest : string) : option (Z * string) :=
  match rest with
  | String "." frac =>
      match digits_at 0 6 frac, digits_at 0 3 frac with
      | Some us, _ => Some (us, drop_chars 6 frac)
      | None, Some ms => Some (ms * 1000, drop_chars 3 frac)
      | None, None => None
      end
  | _ => Some (0, rest)
  end.

(** The offset at the end: nothing (naive), or [+HH:MM] / [-HH:MM]. *)
Definition parse_offset (rest : string) : option (option Z) :=
  match rest with
  | EmptyString => Some None
  | String sign hhmm =>
      if (Ascii.eqb sign "+" || Ascii.eqb sign "-")
         && (String.length hhmm =? 5)%nat && char_is 2 ":" hhmm
      then
        match digits_at 0 2 hhmm, digits_at 3 5 hhmm with
        | Some hh, Some mm =>
            if (hh <=? 23) && (mm <=? 59) then
              let secs := hh * 3600 + mm * 60 in
              Some (Some (if Ascii.eqb sign "-" then - secs else secs))
            else None
        | _, _ => None
        end
      else None
  end.

(** [datetime.fromisoformat(ts)] on the shape the Drive API emits and
    [isoformat()] prints, [YYYY-MM-DD?HH:MM:SS[.fff[fff]][+HH:MM]];
    anything else is a [ValueError] here. *)
Definition fromisoformat (ts : string) : outcome datetime :=
  match digits_at 0 4 ts, digits_at 5 7 ts, digits_at 8 10 ts,
        digits_at 11 13 ts, digits_at 14 16 ts, digits_at 17 19 ts with
  | Some y, Some mo, Some d, Some h, Some mi, Some s =>
      if char_is 4 "-" ts && char_is 7 "-" ts
         && char_is 13 ":" ts && char_is 16 ":" ts
      then
        match parse_fraction (drop_chars 19 ts) with
        | Some (us, rest) =>
            match parse_offset rest with
            | Some tz => make_datetime y mo d h mi s us tz
            | None => Raise ValueError
            end
        | None => Raise ValueError
        end
      else Raise ValueError
  | _, _, _, _, _, _ => Raise ValueError
  end.

(** ** Source selector *)

Module Selector.

(** [ts[:-1] + "+00:00"] when [ts.endswith("Z")], else [ts]. *)
Fixpoint replace_trailing_Z (ts : string) : string :=
  match ts with
  | EmptyString => EmptyString
  | String ch rest =>
      match rest with
      | EmptyString =>
          if Ascii.eqb ch "Z" then "+00:00"%string else String ch EmptyString
      | _ => String ch (replace_trailing_Z rest)
      end
  end.

Definition parse_rfc3339 (ts : string) : outcome datetime :=
  fromisoformat (replace_trailing_Z ts).

Definition parse_timestamp_from_name (name prefix : string) : option datetime :=
  if negb (startswith name prefix) then None
  else
    let suffix := drop_chars (String.length prefix) name in
    match search_stamp suffix with
    | None => None
    | Some (yymmdd, group2) =>
        let hhmmss := match group2 with
                      | Some g => g
                      | None => "000000"%string
                      end in
        let yy := int_of_digits (slice 0 2 yymmdd) in
        let year := 2000 + yy in
        let month := int_of_digits (slice 2 4 yymmdd) in
        let day := int_of_digits (slice 4 6 yymmdd) in
        let hour := int_of_digits (slice 0 2 hhmmss) in
        let minute := int_of_digits (slice 2 4 hhmmss) in
        let second := int_of_digits (slice 4 6 hhmmss) in
        match make_datetime year month day hour minute second 0 None with
        | Ok dt => Some dt
        | Raise _ => None
        end
    end.

(** One entry of the Drive listing: the [id] and the optional [name],
    [modifiedTime] and [createdTime] keys. *)
Record file_info := mk_file {
  f_id : string;
  f_name : option string;
  f_modifiedTime : option string;
  f_createdTime : option string }.

(** [f.get("name", "")] *)
Definition get_name (f : file_info) : string :=
  match f_name f with
  | Some n => n
  | None => EmptyString
  end.

(** [parse_rfc3339(f.get(k)) if f.get(k) else datetime.min]: a missing key
    and an empty string are both falsy. *)
Definition time_or_min (field : option string) : outcome datetime :=
  match field with
  | None => Ok datetime_min
  | Some EmptyString => Ok datetime_min
  | Some ts => parse_rfc3339 ts
  end.

Definition sort_key_t : Type := datetime * datetime * datetime.

Definition sort_key (prefix : string) (f : file_info) : outcome sort_key_t :=
  let name := get_name f in
  let name_ts := match parse_timestamp_from_name name prefix with
                 | Some dt => dt
                 | None => datetime_min
                 end in
  obind (time_or_min (f_modifiedTime f)) (fun modified_ts =>
  obind (time_or_min (f_createdTime f)) (fun created_ts =>
  Ok (name_ts, modified_ts, created_ts))).

(** [a < b] on 3-tuples: the first position where the two are not [==]
    decides, by [<] there. *)
Definition key_ltb (a b : sort_key_t) : outcome bool :=
  let '(a1, a2, a3) := a in
  let '(b1, b2, b3) := b in
  if negb (dt_eqb a1 b1) then dt_ltb a1 b1
  else if negb (dt_eqb a2 b2) then dt_ltb a2 b2
  else if negb (dt_eqb a3 b3) then dt_ltb a3 b3
  else Ok false.

(** [list.sort(key=..., reverse=...)].  The keys are computed for every
    element first; with [reverse] the list is reversed, sorted ascending
    and stably with [<] on the keys alone, and reversed again.  The stable
    ascending sort is written as an insertion sort. *)
Section ListSort.
Context {K A : Type} (ltb : K -> K -> outcome bool).

Fixpoint insert_sorted (x : K * A) (sorted : list (K * A))
  : outcome (list (K * A)) :=
  match sorted with
  | [] => Ok [x]
  | y :: rest =>
      obind (ltb (fst x) (fst y)) (fun lt =>
      if lt then Ok (x :: y :: rest)
      else obind (insert_sorted x rest) (fun r => Ok (y :: r)))
  end.

Fixpoint sort_ascending (sorted todo : list (K * A))
  : outcome (list (K * A)) :=
  match todo with
  | [] => Ok sorted
  | x :: rest =>
      obind (insert_sorted x sorted) (fun s => sort_ascending s rest)
  end.

Fixpoint compute_keys (key : A -> outcome K) (l : list A)
  : outcome (list (K * A)) :=
  match l with
  | [] => Ok []
  | x :: rest =>
      obind (key x) (fun k =>
      obind (compute_keys key rest) (fun r => Ok ((k, x) :: r)))
  end.

Definition list_sort (key : A -> outcome K) (reverse : bool) (l : list A)
  : outcome (list A) :=
  obind (compute_keys key l) (fun keyed =>
  let keyed := if reverse then rev keyed else keyed in
  obind (sort_ascending [] keyed) (fun sorted =>
  let sorted := if reverse then rev sorted else sorted in
  Ok (map snd sorted))).
End ListSort.

(** The filter loop of [select_latest_file]. *)
Definition is_candidate (prefix : string) (exclude_prefixes : list string)
  (f : file_info) : bool :=
  let name := get_name f in
  startswith name prefix
  && negb (existsb (fun ex => startswith name ex) exclude_prefixes).

Definition select_latest_file (files : list file_info) (prefix : string)
  (exclude_prefixes : list string) : outcome (option file_info) :=
  let candidates := List.filter (is_candidate prefix exclude_prefixes) files in
  match candidates with
  | [] => Ok None
  | _ :: _ =>
      obind (list_sort key_ltb (sort_key prefix) true candidates) (fun sorted =>
      Ok (head sorted))
  end.

End Selector.
Export Selector.

(** ** The remote grid and the trace of a run *)

Definition cell : Type := string.
Definition rows : Type := list (list cell).

Inductive render_option := FORMULA | UNFORMATTED_VALUE | FORMATTED_VALUE.
Inductive input_option := RAW | USER_ENTERED.

(** An A1 range [f"'{sheet}'!{cells}"], kept as its two parts. *)
Record range := mk_range { rng_sheet : string; rng_cells : string }.

Definition range_name (r : range) : string :=
  ("'" ++ rng_sheet r ++ "'!" ++ rng_cells r)%string.

(** One sheet of the [spreadsheets().get] response. *)
Record sheet_entry := mk_sheet_entry {
  se_title : option string;
  se_sheetId : option Z;
  se_rowCount : option Z;
  se_columnCount : option Z }.

(** The requests the scripts build.  [DriveListRecursive] stands for the
    whole paginated, recursive listing of [list_spreadsheets_recursive],
    which either yields the files or raises the failure of one page. *)
Inductive request :=
| DriveListRecursive (drive_id : string)
| SpreadsheetsGet (spreadsheet_id : string)
| ValuesGet (spreadsheet_id : string) (rng : range)
            (valueRenderOption : option render_option)
| ValuesUpdate (spreadsheet_id : string) (rng : range)
               (valueInputOption : input_option) (values : rows)
| ValuesClear (spreadsheet_id : string) (rng : range)
| UpdateColumnCount (spreadsheet_id : string) (sheet_id : Z) (columnCount : Z)
| CopyPasteValues (spreadsheet_id : string) (sheet_id : Z)
                  (startRowIndex endRowIndex : Z)
                  (startColumnIndex endColumnIndex : Z).

Inductive reply :=
| Files (files : list file_info)
| Sheets (sheets : list sheet_entry)
| Values (values : rows)
| Done
| Failed (e : remote_error).

(** The [SKIP], [FAIL] and [ERROR] lines the scripts print. *)
Inductive diag :=
| SkipNoFile (prefix : string)
| SkipReadFailed (prefix : string) (e : exn)
| SkipNoDataRows (tab_name : string)
| SkipInvalidPrevColumn (tab_name last_col : string)
| SkipNoRowsToFreeze (tab_name : string)
| FailLine (e : exn)
| ErrorLine (attempt : Z) (e : exn).

Inductive event :=
| Call (req : request) (rep : reply)
| Print (d : diag)
| Sleep (seconds : Z).

Definition trace : Type := list event.

(** [response.get("values", [])] and its two siblings. *)
Definition get_values (response : reply) : rows :=
  match response with
  | Values v => v
  | _ => []
  end.

Definition get_files (response : reply) : list file_info :=
  match response with
  | Files fs => fs
  | _ => []
  end.

Definition get_sheets (response : reply) : list sheet_entry :=
  match response with
  | Sheets ss => ss
  | _ => []
  end.

(** A computation reads the trace so far, extends it and returns or raises. *)
Definition M (A : Type) : Type := trace -> outcome A * trace.

Definition ret {A} (a : A) : M A := fun tr => (Ok a, tr).

Definition raise {A} (e : exn) : M A := fun tr => (Raise e, tr).

Definition bind {A B} (m : M A) (k : A -> M B) : M B :=
  fun tr =>
    match m tr with
    | (Ok a, tr') => k a tr'
    | (Raise e, tr') => (Raise e, tr')
    end.

Definition lift {A} (o : outcome A) : M A := fun tr => (o, tr).

Definition emit (ev : event) : M unit := fun tr => (Ok tt, tr ++ [ev]).

Definition print (d : diag) : M unit := emit (Print d).

(** [try: m  except E as exc: handler], where [handler exc] is [None] for
    an exception that is not an [E]. *)
Definition try_except {A} (m : M A) (handler : exn -> option (M A)) : M A :=
  fun tr =>
    match m tr with
    | (Ok a, tr') => (Ok a, tr')
    | (Raise e, tr') =>
        match handler e with
        | Some h => h tr'
        | None => (Raise e, tr')
        end
    end.

Notation "'let*' x ':=' m 'in' k" := (bind m (fun x => k))
  (at level 10, x name, m at level 100, k at level 200,
   format "'[v' 'let*'  x  ':='  m  'in' '/' k ']'").
Notation "m ';;' k" := (bind m (fun _ => k))
  (at level 100, k at level 200, right associativity).

(** [for x in l: body(x)] *)
Fixpoint for_each {A} (l : list A) (body : A -> M unit) : M unit :=
  match l with
  | [] => ret tt
  | x :: rest => body x ;; for_each rest body
  end.

(** The chunk loop both scripts share:
[[
    row = start
    while row < end_row:
        chunk_end = min(row + chunk, end_row)
        body(row, chunk_end)
        row = chunk_end
]]
    for a [chunk] that the caller has clamped to at least 1. *)
Section ChunkLoop.
Context (chunk : Z) (chunk_pos : 1 <= chunk) (end_row : Z)
        (body : Z -> Z -> M unit).

Equations chunk_loop (row : Z) (tr : trace) : outcome unit * trace
  by wf (Z.to_nat (end_row - row)) lt :=
chunk_loop row tr with Z_lt_dec row end_row := {
  | left _ =>
      match body row (Z.min (row + chunk) end_row) tr with
      | (Ok _, tr') => chunk_loop (Z.min (row + chunk) end_row) tr'
      | (Raise e, tr') => (Raise e, tr')
      end
  | right _ => (Ok tt, tr) }.
Next Obligation. lia. Qed.
End ChunkLoop.

(** [s.strip()] on ASCII white space. *)
Definition is_space (ch : ascii) : bool :=
  ((9 <=? ord ch) && (ord ch <=? 13)) || ((28 <=? ord ch) && (ord ch <=? 32)).

Fixpoint lstrip (s : string) : string :=
  match s with
  | EmptyString => EmptyString
  | String ch rest => if is_space ch then lstrip rest else s
  end.

Fixpoint rstrip (s : string) : string :=
  match s with
  | EmptyString => EmptyString
  | String ch rest =>
      match rstrip rest with
      | EmptyString => if is_space ch then EmptyString else String ch EmptyString
      | r => String ch r
      end
  end.

Definition strip (s : string) : string := rstrip (lstrip s).

(** Truthiness of a [str]. *)
Definition nonempty (s : string) : bool :=
  match s with
  | EmptyString => false
  | String _ _ => true
  end.

(** ** What the scripts read at start-up *)

Record mapping := mk_mapping {
  m_prefix : string;
  m_target_tab : string;
  m_exclude_prefixes : list string }.

(** [config.json], after the defaults of [config.get] and the numeric
    overrides of the environment have been applied. *)
Record config := mk_config {
  drive_folder_id : string;
  target_sheet_id : string;
  source_sheet_name : string;
  source_range : string;
  target_range : string;
  mappings : list mapping;
  master_tabs : list string;
  master_meta_sheet : string;
  master_meta_range : string;
  master_max_rows : Z;
  master_chunk_size : Z;
  master_freeze_chunk_size : Z;
  master_meta_rows : list (string * Z);
  master_meta_override : gmap string string }.

(** The module-level globals of the update script, and the Monday of the
    current week in Seoul as [get_week_monday_str] prints it. *)
Record update_env := mk_update_env {
  RUN_MODE : string;
  MASTER_ONLY_TAB : string;
  MASTER_FREEZE_VALUES : bool;
  monday_str : string }.

(** The module-level globals of the freeze script. *)
Record freeze_env := mk_freeze_env {
  FREEZE_ONLY_TAB : string;
  FREEZE_LAST_COL : string }.

Definition RETRY_COUNT : Z := 3.
Definition RETRY_DELAY_SECONDS : Z := 120.

(** One value of the map [get_sheet_properties_map] returns. *)
Record sheet_props := mk_props {
  sheetId : Z;
  rowCount : Z;
  columnCount : Z }.

(** [min(row_count, max_rows) if max_rows > 0 else row_count], the
    [effective_rows] of both scripts. *)
Definition effective_row_count (row_count max_rows : Z) : Z :=
  if 0 <? max_rows then Z.min row_count max_rows else row_count.

(** [d.get(k)] / [k in d] / [d[k]] on a dict kept in insertion order. *)
Fixpoint dict_get {V} (k : string) (d : list (string * V)) : option V :=
  match d with
  | [] => None
  | (k', v) :: rest => if String.eqb k' k then Some v else dict_get k rest
  end.

(** ** What both scripts do alike *)

Section Remote.
Variable remote : trace -> request -> reply.

(** [exec_request(request)]: one event of the trace; a failed call
    raises what the remote failed with. *)
Definition exec_request (req : request) : M reply :=
  fun tr =>
    let rep := remote tr req in
    (match rep with
     | Failed e => Raise (exn_of_remote e)
     | _ => Ok rep
     end, tr ++ [Call req rep]).

Definition add_sheet (result : gmap string sheet_props) (sheet : sheet_entry)
  : gmap string sheet_props :=
  match se_title sheet with
  | None => result
  | Some title =>
      if negb (nonempty title) then result
      else <[title := mk_props (default 0 (se_sheetId sheet))
                               (default 0 (se_rowCount sheet))
                               (default 0 (se_columnCount sheet))]> result
  end.

Definition get_sheet_properties_map (spreadsheet_id : string)
  : M (gmap string sheet_props) :=
  let* response := exec_request (SpreadsheetsGet spreadsheet_id) in
  ret (fold_left add_sheet (get_sheets response) ∅).

(** The row-indexed read of the metadata, one cell per tab: the first
    branch of [get_master_meta_map] and all of
    [get_master_meta_from_rows]. *)
Fixpoint get_master_meta_from_rows (spreadsheet_id meta_sheet : string)
  (meta_rows : list (string * Z)) (result : gmap string string)
  : M (gmap string string) :=
  match meta_rows with
  | [] => ret result
  | (tab_name, row_idx) :: rest =>
      let cell := mk_range meta_sheet ("B" ++ pretty row_idx) in
      let* response := exec_request
        (ValuesGet spreadsheet_id cell (Some UNFORMATTED_VALUE)) in
      let result :=
        match get_values response with
        | (v :: _) :: _ => <[tab_name := upper (strip v)]> result
        | _ => result
        end in
      get_master_meta_from_rows spreadsheet_id meta_sheet rest result
  end.
End Remote.

(** ** The update job: [update_competitor_sheets.py] *)

Module Update.
Section Run.
Variable remote : trace -> request -> reply.
Variable env : update_env.

(** The table-scan loop of [get_master_meta_map], over [values[1:]]. *)
Fixpoint scan_meta_rows (table : rows) (result : gmap string string)
  : gmap string string :=
  match table with
  | [] => result
  | row :: rest =>
      match row with
      | c0 :: c1 :: _ =>
          let tab_name := strip c0 in
          let last_col := upper (strip c1) in
          if nonempty tab_name && nonempty last_col
          then scan_meta_rows rest (<[tab_name := last_col]> result)
          else scan_meta_rows rest result
      | _ => scan_meta_rows rest result
      end
  end.

Definition get_master_meta_map (spreadsheet_id meta_sheet meta_range : string)
  (meta_rows : list (string * Z)) : M (gmap string string) :=
  match meta_rows with
  | _ :: _ =>
      get_master_meta_from_rows remote spreadsheet_id meta_sheet meta_rows ∅
  | [] =>
      let* response := exec_request remote
        (ValuesGet spreadsheet_id (mk_range meta_sheet meta_range)
                   (Some FORMATTED_VALUE)) in
      ret (scan_meta_rows (tail (get_values response)) ∅)
  end.

(** The loop of [update_master_meta] over [enumerate(values[1:], start=2)]:
    write at the first row whose first cell names the tab, then return. *)
Fixpoint update_meta_scan (spreadsheet_id meta_sheet tab_name new_col : string)
  (table : rows) (idx : Z) : M unit :=
  match table with
  | [] => ret tt
  | row :: rest =>
      match row with
      | c0 :: _ =>
          if String.eqb (strip c0) tab_name then
            exec_request remote
              (ValuesUpdate spreadsheet_id
                 (mk_range meta_sheet ("B" ++ pretty idx)) RAW [[new_col]]) ;;
            ret tt
          else update_meta_scan spreadsheet_id meta_sheet tab_name new_col
                                rest (idx + 1)
      | [] => update_meta_scan spreadsheet_id meta_sheet tab_name new_col
                               rest (idx + 1)
      end
  end.

Definition update_master_meta (spreadsheet_id meta_sheet meta_range : string)
  (meta_rows : list (string * Z)) (tab_name new_col : string) : M unit :=
  match dict_get tab_name meta_rows with
  | Some row_idx =>
      exec_request remote
        (ValuesUpdate spreadsheet_id
           (mk_range meta_sheet ("B" ++ pretty row_idx)) RAW [[new_col]]) ;;
      ret tt
  | None =>
      let* response := exec_request remote
        (ValuesGet spreadsheet_id (mk_range meta_sheet meta_range)
                   (Some FORMATTED_VALUE)) in
      update_meta_scan spreadsheet_id meta_sheet tab_name new_col
                       (tail (get_values response)) 2
  end.

(** The body of the [while row < data_end_row] loop of
    [update_master_tab]. *)
Definition copy_chunk (spreadsheet_id tab_name : string)
  (prev_col_letter new_col_letter : string) (row chunk_end : Z) : M unit :=
  let start_row_num := row + 1 in
  let end_row_num := chunk_end in
  let formula_range :=
    mk_range tab_name (prev_col_letter ++ pretty start_row_num ++ ":"
                       ++ prev_col_letter ++ pretty end_row_num) in
  let* response := exec_request remote
    (ValuesGet spreadsheet_id formula_range (Some FORMULA)) in
  let formulas := get_values response in
  match formulas with
  | _ :: _ =>
      exec_request remote
        (ValuesUpdate spreadsheet_id
           (mk_range tab_name (new_col_letter ++ pretty start_row_num))
           USER_ENTERED formulas) ;;
      ret tt
  | [] => ret tt
  end ;;
  if MASTER_FREEZE_VALUES env then
    let* response := exec_request remote
      (ValuesGet spreadsheet_id formula_range (Some UNFORMATTED_VALUE)) in
    let values := get_values response in
    match values with
    | _ :: _ =>
        exec_request remote
          (ValuesUpdate spreadsheet_id
             (mk_range tab_name (prev_col_letter ++ pretty start_row_num))
             RAW values) ;;
        ret tt
    | [] => ret tt
    end
  else ret tt.

Definition update_master_tab (spreadsheet_id tab_name last_date_col : string)
  (sheet_id row_count column_count max_rows chunk_size : Z) : M string :=
  let last_date_col_index := a1_to_col last_date_col in
  let new_col_index := last_date_col_index + 1 in
  let effective_rows := effective_row_count row_count max_rows in
  if effective_rows <=? 1 then
    print (SkipNoDataRows tab_name) ;;
    ret last_date_col
  else
    let prev_col_index := last_date_col_index - 1 in
    let new_col_letter := col_to_a1 new_col_index in
    let prev_col_letter := col_to_a1 (prev_col_index + 1) in
    let data_start_row := 1 in
    let data_end_row := effective_rows in
    (if column_count <? new_col_index then
       exec_request remote
         (UpdateColumnCount spreadsheet_id sheet_id new_col_index) ;;
       ret tt
     else ret tt) ;;
    exec_request remote
      (ValuesUpdate spreadsheet_id
         (mk_range tab_name (new_col_letter ++ "1")) RAW
         [[monday_str env]]) ;;
    chunk_loop (Z.max 1 chunk_size) (Z.le_max_l 1 chunk_size) data_end_row
      (copy_chunk spreadsheet_id tab_name prev_col_letter new_col_letter)
      data_start_row ;;
    ret (col_to_a1 new_col_index).

Definition list_spreadsheets_recursive (drive_id : string)
  : M (list file_info) :=
  let* response := exec_request remote (DriveListRecursive drive_id) in
  ret (get_files response).

Definition read_source_values (spreadsheet_id sheet_name source_range : string)
  : M rows :=
  let* response := exec_request remote
    (ValuesGet spreadsheet_id (mk_range sheet_name source_range) None) in
  ret (get_values response).

Definition clear_target_range (spreadsheet_id tab_name target_range : string)
  : M unit :=
  exec_request remote
    (ValuesClear spreadsheet_id (mk_range tab_name target_range)) ;;
  ret tt.

Definition write_target_values (spreadsheet_id tab_name : string)
  (values : rows) : M unit :=
  match values with
  | [] => ret tt
  | _ :: _ =>
      exec_request remote
        (ValuesUpdate spreadsheet_id (mk_range tab_name "A1") RAW values) ;;
      ret tt
  end.

Definition run_mode_in (a b : string) : bool :=
  String.eqb (RUN_MODE env) a || String.eqb (RUN_MODE env) b.

(** The body of [for mapping in mappings].  [get_selection_reason] only
    feeds a progress line and parses nothing [sort_key] has not parsed. *)
Definition extract_mapping (cfg : config) (files : list file_info)
  (sheet_props : gmap string sheet_props) (mapping : mapping) : M unit :=
  let prefix := m_prefix mapping in
  let target_tab := m_target_tab mapping in
  let exclude_prefixes := m_exclude_prefixes mapping in
  match sheet_props !! target_tab with
  | None => raise (TabMissingError ("Target tab not found: " ++ target_tab))
  | Some _ =>
      let* latest_file :=
        lift (select_latest_file files prefix exclude_prefixes) in
      match latest_file with
      | None => print (SkipNoFile prefix)
      | Some latest_file =>
          let source_id := f_id latest_file in
          let* read :=
            try_except
              (let* values := read_source_values source_id
                   (source_sheet_name cfg) (source_range cfg) in
               ret (Some values))
              (fun exc =>
                 match exc with
                 | HttpError _ =>
                     Some (print (SkipReadFailed prefix exc) ;; ret None)
                 | _ => None
                 end) in
          match read with
          | None => ret tt
          | Some values =>
              clear_target_range (target_sheet_id cfg) target_tab
                                 (target_range cfg) ;;
              write_target_values (target_sheet_id cfg) target_tab values
          end
      end
  end.

(** The body of [for tab_name in master_tabs]. *)
Definition master_tab (cfg : config) (sheet_props : gmap string sheet_props)
  (master_meta : gmap string string) (tab_name : string) : M unit :=
  if nonempty (MASTER_ONLY_TAB env)
     && negb (String.eqb tab_name (MASTER_ONLY_TAB env))
  then ret tt
  else
    match sheet_props !! tab_name with
    | None => raise (TabMissingError ("Master tab not found: " ++ tab_name))
    | Some props =>
        match master_meta !! tab_name with
        | Some (String _ _ as last_date_col) =>
            let* new_col := update_master_tab (target_sheet_id cfg) tab_name
              last_date_col (sheetId props) (rowCount props)
              (columnCount props) (master_max_rows cfg)
              (master_chunk_size cfg) in
            if negb (String.eqb new_col last_date_col) then
              update_master_meta (target_sheet_id cfg) (master_meta_sheet cfg)
                (master_meta_range cfg) (master_meta_rows cfg)
                tab_name new_col
            else ret tt
        | _ =>
            raise (TabMissingError
                     ("Master meta missing for tab: " ++ tab_name))
        end
    end.

(** [run_update], from the listing of the drive on; the configuration
    and the credentials have been loaded. *)
Definition run_update (cfg : config) : M unit :=
  let drive_id := drive_folder_id cfg in
  let* files := list_spreadsheets_recursive drive_id in
  let* sheet_props :=
    get_sheet_properties_map remote (target_sheet_id cfg) in
  let* master_meta :=
    if run_mode_in "both" "master" then
      if decide (master_meta_override cfg = ∅) then
        get_master_meta_map (target_sheet_id cfg) (master_meta_sheet cfg)
          (master_meta_range cfg) (master_meta_rows cfg)
      else ret (master_meta_override cfg)
    else ret ∅ in
  (if run_mode_in "both" "extract" then
     for_each (mappings cfg) (extract_mapping cfg files sheet_props)
   else ret tt) ;;
  (if run_mode_in "both" "master" then
     for_each (master_tabs cfg) (master_tab cfg sheet_props master_meta)
   else ret tt).

(** The [for attempt in range(...)] loop of [main]; the list holds the
    attempts still to make. *)
Fixpoint main_loop (cfg : config) (attempts : list Z) (tr : trace)
  : Z * trace :=
  match attempts with
  | [] => (1, tr)
  | attempt :: rest =>
      match run_update cfg tr with
      | (Ok _, tr') => (0, tr')
      | (Raise (TabMissingError msg), tr') =>
          (2, tr' ++ [Print (FailLine (TabMissingError msg))])
      | (Raise exc, tr') =>
          let tr' := tr' ++ [Print (ErrorLine attempt exc)] in
          if attempt <? RETRY_COUNT then
            main_loop cfg rest (tr' ++ [Sleep RETRY_DELAY_SECONDS])
          else (1, tr')
      end
  end.

(** [range(1, RETRY_COUNT + 1)] *)
Definition attempts : list Z :=
  map Z.of_nat (seq 1 (Z.to_nat RETRY_COUNT)).

Definition main (cfg : config) : Z * trace := main_loop cfg attempts [].
End Run.
End Update.

(** ** The freeze job: [freeze_master_values.py] *)

Module Freeze.
Section Run.
Variable remote : trace -> request -> reply.
Variable env : freeze_env.

Definition freeze_column_values (spreadsheet_id : string)
  (sheet_id col_index_zero start_row_index end_row_index : Z) : M unit :=
  exec_request remote
    (CopyPasteValues spreadsheet_id sheet_id start_row_index end_row_index
                     col_index_zero (col_index_zero + 1)) ;;
  ret tt.

(** The body of [for tab_name in tabs]. *)
Definition freeze_tab (cfg : config) (sheet_props : gmap string sheet_props)
  (meta_map : gmap string string) (tab_name : string) : M unit :=
  match sheet_props !! tab_name with
  | None => raise (RuntimeError ("Master tab not found: " ++ tab_name))
  | Some props =>
      match meta_map !! tab_name with
      | Some (String _ _ as last_col) =>
          let last_col_index := a1_to_col last_col in
          let prev_col_index := last_col_index - 1 in
          if prev_col_index <? 1 then
            print (SkipInvalidPrevColumn tab_name last_col)
          else
            let max_rows := master_max_rows cfg in
            let effective_rows :=
              effective_row_count (rowCount props) max_rows in
            if effective_rows <=? 1 then
              print (SkipNoRowsToFreeze tab_name)
            else
              let chunk_size := master_freeze_chunk_size cfg in
              chunk_loop (Z.max 1 chunk_size) (Z.le_max_l 1 chunk_size)
                effective_rows
                (fun row end_row =>
                   freeze_column_values (target_sheet_id cfg)
                     (sheetId props) (prev_col_index - 1) row end_row)
                1
      | _ =>
          raise (RuntimeError ("Master meta missing for tab: " ++ tab_name))
      end
  end.

(** [run_freeze], once the configuration and the credentials are
    loaded; [master_max_rows] and [master_freeze_chunk_size] carry the
    overrides of [COMPETITOR_FREEZE_MAX_ROWS] and
    [COMPETITOR_FREEZE_CHUNK_SIZE]. *)
Definition run_freeze (cfg : config) : M unit :=
  let meta_rows := master_meta_rows cfg in
  match meta_rows with
  | [] => raise (RuntimeError "master_meta_rows is required for freeze job")
  | _ :: _ =>
      let* sheet_props :=
        get_sheet_properties_map remote (target_sheet_id cfg) in
      let tabs :=
        if nonempty (FREEZE_ONLY_TAB env) then [FREEZE_ONLY_TAB env]
        else master_tabs cfg in
      let* meta_map :=
        if nonempty (FREEZE_LAST_COL env) then
          match tabs with
          | [tab] => ret ({[ tab := FREEZE_LAST_COL env ]} : gmap string string)
          | _ => raise (RuntimeError
               "COMPETITOR_FREEZE_LAST_COL requires COMPETITOR_FREEZE_ONLY_TAB")
          end
        else if nonempty (FREEZE_ONLY_TAB env) then
          match dict_get (FREEZE_ONLY_TAB env) meta_rows with
          | None => raise (KeyError (FREEZE_ONLY_TAB env))
          | Some row_idx =>
              get_master_meta_from_rows remote (target_sheet_id cfg)
                (master_meta_sheet cfg) [(FREEZE_ONLY_TAB env, row_idx)] ∅
          end
        else
          get_master_meta_from_rows remote (target_sheet_id cfg)
            (master_meta_sheet cfg) meta_rows ∅ in
      for_each tabs (freeze_tab cfg sheet_props meta_map)
  end.

Fixpoint main_loop (cfg : config) (attempts : list Z) (tr : trace)
  : Z * trace :=
  match attempts with
  | [] => (1, tr)
  | attempt :: rest =>
      match run_freeze cfg tr with
      | (Ok _, tr') => (0, tr')
      | (Raise exc, tr') =>
          let tr' := tr' ++ [Print (ErrorLine attempt exc)] in
          if attempt <? RETRY_COUNT then
            main_loop cfg rest (tr' ++ [Sleep RETRY_DELAY_SECONDS])
          else (1, tr')
      end
  end.

Definition attempts : list Z :=
  map Z.of_nat (seq 1 (Z.to_nat RETRY_COUNT)).

Definition main (cfg : config) : Z * trace := main_loop cfg attempts [].
End Run.
End Freeze.

(** ** Vocabulary of the statements *)

(** Every character of [s] is one of A..Z. *)
Fixpoint all_AZ (s : string) : bool :=
  match s with
  | EmptyString => true
  | String ch rest => is_AZ ch && all_AZ rest
  end.

(** The environment answers every request: no call fails. *)
Definition never_fails (remote : trace -> request -> reply) : Prop :=
  forall tr req e, remote tr req <> Failed e.

(** The chunks of the loop in closed form, as 1-based inclusive row
    ranges: chunk [i] starts [i * chunk] rows after [row + 1] and ends
    [chunk] rows later or at [end_row]. *)
Definition chunk_count (chunk end_row row : Z) : nat :=
  Z.to_nat ((end_row - row + chunk - 1) / chunk).

Definition chunk_rows (chunk end_row row : Z) : list (Z * Z) :=
  map (fun i : nat =>
         (row + Z.of_nat i * chunk + 1,
          Z.min (row + (Z.of_nat i + 1) * chunk) end_row))
      (seq 0 (chunk_count chunk end_row row)).

(** [tiles lo hi l]: the ranges of [l], in order, are non-empty, each
    starts right after the one before, the first starts at [lo] and the
    last ends at [hi]. *)
Fixpoint tiles (lo hi : Z) (l : list (Z * Z)) : Prop :=
  match l with
  | [] => lo = hi + 1
  | (s, e) :: rest => s = lo /\ s <= e /\ e <= hi /\ tiles (e + 1) hi rest
  end.

(** How many ranges of [l] hold row [r]. *)
Definition covering (r : Z) (l : list (Z * Z)) : nat :=
  List.length (List.filter (fun se => (fst se <=? r) && (r <=? snd se)) l).

(** The ranges read in formula mode, in the order of the trace. *)
Definition formula_read (ev : event) : list range :=
  match ev with
  | Call (ValuesGet _ rng (Some FORMULA)) _ => [rng]
  | _ => []
  end.

Definition formula_reads (tr : trace) : list range :=
  flat_map formula_read tr.

(** The row spans [(startRowIndex, endRowIndex)] of the copy-paste
    requests, in the order of the trace. *)
Definition pasted_span (ev : event) : list (Z * Z) :=
  match ev with
  | Call (CopyPasteValues _ _ start_row end_row _ _) _ => [(start_row, end_row)]
  | _ => []
  end.

Definition pasted_rows (tr : trace) : list (Z * Z) :=
  flat_map pasted_span tr.

(** The structural updates, in the order of the trace. *)
Definition is_resize (ev : event) : bool :=
  match ev with
  | Call (UpdateColumnCount _ _ _) _ => true
  | _ => false
  end.

(** The requests that write cell values. *)
Definition is_write (ev : event) : bool :=
  match ev with
  | Call (ValuesUpdate _ _ _ _) _ => true
  | Call (ValuesClear _ _) _ => true
  | Call (CopyPasteValues _ _ _ _ _ _) _ => true
  | _ => false
  end.

(** Any request at all. *)
Definition is_call (ev : event) : bool :=
  match ev with
  | Call _ _ => true
  | _ => false
  end.

(** What [update_master_tab] does before its chunk loop: the structural
    update when the new column lies beyond the grid, then the header. *)
Definition append_prologue (remote : trace -> request -> reply)
  (env : update_env) (spreadsheet_id tab_name : string)
  (sheet_id column_count new_col_index : Z) : M unit :=
  (if column_count <? new_col_index then
     exec_request remote
       (UpdateColumnCount spreadsheet_id sheet_id new_col_index) ;;
     ret tt
   else ret tt) ;;
  exec_request remote
    (ValuesUpdate spreadsheet_id
       (mk_range tab_name (col_to_a1 new_col_index ++ "1")) RAW
       [[monday_str env]]) ;;
  ret tt.

(** [m] only ever appends to the trace, and every event it appends
    satisfies [P]. *)
Definition emits_only {A} (P : event -> Prop) (m : M A) : Prop :=
  forall tr, exists evs, snd (m tr) = tr ++ evs /\ Forall P evs.

(** [m] returns normally from every trace, with a value in [Q], and the
    events it appends project to [out] under [g]. *)
Definition yields {A B} (g : event -> list B) (Q : A -> Prop) (out : list B)
  (m : M A) : Prop :=
  forall tr, exists a evs,
    m tr = (Ok a, tr ++ evs) /\ Q a /\ flat_map g evs = out.

(** An event of the append on tab [tab_name]: a progress line, or a read
    or write of values on that tab. *)
Definition on_tab (spreadsheet_id tab_name : string) (ev : event) : Prop :=
  match ev with
  | Print _ => True
  | Call (ValuesGet sid rng _) _ => sid = spreadsheet_id /\ rng_sheet rng = tab_name
  | Call (ValuesUpdate sid rng _ _) _ =>
      sid = spreadsheet_id /\ rng_sheet rng = tab_name
  | _ => False
  end.

(** An environment in which nothing fails and every read finds one
    formula cell. *)
Definition sample_grid : trace -> request -> reply :=
  fun _ req =>
    match req with
    | DriveListRecursive _ => Files []
    | SpreadsheetsGet _ => Sheets []
    | ValuesGet _ _ _ => Values [["=B2*2"%string]]
    | _ => Done
    end.

Definition sample_update_env : update_env :=
  mk_update_env "both" "" true "2024-12-02".

(** A configuration with one ledger tab, "Prices", whose metadata is in
    row 2 of the metadata sheet, and one extraction mapping. *)
Definition sample_config : config :=
  {| drive_folder_id := "drive";
     target_sheet_id := "ledger";
     source_sheet_name := "Sheet1";
     source_range := "A1:Z";
     target_range := "A1:Z";
     mappings := [mk_mapping "saramin_" "Staging" []];
     master_tabs := ["Prices"%string];
     master_meta_sheet := "Master_Meta";
     master_meta_range := "A1:B10";
     master_max_rows := 5000;
     master_chunk_size := 500;
     master_freeze_chunk_size := 2000;
     master_meta_rows := [("Prices"%string, 2)];
     master_meta_override := ∅ |}.

(** The update job with [COMPETITOR_RUN_MODE=master]. *)
Definition master_only_env : update_env :=
  mk_update_env "master" "" true "2024-12-02".

(** The update job with [COMPETITOR_RUN_MODE=extract]. *)
Definition extract_only_env : update_env :=
  mk_update_env "extract" "" true "2024-12-02".

Definition sample_freeze_env : freeze_env := mk_freeze_env "" "".

(** What one attempt of the freeze job leaves in the trace when the
    ledger has no tab "Prices". *)
Definition failed_freeze_attempt (attempt : Z) : trace :=
  [Call (SpreadsheetsGet "ledger") (Sheets []);
   Call (ValuesGet "ledger" (mk_range "Master_Meta" "B2")
           (Some UNFORMATTED_VALUE)) (Values [["=B2*2"%string]]);
   Print (ErrorLine attempt (RuntimeError "Master tab not found: Prices"))].

(** The exception a computation ended with, if any. *)
Definition raised {A} (o : outcome A) : option exn :=
  match o with
  | Ok _ => None
  | Raise e => Some e
  end.

(** The one failure the update job absorbs: an [HttpError] on the read of
    a source dataset's values, with the [SKIP] line that follows it. *)
Definition skipped_read (cfg : config) (req : request) (e : remote_error)
  (next : event) : Prop :=
  exists source_id status prefix,
    req = ValuesGet source_id
            (mk_range (source_sheet_name cfg) (source_range cfg)) None /\
    e = RemoteHttpError status /\
    next = Print (SkipReadFailed prefix (HttpError status)).

(** The freeze job absorbs no failure. *)
Definition nothing_skipped (req : request) (e : remote_error) (next : event)
  : Prop := False.

(** A failure that [absorbed] accepts together with the event after it. *)
Definition swallowed (absorbed : request -> remote_error -> event -> Prop)
  (req : request) (e : remote_error) (after : list event) : Prop :=
  exists next rest, after = next :: rest /\ absorbed req e next.

(** Every failed call of [evs] is either the last event, its exception
    being the one the computation ended with, or a swallowed one. *)
Fixpoint faults_ok (absorbed : request -> remote_error -> event -> Prop)
  (evs : list event) (r : option exn) : Prop :=
  match evs with
  | [] => True
  | Call req (Failed e) :: after =>
      ((after = [] /\ r = Some (exn_of_remote e))
       \/ swallowed absorbed req e after)
      /\ faults_ok absorbed after r
  | _ :: after => faults_ok absorbed after r
  end.

Definition failures_propagate {A}
  (absorbed : request -> remote_error -> event -> Prop) (m : M A) : Prop :=
  forall tr, exists evs,
    snd (m tr) = tr ++ evs /\ faults_ok absorbed evs (raised (fst (m tr))).

(** A ledger with a staging tab, one source dataset on the drive, and a
    service that answers 503 to the read of any source dataset. *)
Definition flaky_source_grid : trace -> request -> reply :=
  fun _ req =>
    match req with
    | DriveListRecursive _ =>
        Files [mk_file "src1" (Some "saramin_241202"%string) None None]
    | SpreadsheetsGet _ =>
        Sheets [mk_sheet_entry (Some "Staging"%string) (Some 11) (Some 100)
                               (Some 26)]
    | ValuesGet _ _ None => Failed (RemoteHttpError 503)
    | ValuesGet _ _ (Some _) => Values []
    | _ => Done
    end.

(** The same ledger, with a source dataset that holds no row. *)
Definition empty_source_grid : trace -> request -> reply :=
  fun _ req =>
    match req with
    | DriveListRecursive _ =>
        Files [mk_file "src1" (Some "saramin_241202"%string) None None]
    | SpreadsheetsGet _ =>
        Sheets [mk_sheet_entry (Some "Staging"%string) (Some 11) (Some 100)
                               (Some 26)]
    | ValuesGet _ _ _ => Values []
    | _ => Done
    end.


Definition is_failed (rep : reply) : bool :=
  match rep with
  | Failed _ => true
  | _ => false
  end.




(** Two datasets of one prefix without a time stamp in their names; only
    the first carries a modification time. *)
Definition mixed_pool : list file_info :=
  [mk_file "src1" (Some "saramin_old"%string)
           (Some "2024-12-02T00:00:00Z"%string) None;
   mk_file "src2" (Some "saramin_new"%string) None None].

(** The instant a [datetime] stands for, on its own scale: the local one
    for a naive value, the UTC one for an aware value. *)
Definition dt_rank (d : datetime) : Z :=
  match utcoffset d with
  | None => local_micros d
  | Some off => utc_micros d off
  end.

Definition is_aware (d : datetime) : bool :=
  match utcoffset d with
  | None => false
  | Some _ => true
  end.

(** Which components of a key are aware. *)
Definition key_shape (k : sort_key_t) : bool * bool * bool :=
  let '(a, b, c) := k in (is_aware a, is_aware b, is_aware c).

Definition key_rank (k : sort_key_t) : Z * Z * Z :=
  let '(a, b, c) := k in (dt_rank a, dt_rank b, dt_rank c).

(** The lexicographic order on triples. *)
Definition lex_ltb (x y : Z * Z * Z) : bool :=
  let '(x1, x2, x3) := x in
  let '(y1, y2, y3) := y in
  (x1 <? y1) || ((x1 =? y1) && ((x2 <? y2) || ((x2 =? y2) && (x3 <? y3)))).

(** The first element of [l] that no later element outranks and that
    outranks every earlier one: the first of the greatest. *)
Fixpoint first_max {A} (rank : A -> Z * Z * Z) (l : list A) : option A :=
  match l with
  | [] => None
  | x :: rest =>
      match first_max rank rest with
      | None => Some x
      | Some best => if lex_ltb (rank x) (rank best) then Some best else Some x
      end
  end.

(** The greater of the best so far and a new element, the new one
    winning a tie. *)
Definition pick {A} (rank : A -> Z * Z * Z) (best : option A) (x : A)
  : option A :=
  match best with
  | None => Some x
  | Some b => if lex_ltb (rank x) (rank b) then Some b else Some x
  end.

(** No element of [l] is below one before it. *)
Fixpoint ascending {A} (rank : A -> Z * Z * Z) (l : list A) : Prop :=
  match l with
  | [] => True
  | x :: rest =>
      Forall (fun y => lex_ltb (rank y) (rank x) = false) rest
      /\ ascending rank rest
  end.

(** The rank of a keyed element. *)
Definition rank_of_key {K A} (rk : K -> Z * Z * Z) (x : K * A) : Z * Z * Z :=
  rk (fst x).

(** The events of one read-then-write pair over rows [first] to [last]:
    the read of column [from_col] in mode [mode], then, when it returned
    rows, the write of exactly those rows from row [first] of column
    [to_col] on. *)
Definition copy_events (spreadsheet_id tab_name from_col to_col : string)
  (mode : render_option) (input : input_option) (first last : Z)
  (read written : reply) : list event :=
  Call (ValuesGet spreadsheet_id
          (mk_range tab_name (from_col ++ pretty first ++ ":"
                              ++ from_col ++ pretty last))
          (Some mode)) read
  :: match get_values read with
     | [] => []
     | _ :: _ =>
         [Call (ValuesUpdate spreadsheet_id
                  (mk_range tab_name (to_col ++ pretty first)) input
                  (get_values read)) written]
     end.

(** The events of one chunk of the append, rows [fst se] to [snd se]: the
    formulas of the previous column are read and written into the new
    column; then, with [MASTER_FREEZE_VALUES], the computed values of the
    previous column are read and written over it as literals. *)
Definition chunk_events (env : update_env)
  (spreadsheet_id tab_name prev_col new_col : string) (se : Z * Z)
  (evs : list event) : Prop :=
  exists formulas copied values frozen,
    evs =
    copy_events spreadsheet_id tab_name prev_col new_col FORMULA USER_ENTERED
      (fst se) (snd se) formulas copied
    ++ (if MASTER_FREEZE_VALUES env
        then copy_events spreadsheet_id tab_name prev_col prev_col
               UNFORMATTED_VALUE RAW (fst se) (snd se) values frozen
        else []).

(** An event that is not the read of a source dataset: every other read
    of values names its render option. *)
Definition not_source_read (ev : event) : Prop :=
  match ev with
  | Call (ValuesGet _ _ None) _ => False
  | _ => True
  end.

(** Every read of a source dataset that failed with an [HttpError] is
    followed at once by a [SKIP] line for that error: it was caught and
    the run went on. *)
Fixpoint reads_caught (evs : list event) : Prop :=
  match evs with
  | [] => True
  | Call (ValuesGet _ _ None) (Failed (RemoteHttpError status)) :: after =>
      (exists prefix rest,
          after = Print (SkipReadFailed prefix (HttpError status)) :: rest)
      /\ reads_caught after
  | _ :: after => reads_caught after
  end.

Definition catches {A} (m : M A) : Prop :=
  forall tr, exists evs, snd (m tr) = tr ++ evs /\ reads_caught evs.

(** ** Vocabulary of further statements *)

(** An ASCII letter of either case. *)
Definition is_letter (ch : ascii) : bool := is_AZ (char_upper ch).

Fixpoint all_letters (s : string) : bool :=
  match s with
  | EmptyString => true
  | String ch rest => is_letter ch && all_letters rest
  end.

(** The rank of a dataset under a prefix: that of its sort key. *)
Definition file_rank (prefix : string) (f : file_info) : Z * Z * Z :=
  match sort_key prefix f with
  | Ok k => key_rank k
  | Raise _ => (0, 0, 0)
  end.

(** The naive/aware shape of a dataset's sort key, if it has one. *)
Definition file_shape (prefix : string) (f : file_info)
  : option (bool * bool * bool) :=
  match sort_key prefix f with
  | Ok k => Some (key_shape k)
  | Raise _ => None
  end.

(** The row [row] of the metadata table names the tab [tab_name]: the
    test of the loop of [update_master_meta]. *)
Definition names_tab (tab_name : string) (row : list cell) : bool :=
  match row with
  | [] => false
  | c0 :: _ => String.eqb (strip c0) tab_name
  end.

(** The entry of the sheet list [sheet] is kept under the title [title]. *)
Definition titled (title : string) (sheet : sheet_entry) : bool :=
  match se_title sheet with
  | Some t => nonempty t && String.eqb t title
  | None => false
  end.

(** The values of the last write to the range [rng] of the spreadsheet
    [sid] that went through, if the trace has one. *)
Fixpoint written (sid : string) (rng : range) (tr : trace) : option rows :=
  match tr with
  | [] => None
  | ev :: rest =>
      match written sid rng rest with
      | Some v => Some v
      | None =>
          match ev with
          | Call (ValuesUpdate sid' rng' _ values) rep =>
              if String.eqb sid' sid
                 && String.eqb (rng_sheet rng') (rng_sheet rng)
                 && String.eqb (rng_cells rng') (rng_cells rng)
                 && negb (is_failed rep)
              then Some values else None
          | _ => None
          end
      end
  end.

(** A grid that answers the read of a range with what was last written to
    that very range. *)
Definition reads_back (remote : trace -> request -> reply) : Prop :=
  forall tr sid rng opt values,
    written sid rng tr = Some values ->
    remote tr (ValuesGet sid rng opt) = Values values.

(** A grid with a memory: a range reads as what was last written to it,
    and as nothing before that. *)
Definition memory_grid : trace -> request -> reply :=
  fun tr req =>
    match req with
    | DriveListRecursive _ => Files []
    | SpreadsheetsGet _ => Sheets []
    | ValuesGet sid rng _ =>
        match written sid rng tr with
        | Some values => Values values
        | None => Values []
        end
    | _ => Done
    end.

(** A grid whose metadata table has a header and three rows, two of them
    for the tab "Prices". *)
Definition table_grid : trace -> request -> reply :=
  fun _ req =>
    match req with
    | ValuesGet _ _ _ =>
        Values [["Tab"%string; "Last"%string];
                ["Other"%string; "C"%string];
                [" Prices "%string; "J"%string];
                ["Prices"%string; "Q"%string]]
    | _ => Done
    end.

(** The [SKIP] lines, as against the [FAIL] and [ERROR] lines of
    [main]. *)
Definition is_skip (d : diag) : bool :=
  match d with
  | FailLine _ | ErrorLine _ _ => false
  | _ => true
  end.

(** The cells of rows [first] to [last] of the column [col]. *)
Definition column_rows (col : string) (first last : Z) : string :=
  (col ++ pretty first ++ ":" ++ col ++ pretty last)%string.

(** What the append on a tab may put on the trace: its [SKIP] line, the
    one structural update, reads of a chunk of the previous column
    (of the computed values only when freezing), the header of the new
    column, re-evaluated formulas into the new column, and, when
    freezing, literal values into the previous column.  The row span of a
    chunk lies in the data rows and is at most [chunk] rows long. *)
Definition append_event (env : update_env) (spreadsheet_id tab_name : string)
  (sheet_id column_count : Z) (prev_col new_col : string) (new_col_index : Z)
  (effective_rows chunk : Z) (ev : event) : Prop :=
  match ev with
  | Print d => d = SkipNoDataRows tab_name
  | Call (UpdateColumnCount sid sh n) _ =>
      sid = spreadsheet_id /\ sh = sheet_id /\ n = new_col_index
      /\ column_count < new_col_index
  | Call (ValuesGet sid rng opt) _ =>
      sid = spreadsheet_id /\ rng_sheet rng = tab_name /\
      (opt = Some FORMULA
       \/ (opt = Some UNFORMATTED_VALUE /\ MASTER_FREEZE_VALUES env = true)) /\
      exists first last,
        rng_cells rng = column_rows prev_col first last /\
        2 <= first <= last /\ last <= effective_rows /\
        last - first + 1 <= chunk
  | Call (ValuesUpdate sid rng input values) _ =>
      sid = spreadsheet_id /\ rng_sheet rng = tab_name /\
      ((input = RAW /\ rng_cells rng = (new_col ++ "1")%string
        /\ values = [[monday_str env]])
       \/ (input = USER_ENTERED /\
           exists first, rng_cells rng = (new_col ++ pretty first)%string
                         /\ 2 <= first <= effective_rows)
       \/ (input = RAW /\ MASTER_FREEZE_VALUES env = true /\
           exists first, rng_cells rng = (prev_col ++ pretty first)%string
                         /\ 2 <= first <= effective_rows))
  | _ => False
  end.

(** The three requests of an extraction step: the read of the window of
    the chosen file, the clearing of the target tab, and the write of the
    rows at its top-left cell. *)
Definition source_read (cfg : config) (latest : file_info) : request :=
  ValuesGet (f_id latest)
    (mk_range (source_sheet_name cfg) (source_range cfg)) None.

Definition target_clear (cfg : config) (mp : mapping) : request :=
  ValuesClear (target_sheet_id cfg)
    (mk_range (m_target_tab mp) (target_range cfg)).

Definition target_write (cfg : config) (mp : mapping) (values : rows)
  : request :=
  ValuesUpdate (target_sheet_id cfg) (mk_range (m_target_tab mp) "A1") RAW
    values.

(** What the freeze of one column of a tab may put on the trace: [SKIP]
    lines and copy-pastes of values onto themselves, each one column wide
    at the zero-based column [col] of the sheet, over rows below the
    header row and within the first [effective_rows] rows, at most
    [chunk] rows at a time. *)
Definition paste_event (spreadsheet_id : string) (sheet_id col : Z)
  (effective_rows chunk : Z) (ev : event) : Prop :=
  match ev with
  | Print d => is_skip d = true
  | Call (CopyPasteValues sid sh first last c c') _ =>
      sid = spreadsheet_id /\ sh = sheet_id /\ c = col /\ c' = col + 1 /\
      0 <= col /\ 1 <= first /\ first < last /\ last <= effective_rows /\
      last - first <= chunk
  | _ => False
  end.

(** What the extraction part of the update job may put on the trace:
    [SKIP] lines, reads of the source window of some spreadsheet, and, on
    the target spreadsheet only, the clearing of the target range of a
    mapping's tab and literal writes at the top-left cell of a mapping's
    tab. *)
Definition extract_event (cfg : config) (ev : event) : Prop :=
  match ev with
  | Print d => is_skip d = true
  | Call (ValuesGet _ rng opt) _ =>
      rng = mk_range (source_sheet_name cfg) (source_range cfg) /\ opt = None
  | Call (ValuesClear sid rng) _ =>
      sid = target_sheet_id cfg /\
      exists mp, In mp (mappings cfg) /\
                 rng = mk_range (m_target_tab mp) (target_range cfg)
  | Call (ValuesUpdate sid rng input _) _ =>
      sid = target_sheet_id cfg /\ input = RAW /\
      exists mp, In mp (mappings cfg) /\
                 rng = mk_range (m_target_tab mp) "A1"
  | _ => False
  end.

(** The sheet [sheet] is the metadata sheet or a ledger tab the run is
    not restricted away from. *)
Definition ledger_sheet (env : update_env) (cfg : config) (sheet : string)
  : Prop :=
  sheet = master_meta_sheet cfg \/
  (In sheet (master_tabs cfg) /\
   (MASTER_ONLY_TAB env = EmptyString \/ sheet = MASTER_ONLY_TAB env)).

(** What the append part of the update job may put on the trace: [SKIP]
    lines, and on the target spreadsheet only, reads and writes of values
    on the metadata sheet or on a selected ledger tab, and structural
    updates. *)
Definition ledger_event (env : update_env) (cfg : config) (ev : event)
  : Prop :=
  match ev with
  | Print d => is_skip d = true
  | Call (ValuesGet sid rng _) _ =>
      sid = target_sheet_id cfg /\ ledger_sheet env cfg (rng_sheet rng)
  | Call (ValuesUpdate sid rng _ _) _ =>
      sid = target_sheet_id cfg /\ ledger_sheet env cfg (rng_sheet rng)
  | Call (UpdateColumnCount sid _ _) _ => sid = target_sheet_id cfg
  | _ => False
  end.

(** What a run of the update job may put on the trace: the listing of
    the drive, the read of the properties of the target spreadsheet, the
    events of the extraction part when the run mode includes it, and
    those of the append part when the run mode includes it. *)
Definition update_event (env : update_env) (cfg : config) (ev : event)
  : Prop :=
  match ev with
  | Call (DriveListRecursive d) _ => d = drive_folder_id cfg
  | Call (SpreadsheetsGet sid) _ => sid = target_sheet_id cfg
  | _ =>
      (Update.run_mode_in env "both" "extract" = true /\ extract_event cfg ev)
      \/ (Update.run_mode_in env "both" "master" = true
          /\ ledger_event env cfg ev)
  end.

(** What a run of the freeze job may put on the trace: [SKIP] lines, the
    read of the properties of the target spreadsheet, reads of the
    metadata cells of the configured rows (none when the label is given
    by the environment), and copy-pastes of values, one column wide and
    below the header row, on the target spreadsheet. *)
Definition freeze_event (env : freeze_env) (cfg : config) (ev : event)
  : Prop :=
  match ev with
  | Print d => is_skip d = true
  | Call (SpreadsheetsGet sid) _ => sid = target_sheet_id cfg
  | Call (ValuesGet sid rng opt) _ =>
      sid = target_sheet_id cfg /\ opt = Some UNFORMATTED_VALUE /\
      FREEZE_LAST_COL env = EmptyString /\
      exists tab row,
        In (tab, row) (master_meta_rows cfg) /\
        (FREEZE_ONLY_TAB env = EmptyString \/ tab = FREEZE_ONLY_TAB env) /\
        rng = mk_range (master_meta_sheet cfg) ("B" ++ pretty row)
  | Call (CopyPasteValues sid _ first last c c') _ =>
      sid = target_sheet_id cfg /\ c' = c + 1 /\ 0 <= c /\
      1 <= first /\ first < last /\
      last - first <= Z.max 1 (master_freeze_chunk_size cfg)
  | _ => False
  end.

(** The spreadsheet a request modifies, if it modifies one. *)
Definition modified_spreadsheet (ev : event) : option string :=
  match ev with
  | Call (ValuesUpdate sid _ _ _) _ => Some sid
  | Call (ValuesClear sid _) _ => Some sid
  | Call (UpdateColumnCount sid _ _) _ => Some sid
  | Call (CopyPasteValues sid _ _ _ _ _) _ => Some sid
  | _ => None
  end.

(** The attempt numbers of the [ERROR] lines of a trace, and the lengths
    of its pauses. *)
Definition error_lines (tr : trace) : list Z :=
  flat_map (fun ev => match ev with
                      | Print (ErrorLine attempt _) => [attempt]
                      | _ => []
                      end) tr.

Definition pauses (tr : trace) : list Z :=
  flat_map (fun ev => match ev with
                      | Sleep seconds => [seconds]
                      | _ => []
                      end) tr.

(** The shape of the trace of [main] after [k] failed attempts: their
    [ERROR] lines numbered from 1, a pause of [RETRY_DELAY_SECONDS] after
    each but the [RETRY_COUNT]-th, and the exit code 1 exactly when all
    [RETRY_COUNT] attempts failed. *)
Definition retry_shape (code : Z) (tr : trace) : Prop :=
  exists k : nat,
    (k <= Z.to_nat RETRY_COUNT)%nat /\
    error_lines tr = map Z.of_nat (seq 1 k) /\
    pauses tr = repeat RETRY_DELAY_SECONDS
                  (Nat.min k (Z.to_nat RETRY_COUNT - 1)) /\
    (code = 1 <-> k = Z.to_nat RETRY_COUNT).

(** The row [row] of the metadata table gives the tab [tab_name] a label:
    the test of the loop of [get_master_meta_map], on a row that names
    the tab. *)
Definition labels_tab (tab_name : string) (row : list cell) : bool :=
  match row with
  | c0 :: c1 :: _ =>
      String.eqb (strip c0) tab_name
      && (nonempty (strip c0) && nonempty (upper (strip c1)))
  | _ => false
  end.

(** The label a row of the metadata table holds. *)
Definition label_of (row : list cell) : string :=
  match row with
  | _ :: c1 :: _ => upper (strip c1)
  | _ => EmptyString
  end.

(** A character of the ASCII range, where [str.upper] maps letters to
    letters and leaves every other character as it is. *)
Definition is_ascii (ch : ascii) : bool := ord ch <? 128.

(** The requests of a trace, in order. *)
Definition request_of (ev : event) : list request :=
  match ev with
  | Call req _ => [req]
  | _ => []
  end.

Definition requests (tr : trace) : list request := flat_map request_of tr.

(** * Properties *)

(** ** Column codec *)

Lemma ord_chr (n : Z) : 0 <= n < 256 -> ord (chr n) = n.
Proof.
  intros Hn. unfold ord, chr.
  rewrite N_ascii_embedding; lia.
Qed.

Lemma col_to_a1_loop_nonpos (index : Z) (letters : list ascii) :
  index <= 0 -> col_to_a1_loop index letters = letters.
Proof.
  intros Hle. simp col_to_a1_loop.
  destruct (Z_gt_dec index 0); [lia | reflexivity].
Qed.

Lemma col_to_a1_loop_pos (index : Z) (letters : list ascii) :
  0 < index ->
  col_to_a1_loop index letters =
  col_to_a1_loop ((index - 1) / 26) (letters ++ [chr (65 + (index - 1) mod 26)]).
Proof.
  intros Hlt. rewrite col_to_a1_loop_equation_1.
  destruct (Z_gt_dec index 0); [reflexivity | lia].
Qed.

Lemma quotient_smaller (index : Z) :
  0 < index -> 0 <= (index - 1) / 26 < index.
Proof.
  intros Hlt. split; [apply Z.div_pos; lia|].
  apply Z.le_lt_trans with (index - 1); [|lia].
  apply Z.div_le_upper_bound; lia.
Qed.

(** The accumulator only grows at its end. *)
Lemma col_to_a1_loop_acc (index : Z) (letters : list ascii) :
  col_to_a1_loop index letters = letters ++ col_to_a1_loop index [].
Proof.
  destruct (Z_le_gt_dec index 0) as [Hle | Hgt].
  { rewrite !col_to_a1_loop_nonpos by lia. now rewrite app_nil_r. }
  assert (H0 : 0 <= index) by lia. clear Hgt.
  revert letters. pattern index. apply Z_lt_induction; [|exact H0].
  clear index H0. intros index IH letters.
  destruct (Z_le_gt_dec index 0) as [Hle | Hgt].
  { rewrite !col_to_a1_loop_nonpos by lia. now rewrite app_nil_r. }
  rewrite (col_to_a1_loop_pos index letters) by lia.
  rewrite (col_to_a1_loop_pos index []) by lia.
  pose proof (quotient_smaller index ltac:(lia)) as Hq.
  rewrite (IH ((index - 1) / 26) ltac:(lia) (letters ++ _)).
  rewrite (IH ((index - 1) / 26) ltac:(lia) ([] ++ _)).
  now rewrite <- app_assoc.
Qed.

Lemma col_to_a1_step (index : Z) :
  0 < index ->
  col_to_a1 index =
  (col_to_a1 ((index - 1) / 26)
   ++ String (chr (65 + (index - 1) mod 26)) EmptyString)%string.
Proof.
  intros Hlt. unfold col_to_a1.
  rewrite col_to_a1_loop_pos by lia. rewrite col_to_a1_loop_acc.
  simpl. generalize (rev (col_to_a1_loop ((index - 1) / 26) [])) as l.
  induction l as [|c l IHl]; simpl; [reflexivity | now rewrite IHl].
Qed.

Lemma col_to_a1_nonpos (index : Z) : index <= 0 -> col_to_a1 index = EmptyString.
Proof.
  intros Hle. unfold col_to_a1. now rewrite col_to_a1_loop_nonpos by lia.
Qed.

Lemma all_AZ_app (s t : string) :
  all_AZ (s ++ t)%string = all_AZ s && all_AZ t.
Proof.
  induction s as [|c s IHs]; simpl; [reflexivity|].
  now rewrite IHs, andb_assoc.
Qed.

Lemma is_AZ_letter (r : Z) : 0 <= r < 26 -> is_AZ (chr (65 + r)) = true.
Proof.
  intros Hr. unfold is_AZ. rewrite ord_chr by lia.
  apply andb_true_intro; split; apply Z.leb_le; lia.
Qed.

Lemma col_to_a1_all_AZ (index : Z) : all_AZ (col_to_a1 index) = true.
Proof.
  destruct (Z_le_gt_dec index 0) as [Hle | Hgt].
  { now rewrite col_to_a1_nonpos. }
  assert (H0 : 0 <= index) by lia. clear Hgt.
  pattern index. apply Z_lt_induction; [|exact H0].
  clear index H0. intros index IH.
  destruct (Z_le_gt_dec index 0) as [Hle | Hgt].
  { now rewrite col_to_a1_nonpos. }
  rewrite col_to_a1_step by lia. rewrite all_AZ_app.
  pose proof (quotient_smaller index ltac:(lia)) as Hq.
  rewrite IH by lia. simpl.
  rewrite is_AZ_letter; [reflexivity|].
  apply Z.mod_pos_bound; lia.
Qed.

Lemma upper_all_AZ (s : string) : all_AZ s = true -> upper s = s.
Proof.
  induction s as [|c s IHs]; simpl; [reflexivity|].
  intros H. apply andb_prop in H as [Hc Hs].
  rewrite IHs by assumption. f_equal.
  unfold char_upper, is_az. unfold is_AZ in Hc.
  apply andb_prop in Hc as [_ Hc]. apply Z.leb_le in Hc.
  destruct (97 <=? ord c) eqn:E; [apply Z.leb_le in E; lia | reflexivity].
Qed.

Lemma a1_to_col_loop_app (s t : string) :
  all_AZ s = true ->
  forall result,
    a1_to_col_loop result (s ++ t)%string =
    a1_to_col_loop (a1_to_col_loop result s) t.
Proof.
  induction s as [|c s IHs]; simpl; intros H result; [reflexivity|].
  apply andb_prop in H as [Hc Hs]. rewrite Hc. simpl. now apply IHs.
Qed.

Lemma a1_to_col_loop_col_to_a1 (index : Z) :
  0 <= index -> a1_to_col_loop 0 (col_to_a1 index) = index.
Proof.
  intros H0. generalize H0. pattern index. apply Z_lt_induction; [|exact H0].
  clear index H0. intros index IH H0.
  destruct (Z.eq_dec index 0) as [-> | Hne]; [reflexivity|].
  pose proof (quotient_smaller index ltac:(lia)) as Hq.
  pose proof (Z.mod_pos_bound (index - 1) 26 ltac:(lia)) as Hr.
  rewrite col_to_a1_step by lia.
  rewrite a1_to_col_loop_app by apply col_to_a1_all_AZ.
  rewrite IH by lia. simpl.
  rewrite is_AZ_letter by lia. simpl. rewrite ord_chr by lia.
  pose proof (Z.div_mod (index - 1) 26 ltac:(lia)). lia.
Qed.

(** C7. Column codec round trip: reading back the label printed for an
    index [n >= 1] gives [n], and an index [n <= 0] prints the empty
    label. *)
Theorem col_codec_roundtrip (n : Z) :
  (1 <= n → a1_to_col (col_to_a1 n) = n) ∧
  (n <= 0 → col_to_a1 n = EmptyString).
Proof.
  split.
  - intros Hn. unfold a1_to_col.
    rewrite upper_all_AZ by apply col_to_a1_all_AZ.
    apply a1_to_col_loop_col_to_a1. lia.
  - apply col_to_a1_nonpos.
Qed.

Lemma col_codec_roundtrip_witness :
  a1_to_col (col_to_a1 703) = 703 ∧ col_to_a1 (-4) = EmptyString.
Proof.
  split.
  - apply (proj1 (col_codec_roundtrip 703)). lia.
  - apply (proj2 (col_codec_roundtrip (-4))). lia.
Defined.

(** ** The chunk loop *)

Lemma chunk_count_done (chunk end_row row : Z) :
  1 <= chunk -> end_row <= row -> chunk_count chunk end_row row = O.
Proof.
  intros Hc Hle. unfold chunk_count.
  assert ((end_row - row + chunk - 1) / chunk <= 0); [|lia].
  assert ((end_row - row + chunk - 1) / chunk < 1); [|lia].
  apply Z.div_lt_upper_bound; lia.
Qed.

Lemma chunk_count_step (chunk end_row row : Z) :
  1 <= chunk -> row < end_row ->
  chunk_count chunk end_row row = S (chunk_count chunk end_row (row + chunk)).
Proof.
  intros Hc Hlt. unfold chunk_count.
  replace (end_row - row + chunk - 1)
    with ((end_row - (row + chunk) + chunk - 1) + 1 * chunk) by lia.
  rewrite Z.div_add by lia.
  assert (0 <= (end_row - (row + chunk) + chunk - 1) / chunk)
    by (apply Z.div_pos; lia).
  lia.
Qed.

Lemma chunk_rows_done (chunk end_row row : Z) :
  1 <= chunk -> end_row <= row -> chunk_rows chunk end_row row = [].
Proof.
  intros Hc Hle. unfold chunk_rows. now rewrite chunk_count_done.
Qed.

(** One turn of the loop: the first chunk, then the chunks from where it
    ended. *)
Lemma chunk_rows_step (chunk end_row row : Z) :
  1 <= chunk -> row < end_row ->
  chunk_rows chunk end_row row =
  (row + 1, Z.min (row + chunk) end_row)
    :: chunk_rows chunk end_row (Z.min (row + chunk) end_row).
Proof.
  intros Hc Hlt. unfold chunk_rows at 1.
  rewrite chunk_count_step by lia. cbn [seq map].
  f_equal; [f_equal; lia|].
  destruct (Z_lt_ge_dec (row + chunk) end_row) as [Hin | Hout].
  - rewrite (Z.min_l (row + chunk) end_row) by lia.
    unfold chunk_rows. rewrite <- seq_shift, map_map.
    apply map_ext. intros i. f_equal; [lia | f_equal; lia].
  - rewrite (Z.min_r (row + chunk) end_row) by lia.
    rewrite (chunk_rows_done chunk end_row end_row) by lia.
    now rewrite (chunk_count_done chunk end_row (row + chunk)) by lia.
Qed.

(** Induction along the loop: on the number of rows still to do. *)
Lemma chunk_induction (chunk end_row : Z) (P : Z -> Prop) :
  1 <= chunk ->
  (forall row, end_row <= row -> P row) ->
  (forall row, row < end_row -> P (Z.min (row + chunk) end_row) -> P row) ->
  forall row, P row.
Proof.
  intros Hc Hdone Hstep row.
  remember (Z.to_nat (end_row - row)) as n eqn:Hn.
  revert row Hn. induction n as [n IH] using lt_wf_ind. intros row Hn.
  destruct (Z_lt_ge_dec row end_row) as [Hlt | Hge].
  - apply Hstep; [assumption|].
    apply (IH (Z.to_nat (end_row - Z.min (row + chunk) end_row))); lia.
  - apply Hdone. lia.
Qed.

Lemma chunk_loop_done (chunk : Z) (chunk_pos : 1 <= chunk) (end_row : Z)
  (body : Z -> Z -> M unit) (row : Z) (tr : trace) :
  end_row <= row ->
  chunk_loop chunk chunk_pos end_row body row tr = (Ok tt, tr).
Proof.
  intros Hle. rewrite chunk_loop_equation_1.
  destruct (Z_lt_dec row end_row); [lia|].
  now rewrite chunk_loop_clause_1_equation_2.
Qed.

Lemma chunk_loop_step (chunk : Z) (chunk_pos : 1 <= chunk) (end_row : Z)
  (body : Z -> Z -> M unit) (row : Z) (tr : trace) :
  row < end_row ->
  chunk_loop chunk chunk_pos end_row body row tr =
  (body row (Z.min (row + chunk) end_row) ;;
   chunk_loop chunk chunk_pos end_row body (Z.min (row + chunk) end_row)) tr.
Proof.
  intros Hlt. rewrite chunk_loop_equation_1.
  destruct (Z_lt_dec row end_row); [|lia].
  rewrite chunk_loop_clause_1_equation_1. unfold bind.
  destruct (body row (Z.min (row + chunk) end_row) tr) as [[[]|e] tr'];
    reflexivity.
Qed.

(** The loop runs its body on the chunks of [chunk_rows], one after the
    other, and stops at the first that raises. *)
Lemma chunk_loop_for_each (chunk : Z) (chunk_pos : 1 <= chunk) (end_row : Z)
  (body : Z -> Z -> M unit) (row : Z) :
  forall tr,
    chunk_loop chunk chunk_pos end_row body row tr =
    for_each (chunk_rows chunk end_row row)
             (fun se => body (fst se - 1) (snd se)) tr.
Proof.
  pattern row. apply (chunk_induction chunk end_row); [assumption| |];
    clear row; intros row Hrow.
  - intros tr. rewrite chunk_rows_done by lia.
    now rewrite chunk_loop_done by lia.
  - intros IH tr. rewrite chunk_rows_step by lia.
    rewrite chunk_loop_step by lia.
    cbn [for_each fst snd]. unfold bind.
    replace (row + 1 - 1) with row by lia.
    destruct (body row (Z.min (row + chunk) end_row) tr) as [[[]|e] tr'];
      [apply IH | reflexivity].
Qed.

Lemma chunk_rows_tiles (chunk end_row row : Z) :
  1 <= chunk -> row <= end_row ->
  tiles (row + 1) end_row (chunk_rows chunk end_row row).
Proof.
  intros Hc. pattern row. apply (chunk_induction chunk end_row); [assumption| |];
    clear row; intros row Hrow.
  - intros Hle. rewrite chunk_rows_done by lia. simpl. lia.
  - intros IH _. rewrite chunk_rows_step by lia. simpl.
    repeat split; try lia. apply IH. lia.
Qed.

(** A tiling holds every row of its span once, and no other row. *)
Lemma tiles_covering (hi : Z) (l : list (Z * Z)) :
  forall lo r, tiles lo hi l ->
    covering r l = if (lo <=? r) && (r <=? hi) then 1%nat else 0%nat.
Proof.
  induction l as [|[s e] rest IH]; intros lo r Ht; simpl in Ht.
  - unfold covering. simpl.
    destruct (lo <=? r) eqn:E1, (r <=? hi) eqn:E2; simpl; try reflexivity.
    apply Z.leb_le in E1, E2. lia.
  - destruct Ht as (-> & Hse & Heh & Ht).
    unfold covering in *. simpl.
    specialize (IH (e + 1) r Ht).
    destruct (lo <=? r) eqn:E1, (r <=? e) eqn:E2, (r <=? hi) eqn:E3,
             (e + 1 <=? r) eqn:E4; simpl in *; rewrite ?IH; simpl;
      try reflexivity;
      repeat match goal with
             | H : (_ <=? _) = true |- _ => apply Z.leb_le in H
             | H : (_ <=? _) = false |- _ => apply Z.leb_gt in H
             end; lia.
Qed.

Lemma chunk_rows_single (end_row row : Z) (se : Z * Z) :
  In se (chunk_rows 1 end_row row) -> fst se = snd se.
Proof.
  unfold chunk_rows. rewrite in_map_iff. intros (i & <- & Hi).
  apply in_seq in Hi. simpl.
  assert (Z.of_nat i < (end_row - row + 1 - 1) / 1)
    by (unfold chunk_count in Hi; lia).
  rewrite Z.div_1_r in H. lia.
Qed.

(** ** Running a computation *)

Lemma bind_ok {A B} (m : M A) (k : A -> M B) (tr tr' : trace) (a : A) :
  m tr = (Ok a, tr') -> bind m k tr = k a tr'.
Proof. intros H. unfold bind. now rewrite H. Qed.

Lemma bind_raise {A B} (m : M A) (k : A -> M B) (tr tr' : trace) (e : exn) :
  m tr = (Raise e, tr') -> bind m k tr = (Raise e, tr').
Proof. intros H. unfold bind. now rewrite H. Qed.

Lemma exec_request_never_fails remote (req : request) (tr : trace) :
  never_fails remote ->
  exec_request remote req tr =
  (Ok (remote tr req), tr ++ [Call req (remote tr req)]).
Proof.
  intros Hnf. unfold exec_request.
  destruct (remote tr req) eqn:E; try reflexivity.
  now destruct (Hnf tr req e).
Qed.

(** ** The append engine *)

Section Append.
Variable remote : trace -> request -> reply.
Variable env : update_env.

(** A tab with data rows: the prologue, the chunks of [chunk_rows] in
    order through [copy_chunk], the new label. *)
Lemma update_master_tab_chunks
  (spreadsheet_id tab_name last_date_col : string)
  (sheet_id row_count column_count max_rows chunk_size : Z) (tr : trace) :
  1 < effective_row_count row_count max_rows ->
  Update.update_master_tab remote env spreadsheet_id tab_name last_date_col
    sheet_id row_count column_count max_rows chunk_size tr =
  (append_prologue remote env spreadsheet_id tab_name sheet_id column_count
     (a1_to_col last_date_col + 1) ;;
   for_each
     (chunk_rows (Z.max 1 chunk_size)
                 (effective_row_count row_count max_rows) 1)
     (fun se =>
        Update.copy_chunk remote env spreadsheet_id tab_name
          (col_to_a1 (a1_to_col last_date_col))
          (col_to_a1 (a1_to_col last_date_col + 1))
          (fst se - 1) (snd se)) ;;
   ret (col_to_a1 (a1_to_col last_date_col + 1))) tr.
Proof.
  intros Heff. unfold Update.update_master_tab, append_prologue.
  destruct (effective_row_count row_count max_rows <=? 1) eqn:E;
    [apply Z.leb_le in E; lia|].
  replace (a1_to_col last_date_col - 1 + 1) with (a1_to_col last_date_col)
    by lia.
  unfold bind.
  destruct (column_count <? a1_to_col last_date_col + 1).
  - destruct (exec_request remote (UpdateColumnCount _ _ _) tr)
      as [[r|e] tr1]; [|reflexivity].
    unfold ret.
    destruct (exec_request remote (ValuesUpdate _ _ _ _) tr1)
      as [[r2|e2] tr2]; [|reflexivity].
    now rewrite chunk_loop_for_each.
  - unfold ret.
    destruct (exec_request remote (ValuesUpdate _ _ _ _) tr)
      as [[r2|e2] tr2]; [|reflexivity].
    now rewrite chunk_loop_for_each.
Qed.
End Append.

(** ** What a computation adds to the trace *)

Section EmitsOnly.
Variable remote : trace -> request -> reply.
Variable P : event -> Prop.

Lemma emits_only_ret {A} (a : A) : emits_only P (ret a).
Proof. intros tr. exists []. simpl. now rewrite app_nil_r. Qed.

Lemma emits_only_raise {A} (e : exn) : emits_only P (@raise A e).
Proof. intros tr. exists []. simpl. now rewrite app_nil_r. Qed.

Lemma emits_only_lift {A} (o : outcome A) : emits_only P (lift o).
Proof. intros tr. exists []. simpl. now rewrite app_nil_r. Qed.

Lemma emits_only_print (d : diag) : P (Print d) -> emits_only P (print d).
Proof. intros Hd tr. exists [Print d]. simpl. auto. Qed.

Lemma emits_only_exec (req : request) :
  (forall rep, P (Call req rep)) -> emits_only P (exec_request remote req).
Proof.
  intros Hreq tr. exists [Call req (remote tr req)]. simpl. auto.
Qed.

Lemma emits_only_bind {A B} (m : M A) (k : A -> M B) :
  emits_only P m -> (forall a, emits_only P (k a)) ->
  emits_only P (bind m k).
Proof.
  intros Hm Hk tr. unfold bind.
  destruct (Hm tr) as (evs1 & E1 & F1).
  destruct (m tr) as [[a|e] tr1]; simpl in E1; subst tr1.
  - destruct (Hk a (tr ++ evs1)) as (evs2 & E2 & F2).
    exists (evs1 ++ evs2). rewrite E2, app_assoc.
    split; [reflexivity | now apply Forall_app].
  - now exists evs1.
Qed.

Lemma emits_only_for_each {A} (l : list A) (body : A -> M unit) :
  (forall x, In x l -> emits_only P (body x)) ->
  emits_only P (for_each l body).
Proof.
  induction l as [|x l IH]; intros Hbody; simpl.
  - apply emits_only_ret.
  - apply emits_only_bind; [apply Hbody; now left|].
    intros _. apply IH. intros y Hy. apply Hbody. now right.
Qed.

Lemma emits_only_chunk_loop (chunk : Z) (chunk_pos : 1 <= chunk)
  (end_row : Z) (body : Z -> Z -> M unit) (row : Z) :
  (forall r e, emits_only P (body r e)) ->
  emits_only P (chunk_loop chunk chunk_pos end_row body row).
Proof.
  intros Hbody tr. rewrite chunk_loop_for_each.
  apply emits_only_for_each. intros se _. apply Hbody.
Qed.

Lemma emits_only_try_except {A} (m : M A) (handler : exn -> option (M A)) :
  emits_only P m ->
  (forall e h, handler e = Some h -> emits_only P h) ->
  emits_only P (try_except m handler).
Proof.
  intros Hm Hh tr. unfold try_except.
  destruct (Hm tr) as (evs1 & E1 & F1).
  destruct (m tr) as [[a|e] tr1]; simpl in E1; subst tr1.
  - now exists evs1.
  - destruct (handler e) as [h|] eqn:Eh; [|now exists evs1].
    destruct (Hh e h Eh (tr ++ evs1)) as (evs2 & E2 & F2).
    exists (evs1 ++ evs2). rewrite E2, app_assoc.
    split; [reflexivity | now apply Forall_app].
Qed.
End EmitsOnly.

Lemma emits_only_weaken {A} (P Q : event -> Prop) (m : M A) :
  (forall ev, P ev -> Q ev) -> emits_only P m -> emits_only Q m.
Proof.
  intros HPQ Hm tr. destruct (Hm tr) as (evs & E & F).
  exists evs. split; [assumption|]. eapply Forall_impl; eauto.
Qed.

(** ** Runs in which no call fails *)

Section Yields.
Variable remote : trace -> request -> reply.
Hypothesis remote_ok : never_fails remote.
Context {B : Type} (g : event -> list B).

Lemma yields_ret {A} (Q : A -> Prop) (a : A) : Q a -> yields g Q [] (ret a).
Proof. intros Ha tr. exists a, []. simpl. now rewrite app_nil_r. Qed.

Lemma yields_print (d : diag) :
  yields g (fun _ => True) (g (Print d)) (print d).
Proof.
  intros tr. exists tt, [Print d]. simpl. now rewrite app_nil_r.
Qed.

Lemma yields_exec (req : request) (out : list B) :
  (forall rep, g (Call req rep) = out) ->
  yields g (fun _ => True) out (exec_request remote req).
Proof.
  intros Hout tr. exists (remote tr req), [Call req (remote tr req)].
  rewrite exec_request_never_fails by assumption. simpl.
  now rewrite app_nil_r, Hout.
Qed.

Lemma yields_bind {A C} (Q1 : A -> Prop) (Q2 : C -> Prop)
  (o1 o2 out : list B) (m : M A) (k : A -> M C) :
  out = o1 ++ o2 ->
  yields g Q1 o1 m -> (forall a, Q1 a -> yields g Q2 o2 (k a)) ->
  yields g Q2 out (bind m k).
Proof.
  intros -> Hm Hk tr.
  destruct (Hm tr) as (a & evs1 & E1 & Qa & G1).
  destruct (Hk a Qa (tr ++ evs1)) as (c & evs2 & E2 & Qc & G2).
  exists c, (evs1 ++ evs2).
  rewrite (bind_ok _ _ _ _ _ E1), E2, app_assoc, flat_map_app, G1, G2.
  auto.
Qed.

(** The first step makes all the output. *)
Lemma yields_bind_l {A C} (Q1 : A -> Prop) (Q2 : C -> Prop)
  (out : list B) (m : M A) (k : A -> M C) :
  yields g Q1 out m -> (forall a, Q1 a -> yields g Q2 [] (k a)) ->
  yields g Q2 out (bind m k).
Proof. apply yields_bind. symmetry. apply app_nil_r. Qed.

(** The first step makes no output. *)
Lemma yields_bind_r {A C} (Q1 : A -> Prop) (Q2 : C -> Prop)
  (out : list B) (m : M A) (k : A -> M C) :
  yields g Q1 [] m -> (forall a, Q1 a -> yields g Q2 out (k a)) ->
  yields g Q2 out (bind m k).
Proof. now apply yields_bind. Qed.

Lemma yields_for_each {A} (f : A -> list B) (l : list A)
  (body : A -> M unit) :
  (forall x, yields g (fun _ => True) (f x) (body x)) ->
  yields g (fun _ => True) (flat_map f l) (for_each l body).
Proof.
  intros Hbody. induction l as [|x l IH]; simpl.
  - now apply yields_ret.
  - eapply yields_bind; [reflexivity | apply Hbody | intros _ _; apply IH].
Qed.

Lemma yields_weaken {A} (Q Q' : A -> Prop) (out : list B) (m : M A) :
  (forall a, Q a -> Q' a) -> yields g Q out m -> yields g Q' out m.
Proof.
  intros HQ Hm tr. destruct (Hm tr) as (a & evs & E & Qa & G).
  exists a, evs. auto.
Qed.
End Yields.

Lemma map_as_flat_map {A B} (f : A -> B) (l : list A) :
  map f l = flat_map (fun x => [f x]) l.
Proof. induction l as [|x l IH]; simpl; [reflexivity | now rewrite IH]. Qed.

Ltac yields_call := apply yields_exec; [assumption | reflexivity].
Ltac yields_then := eapply yields_bind_r with (Q1 := fun _ => True).
Ltac yields_first := eapply yields_bind_l with (Q1 := fun _ => True).
Ltac yields_end := apply yields_ret; auto.

Section AppendYields.
Variable remote : trace -> request -> reply.
Hypothesis remote_ok : never_fails remote.
Variable env : update_env.

Lemma copy_chunk_yields
  (spreadsheet_id tab_name prev_col_letter new_col_letter : string)
  (row chunk_end : Z) :
  yields formula_read (fun _ => True)
    [mk_range tab_name
       (prev_col_letter ++ pretty (row + 1) ++ ":"
        ++ prev_col_letter ++ pretty chunk_end)]
    (Update.copy_chunk remote env spreadsheet_id tab_name prev_col_letter
       new_col_letter row chunk_end).
Proof.
  unfold Update.copy_chunk.
  yields_first; [yields_call|]. intros response _.
  yields_then.
  - destruct (get_values response); [yields_end|].
    yields_then; [yields_call | intros; yields_end].
  - intros _ _. destruct (MASTER_FREEZE_VALUES env); [|yields_end].
    yields_then; [yields_call|]. intros response' _.
    destruct (get_values response'); [yields_end|].
    yields_then; [yields_call | intros; yields_end].
Qed.

(** With an environment that answers, the append returns the next
    label and reads the previous column chunk after chunk. *)
Lemma update_master_tab_yields
  (spreadsheet_id tab_name last_date_col : string)
  (sheet_id row_count column_count max_rows chunk_size : Z) :
  1 < effective_row_count row_count max_rows ->
  yields formula_read
    (fun new_col => new_col = col_to_a1 (a1_to_col last_date_col + 1))
    (map (fun se =>
            mk_range tab_name
              (col_to_a1 (a1_to_col last_date_col) ++ pretty (fst se) ++ ":"
               ++ col_to_a1 (a1_to_col last_date_col) ++ pretty (snd se)))
         (chunk_rows (Z.max 1 chunk_size)
                     (effective_row_count row_count max_rows) 1))
    (Update.update_master_tab remote env spreadsheet_id tab_name
       last_date_col sheet_id row_count column_count max_rows chunk_size).
Proof.
  intros Heff tr.
  rewrite update_master_tab_chunks by assumption. revert tr.
  yields_then.
  - unfold append_prologue. yields_then.
    + destruct (column_count <? _); [|yields_end].
      yields_then; [yields_call | intros; yields_end].
    + intros _ _. yields_then; [yields_call | intros; yields_end].
  - intros _ _. yields_first; [| intros; yields_end].
    rewrite map_as_flat_map.
    apply yields_for_each. intros se.
    replace (fst se) with (fst se - 1 + 1) at 1 by lia.
    apply copy_chunk_yields.
Qed.
End AppendYields.

Section AppendEvents.
Variable remote : trace -> request -> reply.
Variable env : update_env.

Lemma copy_chunk_on_tab
  (spreadsheet_id tab_name prev_col_letter new_col_letter : string)
  (row chunk_end : Z) :
  emits_only (on_tab spreadsheet_id tab_name)
    (Update.copy_chunk remote env spreadsheet_id tab_name prev_col_letter
       new_col_letter row chunk_end).
Proof.
  unfold Update.copy_chunk.
  apply emits_only_bind; [apply emits_only_exec; simpl; auto|].
  intros response. apply emits_only_bind.
  - destruct (get_values response); [apply emits_only_ret|].
    apply emits_only_bind; [apply emits_only_exec; simpl; auto|].
    intros; apply emits_only_ret.
  - intros _. destruct (MASTER_FREEZE_VALUES env); [|apply emits_only_ret].
    apply emits_only_bind; [apply emits_only_exec; simpl; auto|].
    intros response'. destruct (get_values response');
      [apply emits_only_ret|].
    apply emits_only_bind; [apply emits_only_exec; simpl; auto|].
    intros; apply emits_only_ret.
Qed.

(** After the optional structural update, the append only reads and
    writes values of its own tab. *)
Lemma append_header_on_tab (spreadsheet_id tab_name header : string) :
  emits_only (on_tab spreadsheet_id tab_name)
    (exec_request remote
       (ValuesUpdate spreadsheet_id (mk_range tab_name header) RAW
          [[monday_str env]]) ;;
     ret tt).
Proof.
  apply emits_only_bind; [apply emits_only_exec; simpl; auto|].
  intros _. apply emits_only_ret.
Qed.

Lemma append_chunks_on_tab
  (spreadsheet_id tab_name prev_col_letter new_col_letter : string)
  (l : list (Z * Z)) :
  emits_only (on_tab spreadsheet_id tab_name)
    (for_each l
       (fun se =>
          Update.copy_chunk remote env spreadsheet_id tab_name
            prev_col_letter new_col_letter (fst se - 1) (snd se))).
Proof. apply emits_only_for_each. intros se _. apply copy_chunk_on_tab. Qed.

(** A call and what follows it: the call is the first new event. *)
Lemma exec_request_first {A} (P : event -> Prop) (req : request)
  (k : reply -> M A) (tr : trace) :
  (forall rep, emits_only P (k rep)) ->
  exists rest,
    snd (bind (exec_request remote req) k tr) =
    tr ++ Call req (remote tr req) :: rest /\ Forall P rest.
Proof.
  intros Hk. unfold bind, exec_request.
  destruct (remote tr req) as [| | | |e] eqn:Er;
    try (destruct (Hk (remote tr req) (tr ++ [Call req (remote tr req)]))
           as (rest & E & F);
         exists rest; rewrite Er in E; rewrite E, <- app_assoc;
         split; [reflexivity | exact F]).
  exists []. split; [reflexivity | constructor].
Qed.

Lemma bind_assoc {A B C} (m : M A) (k : A -> M B) (h : B -> M C) tr :
  bind (bind m k) h tr = bind m (fun a => bind (k a) h) tr.
Proof.
  unfold bind. destruct (m tr) as [[a|e] tr1]; reflexivity.
Qed.

Lemma ret_bind {A B} (a : A) (k : A -> M B) tr : bind (ret a) k tr = k a tr.
Proof. reflexivity. Qed.
End AppendEvents.

Lemma on_tab_not_resize (spreadsheet_id tab_name : string) (ev : event) :
  on_tab spreadsheet_id tab_name ev -> is_resize ev = false.
Proof. destruct ev as [[] ?| |]; simpl; tauto. Qed.

Lemma effective_row_count_unbounded (row_count max_rows : Z) :
  max_rows <= 0 \/ row_count <= max_rows ->
  effective_row_count row_count max_rows = row_count.
Proof.
  intros H. unfold effective_row_count.
  destruct (0 <? max_rows) eqn:E; [|reflexivity].
  apply Z.ltb_lt in E. lia.
Qed.

(** ** The transcript of the chunks *)

Lemma for_each_transcript {A} (P : A -> list event -> Prop) (l : list A)
  (body : A -> M unit) :
  (forall x tr, exists evs, body x tr = (Ok tt, tr ++ evs) /\ P x evs) ->
  forall tr, exists chunks,
    for_each l body tr = (Ok tt, tr ++ concat chunks) /\ Forall2 P l chunks.
Proof.
  intros Hbody. induction l as [|x l IH]; intros tr.
  - exists []. simpl. rewrite app_nil_r. split; [reflexivity | constructor].
  - destruct (Hbody x tr) as (evs & E & HP).
    destruct (IH (tr ++ evs)) as (chunks & E' & HF).
    exists (evs :: chunks). simpl.
    rewrite (bind_ok _ _ _ _ _ E), E', app_assoc.
    split; [reflexivity | now constructor].
Qed.

Lemma copy_chunk_transcript (remote : trace -> request -> reply)
  (env : update_env) (spreadsheet_id tab_name prev_col new_col : string)
  (row chunk_end : Z) (tr : trace) :
  never_fails remote ->
  exists evs,
    Update.copy_chunk remote env spreadsheet_id tab_name prev_col new_col
      row chunk_end tr = (Ok tt, tr ++ evs) /\
    chunk_events env spreadsheet_id tab_name prev_col new_col
      (row + 1, chunk_end) evs.
Proof.
  intros Hok. unfold Update.copy_chunk, chunk_events, copy_events.
  cbn [fst snd]. cbv zeta.
  set (rng := mk_range tab_name _).
  set (read := ValuesGet spreadsheet_id rng (Some FORMULA)).
  set (read' := ValuesGet spreadsheet_id rng (Some UNFORMATTED_VALUE)).
  unfold bind at 1. rewrite exec_request_never_fails by assumption.
  set (formulas := remote tr read).
  set (tr1 := tr ++ [Call read formulas]).
  assert (Hcopy : exists copied,
             match get_values formulas with
             | [] => ret tt
             | _ :: _ =>
                 exec_request remote
                   (ValuesUpdate spreadsheet_id
                      (mk_range tab_name (new_col ++ pretty (row + 1)))
                      USER_ENTERED (get_values formulas)) ;;
                 ret tt
             end tr1 =
             (Ok tt,
              tr1 ++ match get_values formulas with
                     | [] => []
                     | _ :: _ =>
                         [Call (ValuesUpdate spreadsheet_id
                                  (mk_range tab_name
                                     (new_col ++ pretty (row + 1)))
                                  USER_ENTERED (get_values formulas)) copied]
                     end)).
  { destruct (get_values formulas) as [|r rs].
    - exists Done. unfold ret. now rewrite app_nil_r.
    - unfold bind. rewrite exec_request_never_fails by assumption.
      now eexists. }
  destruct Hcopy as (copied & E1).
  rewrite (bind_ok _ _ _ _ _ E1).
  set (tr2 := tr1 ++ _).
  assert (Htr2 : tr2 =
                 tr ++ Call read formulas
                 :: match get_values formulas with
                    | [] => []
                    | _ :: _ =>
                        [Call (ValuesUpdate spreadsheet_id
                                 (mk_range tab_name
                                    (new_col ++ pretty (row + 1)))
                                 USER_ENTERED (get_values formulas)) copied]
                    end).
  { unfold tr2, tr1. now rewrite <- app_assoc. }
  destruct (MASTER_FREEZE_VALUES env).
  - unfold bind at 1. rewrite exec_request_never_fails by assumption.
    set (values := remote tr2 read').
    destruct (get_values values) as [|r rs] eqn:Ev.
    + eexists. split.
      * unfold ret. rewrite Htr2, <- app_assoc. reflexivity.
      * exists formulas, copied, values, Done. now rewrite Ev.
    + unfold bind. rewrite exec_request_never_fails by assumption.
      eexists. split.
      * unfold ret. rewrite Htr2, <- !app_assoc. reflexivity.
      * eexists formulas, copied, values, _. rewrite Ev. reflexivity.
  - eexists. split.
    + unfold ret. rewrite Htr2. reflexivity.
    + exists formulas, copied, Done, Done. now rewrite app_nil_r.
Qed.

Lemma append_transcript (remote : trace -> request -> reply)
  (env : update_env) (spreadsheet_id tab_name last_date_col : string)
  (sheet_id row_count column_count max_rows chunk_size : Z) (tr : trace) :
  never_fails remote ->
  1 < effective_row_count row_count max_rows ->
  exists pro chunks,
    snd (append_prologue remote env spreadsheet_id tab_name sheet_id
           column_count (a1_to_col last_date_col + 1) tr) = tr ++ pro /\
    Update.update_master_tab remote env spreadsheet_id tab_name last_date_col
      sheet_id row_count column_count max_rows chunk_size tr =
    (Ok (col_to_a1 (a1_to_col last_date_col + 1)),
     tr ++ pro ++ concat chunks) /\
    Forall2
      (chunk_events env spreadsheet_id tab_name
         (col_to_a1 (a1_to_col last_date_col))
         (col_to_a1 (a1_to_col last_date_col + 1)))
      (chunk_rows (Z.max 1 chunk_size)
                  (effective_row_count row_count max_rows) 1)
      chunks.
Proof.
  intros Hok Heff. rewrite update_master_tab_chunks by assumption.
  assert (Hpro : exists pro,
             append_prologue remote env spreadsheet_id tab_name sheet_id
               column_count (a1_to_col last_date_col + 1) tr
             = (Ok tt, tr ++ pro)).
  { unfold append_prologue.
    destruct (column_count <? a1_to_col last_date_col + 1).
    - unfold bind. rewrite exec_request_never_fails by assumption.
      unfold ret. rewrite exec_request_never_fails by assumption.
      eexists. now rewrite <- app_assoc.
    - unfold bind, ret. rewrite exec_request_never_fails by assumption.
      now eexists. }
  destruct Hpro as (pro & Epro).
  destruct (for_each_transcript
              (chunk_events env spreadsheet_id tab_name
                 (col_to_a1 (a1_to_col last_date_col))
                 (col_to_a1 (a1_to_col last_date_col + 1)))
              (chunk_rows (Z.max 1 chunk_size)
                          (effective_row_count row_count max_rows) 1)
              (fun se =>
                 Update.copy_chunk remote env spreadsheet_id tab_name
                   (col_to_a1 (a1_to_col last_date_col))
                   (col_to_a1 (a1_to_col last_date_col + 1))
                   (fst se - 1) (snd se)))
    with (tr := tr ++ pro) as (chunks & Echunks & HF).
  { intros [first last] tr'. cbn [fst snd].
    destruct (copy_chunk_transcript remote env spreadsheet_id tab_name
                (col_to_a1 (a1_to_col last_date_col))
                (col_to_a1 (a1_to_col last_date_col + 1))
                (first - 1) last tr' Hok) as (evs & E & HP).
    exists evs. split; [exact E|].
    now replace (first - 1 + 1) with first in HP by lia. }
  exists pro, chunks. rewrite Epro. split; [reflexivity|].
  split; [|exact HF].
  rewrite (bind_ok _ _ _ _ _ Epro).
  rewrite (bind_ok _ _ _ _ _ Echunks).
  unfold ret. now rewrite app_assoc.
Qed.

(** C3. The append copies the data rows chunk after chunk in increasing
    row order: on a tab with data rows it runs the prologue and then
    [copy_chunk] (read, then write) on each range of a tiling of rows 2 to
    the effective row count, a chunk starting only when the one before has
    returned.  When no call fails, the trace is the prologue followed by
    the events of the chunks, one chunk after the other in that order:
    each chunk reads the formulas of its rows in the previous column and
    then writes exactly what it read into the new column from its first
    row on (and, when freezing, reads and rewrites the computed values of
    those rows), before the next chunk reads.  For 50 rows, chunk size 20
    and metadata at column J the ranges are 2-21, 22-41 and 42-50, read
    in that order in column J, and the label returned is K. *)
Theorem append_chunks_in_row_order (remote : trace -> request -> reply)
  (env : update_env) :
  (forall (spreadsheet_id tab_name last_date_col : string)
          (sheet_id row_count column_count max_rows chunk_size : Z),
      1 < effective_row_count row_count max_rows ->
      tiles 2 (effective_row_count row_count max_rows)
            (chunk_rows (Z.max 1 chunk_size)
                        (effective_row_count row_count max_rows) 1) ∧
      forall tr,
        Update.update_master_tab remote env spreadsheet_id tab_name
          last_date_col sheet_id row_count column_count max_rows chunk_size tr =
        (append_prologue remote env spreadsheet_id tab_name sheet_id
           column_count (a1_to_col last_date_col + 1) ;;
         for_each
           (chunk_rows (Z.max 1 chunk_size)
                       (effective_row_count row_count max_rows) 1)
           (fun se =>
              Update.copy_chunk remote env spreadsheet_id tab_name
                (col_to_a1 (a1_to_col last_date_col))
                (col_to_a1 (a1_to_col last_date_col + 1))
                (fst se - 1) (snd se)) ;;
         ret (col_to_a1 (a1_to_col last_date_col + 1))) tr) ∧
  (forall (spreadsheet_id tab_name last_date_col : string)
          (sheet_id row_count column_count max_rows chunk_size : Z)
          (tr : trace),
      never_fails remote ->
      1 < effective_row_count row_count max_rows ->
      exists pro chunks,
        snd (append_prologue remote env spreadsheet_id tab_name sheet_id
               column_count (a1_to_col last_date_col + 1) tr) = tr ++ pro ∧
        Update.update_master_tab remote env spreadsheet_id tab_name
          last_date_col sheet_id row_count column_count max_rows chunk_size tr
        = (Ok (col_to_a1 (a1_to_col last_date_col + 1)),
           tr ++ pro ++ concat chunks) ∧
        Forall2
          (chunk_events env spreadsheet_id tab_name
             (col_to_a1 (a1_to_col last_date_col))
             (col_to_a1 (a1_to_col last_date_col + 1)))
          (chunk_rows (Z.max 1 chunk_size)
                      (effective_row_count row_count max_rows) 1)
          chunks) ∧
  (forall (spreadsheet_id : string) (sheet_id max_rows : Z),
      max_rows <= 0 ∨ 50 <= max_rows ->
      (forall tr,
          Update.update_master_tab remote env spreadsheet_id "Prices" "J"
            sheet_id 50 10 max_rows 20 tr =
          (append_prologue remote env spreadsheet_id "Prices" sheet_id 10 11 ;;
           for_each [(2, 21); (22, 41); (42, 50)]
             (fun se =>
                Update.copy_chunk remote env spreadsheet_id "Prices" "J" "K"
                  (fst se - 1) (snd se)) ;;
           ret "K"%string) tr) ∧
      (never_fails remote ->
       forall tr, exists evs,
         Update.update_master_tab remote env spreadsheet_id "Prices" "J"
           sheet_id 50 10 max_rows 20 tr = (Ok "K"%string, tr ++ evs) ∧
         formula_reads evs =
         [mk_range "Prices" "J2:J21"; mk_range "Prices" "J22:J41";
          mk_range "Prices" "J42:J50"]) ∧
      (never_fails remote ->
       forall tr, exists pro c1 c2 c3,
         Update.update_master_tab remote env spreadsheet_id "Prices" "J"
           sheet_id 50 10 max_rows 20 tr
         = (Ok "K"%string, tr ++ pro ++ c1 ++ c2 ++ c3) ∧
         snd (append_prologue remote env spreadsheet_id "Prices" sheet_id
                10 11 tr) = tr ++ pro ∧
         chunk_events env spreadsheet_id "Prices" "J" "K" (2, 21) c1 ∧
         chunk_events env spreadsheet_id "Prices" "J" "K" (22, 41) c2 ∧
         chunk_events env spreadsheet_id "Prices" "J" "K" (42, 50) c3)).
Proof.
  split; [|split].
  - intros sid tab last sheet_id row_count column_count max_rows chunk_size
           Heff.
    split; [|intros tr; now apply update_master_tab_chunks].
    apply (chunk_rows_tiles (Z.max 1 chunk_size) _ 1); lia.
  - intros sid tab last sheet_id row_count column_count max_rows chunk_size
           tr Hok Heff.
    now apply append_transcript.
  - intros sid sheet_id max_rows Hmax.
    assert (Heff : effective_row_count 50 max_rows = 50)
      by (apply effective_row_count_unbounded; lia).
    split; [|split].
    + intros tr. rewrite update_master_tab_chunks by (rewrite Heff; lia).
      rewrite Heff. reflexivity.
    + intros Hok tr.
      destruct (update_master_tab_yields remote Hok env sid "Prices" "J"
                  sheet_id 50 10 max_rows 20 ltac:(rewrite Heff; lia) tr)
        as (new & evs & E & -> & R).
      exists evs. split; [exact E|].
      unfold formula_reads. rewrite R, Heff. reflexivity.
    + intros Hok tr.
      destruct (append_transcript remote env sid "Prices" "J" sheet_id 50 10
                  max_rows 20 tr Hok ltac:(rewrite Heff; lia))
        as (pro & chunks & Epro & E & HF).
      rewrite Heff in HF.
      change (chunk_rows (Z.max 1 20) 50 1)
        with [(2, 21); (22, 41); (42, 50)] in HF.
      inversion HF as [|? c1 ? l1 H1 HF1]; subst.
      inversion HF1 as [|? c2 ? l2 H2 HF2]; subst.
      inversion HF2 as [|? c3 ? l3 H3 HF3]; subst.
      inversion HF3; subst.
      exists pro, c1, c2, c3. simpl in E. rewrite app_nil_r in E.
      repeat split; assumption.
Qed.

Lemma sample_grid_never_fails : never_fails sample_grid.
Proof. intros tr req e. destruct req; discriminate. Qed.

Lemma append_chunks_in_row_order_witness :
  (exists evs,
      Update.update_master_tab sample_grid sample_update_env "ledger" "Prices"
        "J" 7 50 10 5000 20 [] = (Ok "K"%string, [] ++ evs) ∧
      formula_reads evs =
      [mk_range "Prices" "J2:J21"; mk_range "Prices" "J22:J41";
       mk_range "Prices" "J42:J50"]) ∧
  (exists pro c1 c2 c3,
      Update.update_master_tab sample_grid sample_update_env "ledger" "Prices"
        "J" 7 50 10 5000 20 []
      = (Ok "K"%string, [] ++ pro ++ c1 ++ c2 ++ c3) ∧
      snd (append_prologue sample_grid sample_update_env "ledger" "Prices" 7
             10 11 []) = [] ++ pro ∧
      chunk_events sample_update_env "ledger" "Prices" "J" "K" (2, 21) c1 ∧
      chunk_events sample_update_env "ledger" "Prices" "J" "K" (22, 41) c2 ∧
      chunk_events sample_update_env "ledger" "Prices" "J" "K" (42, 50) c3).
Proof.
  destruct (append_chunks_in_row_order sample_grid sample_update_env)
    as (_ & _ & H).
  destruct (H "ledger"%string 7 5000 ltac:(lia)) as (_ & H2 & H3).
  split.
  - exact (H2 sample_grid_never_fails []).
  - exact (H3 sample_grid_never_fails []).
Defined.

(** C6. On a tab with data rows the append returns the label of the
    column after the one the metadata names ("C" gives "D", "Z" gives
    "AA"); when that column lies beyond the declared column count, the
    first request of the append is the structural update that sets the
    column count to exactly the new index, so it precedes every write,
    and it is the only structural update; otherwise there is none. *)
Theorem append_returns_next_column (remote : trace -> request -> reply)
  (env : update_env) (spreadsheet_id tab_name last_date_col : string)
  (sheet_id row_count column_count max_rows chunk_size : Z) :
  1 < effective_row_count row_count max_rows ->
  let new_col_index := a1_to_col last_date_col + 1 in
  let append :=
    Update.update_master_tab remote env spreadsheet_id tab_name last_date_col
      sheet_id row_count column_count max_rows chunk_size in
  let resize := UpdateColumnCount spreadsheet_id sheet_id new_col_index in
  (forall tr new_col tr',
      append tr = (Ok new_col, tr') -> new_col = col_to_a1 new_col_index) ∧
  (never_fails remote ->
   forall tr, exists tr', append tr = (Ok (col_to_a1 new_col_index), tr')) ∧
  (column_count < new_col_index ->
   forall tr, exists rest,
     snd (append tr) = tr ++ Call resize (remote tr resize) :: rest ∧
     Forall (fun ev => is_resize ev = false) rest) ∧
  (new_col_index <= column_count ->
   emits_only (fun ev => is_resize ev = false) append) ∧
  col_to_a1 (a1_to_col "C" + 1) = "D"%string ∧
  col_to_a1 (a1_to_col "Z" + 1) = "AA"%string.
Proof.
  intros Heff new_col_index append resize.
  assert (Hnf : forall tr,
             append tr =
             (append_prologue remote env spreadsheet_id tab_name sheet_id
                column_count new_col_index ;;
              for_each
                (chunk_rows (Z.max 1 chunk_size)
                            (effective_row_count row_count max_rows) 1)
                (fun se =>
                   Update.copy_chunk remote env spreadsheet_id tab_name
                     (col_to_a1 (a1_to_col last_date_col))
                     (col_to_a1 new_col_index) (fst se - 1) (snd se)) ;;
              ret (col_to_a1 new_col_index)) tr)
    by (intros tr; now apply update_master_tab_chunks).
  repeat split.
  - intros tr new_col tr' E. rewrite Hnf in E. unfold bind, ret in E.
    destruct (append_prologue _ _ _ _ _ _ _ tr) as [[[]|e] tr1];
      [|discriminate].
    destruct (for_each _ _ tr1) as [[[]|e] tr2]; [|discriminate].
    now inversion E.
  - intros Hok tr.
    destruct (update_master_tab_yields remote Hok env spreadsheet_id tab_name
                last_date_col sheet_id row_count column_count max_rows
                chunk_size Heff tr) as (new & evs & E & -> & _).
    now exists (tr ++ evs).
  - intros Hgrow tr. rewrite Hnf. unfold append_prologue.
    apply Z.ltb_lt in Hgrow. rewrite Hgrow. rewrite !bind_assoc.
    apply exec_request_first. intros _.
    apply emits_only_weaken with (P := on_tab spreadsheet_id tab_name);
      [apply on_tab_not_resize|].
    repeat (apply emits_only_bind; [|intros ?]);
      first [ apply emits_only_ret | apply append_chunks_on_tab
            | apply emits_only_exec; simpl; auto ].
  - intros Hfit.
    assert (E : (column_count <? new_col_index) = false)
      by (apply Z.ltb_ge; lia).
    intros tr. rewrite Hnf. revert tr.
    apply emits_only_weaken with (P := on_tab spreadsheet_id tab_name);
      [apply on_tab_not_resize|].
    unfold append_prologue. rewrite E.
    repeat (apply emits_only_bind; [|intros ?]);
      first [ apply emits_only_ret | apply append_chunks_on_tab
            | apply emits_only_exec; simpl; auto ].
Qed.

Lemma append_returns_next_column_witness :
  exists tr',
    Update.update_master_tab sample_grid sample_update_env "ledger" "Prices"
      "Z" 7 50 26 5000 20 [] = (Ok "AA"%string, tr').
Proof.
  destruct (append_returns_next_column sample_grid sample_update_env
              "ledger" "Prices" "Z" 7 50 26 5000 20 ltac:(vm_compute; reflexivity))
    as (_ & H & _).
  exact (H sample_grid_never_fails []).
Defined.

(** ** The freeze engine *)

Section FreezeChunks.
Variable remote : trace -> request -> reply.

Lemma a1_to_col_empty : a1_to_col EmptyString = 0.
Proof. reflexivity. Qed.

(** A tab that is not skipped: the chunks of [chunk_rows] in order
    through [freeze_column_values]. *)
Lemma freeze_tab_chunks (cfg : config) (props : sheet_props)
  (sheet_props : gmap string sheet_props) (meta_map : gmap string string)
  (tab_name last_col : string) (tr : trace) :
  sheet_props !! tab_name = Some props ->
  meta_map !! tab_name = Some last_col ->
  2 <= a1_to_col last_col ->
  1 < effective_row_count (rowCount props) (master_max_rows cfg) ->
  Freeze.freeze_tab remote cfg sheet_props meta_map tab_name tr =
  for_each
    (chunk_rows (Z.max 1 (master_freeze_chunk_size cfg))
       (effective_row_count (rowCount props) (master_max_rows cfg)) 1)
    (fun se =>
       Freeze.freeze_column_values remote (target_sheet_id cfg)
         (sheetId props) (a1_to_col last_col - 2) (fst se - 1) (snd se))
    tr.
Proof.
  intros Hprops Hmeta Hcol Heff. unfold Freeze.freeze_tab.
  rewrite Hprops, Hmeta.
  destruct last_col as [|c rest]; [rewrite a1_to_col_empty in Hcol; lia|].
  destruct (a1_to_col (String c rest) - 1 <? 1) eqn:E1;
    [apply Z.ltb_lt in E1; lia|].
  destruct (effective_row_count (rowCount props) (master_max_rows cfg) <=? 1)
    eqn:E2; [apply Z.leb_le in E2; lia|].
  rewrite chunk_loop_for_each.
  replace (a1_to_col (String c rest) - 1 - 1)
    with (a1_to_col (String c rest) - 2) by lia.
  reflexivity.
Qed.

Lemma freeze_column_values_yields (remote_ok : never_fails remote)
  (spreadsheet_id : string)
  (sheet_id col_index_zero start_row_index end_row_index : Z) :
  yields pasted_span (fun _ => True) [(start_row_index, end_row_index)]
    (Freeze.freeze_column_values remote spreadsheet_id sheet_id
       col_index_zero start_row_index end_row_index).
Proof.
  unfold Freeze.freeze_column_values.
  eapply yields_bind_l with (Q1 := fun _ => True);
    [apply yields_exec; [assumption | reflexivity] |].
  intros; now apply yields_ret.
Qed.
End FreezeChunks.

(** C9. For an effective row count of at least 2 and any configured chunk
    size, the chunks of both loops tile the data rows 2 to the effective
    row count: contiguous, ascending ranges in which every data row lies
    exactly once and no other row at all; a chunk size of zero or less
    gives chunks of one row.  Both loops end: the append visits exactly
    these chunks through [copy_chunk], the freeze through
    [freeze_column_values], and with an environment that answers both
    return. *)
Theorem chunk_loops_tile_data_rows (chunk_size effective_rows : Z) :
  2 <= effective_rows ->
  let chunks := chunk_rows (Z.max 1 chunk_size) effective_rows 1 in
  tiles 2 effective_rows chunks ∧
  (forall r, covering r chunks =
             if (2 <=? r) && (r <=? effective_rows) then 1%nat else 0%nat) ∧
  (chunk_size <= 0 -> forall se, In se chunks -> fst se = snd se) ∧
  (forall remote env spreadsheet_id tab_name last_date_col
          sheet_id row_count column_count max_rows,
      effective_row_count row_count max_rows = effective_rows ->
      (forall tr,
          Update.update_master_tab remote env spreadsheet_id tab_name
            last_date_col sheet_id row_count column_count max_rows
            chunk_size tr =
          (append_prologue remote env spreadsheet_id tab_name sheet_id
             column_count (a1_to_col last_date_col + 1) ;;
           for_each chunks
             (fun se =>
                Update.copy_chunk remote env spreadsheet_id tab_name
                  (col_to_a1 (a1_to_col last_date_col))
                  (col_to_a1 (a1_to_col last_date_col + 1))
                  (fst se - 1) (snd se)) ;;
           ret (col_to_a1 (a1_to_col last_date_col + 1))) tr) ∧
      (never_fails remote ->
       forall tr, exists evs,
         Update.update_master_tab remote env spreadsheet_id tab_name
           last_date_col sheet_id row_count column_count max_rows
           chunk_size tr =
         (Ok (col_to_a1 (a1_to_col last_date_col + 1)), tr ++ evs) ∧
         formula_reads evs =
         map (fun se =>
                mk_range tab_name
                  (col_to_a1 (a1_to_col last_date_col) ++ pretty (fst se)
                   ++ ":" ++ col_to_a1 (a1_to_col last_date_col)
                   ++ pretty (snd se)))
             chunks)) ∧
  (forall remote cfg (props : sheet_props) (props_map : gmap string sheet_props)
          (meta_map : gmap string string) tab_name last_col,
      props_map !! tab_name = Some props ->
      meta_map !! tab_name = Some last_col ->
      2 <= a1_to_col last_col ->
      effective_row_count (rowCount props) (master_max_rows cfg)
      = effective_rows ->
      master_freeze_chunk_size cfg = chunk_size ->
      (forall tr,
          Freeze.freeze_tab remote cfg props_map meta_map tab_name tr =
          for_each chunks
            (fun se =>
               Freeze.freeze_column_values remote (target_sheet_id cfg)
                 (sheetId props) (a1_to_col last_col - 2)
                 (fst se - 1) (snd se)) tr) ∧
      (never_fails remote ->
       forall tr, exists evs,
         Freeze.freeze_tab remote cfg props_map meta_map tab_name tr =
         (Ok tt, tr ++ evs) ∧
         pasted_rows evs = map (fun se => (fst se - 1, snd se)) chunks)).
Proof.
  intros Heff chunks.
  assert (Ht : tiles 2 effective_rows chunks)
    by (apply (chunk_rows_tiles (Z.max 1 chunk_size) _ 1); lia).
  split; [exact Ht|]. split; [intros r; now apply tiles_covering|].
  split; [|split].
  - intros Hneg se. unfold chunks. rewrite Z.max_l by lia.
    apply chunk_rows_single.
  - intros remote env sid tab last sheet_id row_count column_count max_rows
           <-.
    split.
    + intros tr. apply update_master_tab_chunks. lia.
    + intros Hok tr.
      destruct (update_master_tab_yields remote Hok env sid tab last
                  sheet_id row_count column_count max_rows chunk_size
                  ltac:(lia) tr) as (new & evs & E & -> & R).
      exists evs. split; assumption.
  - intros remote cfg props props_map meta_map tab last Hp Hm Hcol <- <-.
    split.
    + intros tr. apply freeze_tab_chunks; auto. lia.
    + intros Hok tr.
      rewrite (freeze_tab_chunks remote cfg props props_map meta_map tab last)
        by (auto; lia).
      fold chunks. revert tr.
      assert (Hy : yields pasted_span (fun _ : unit => True)
                     (map (fun se => (fst se - 1, snd se)) chunks)
                     (for_each chunks
                        (fun se =>
                           Freeze.freeze_column_values remote
                             (target_sheet_id cfg) (sheetId props)
                             (a1_to_col last - 2) (fst se - 1) (snd se)))).
      { rewrite map_as_flat_map. apply yields_for_each. intros se.
        now apply freeze_column_values_yields. }
      intros tr. destruct (Hy tr) as ([] & evs & E & _ & R).
      exists evs. split; assumption.
Qed.

Lemma chunk_loops_tile_data_rows_witness :
  chunk_rows (Z.max 1 (-5)) 4 1 = [(2, 2); (3, 3); (4, 4)] ∧
  tiles 2 4 (chunk_rows (Z.max 1 (-5)) 4 1).
Proof.
  split; [reflexivity|].
  apply (proj1 (chunk_loops_tile_data_rows (-5) 4 ltac:(lia))).
Defined.

(** ** A label that names no column *)

(** The freeze job skips a tab whose metadata leaves no column to the
    left of the one it names: one progress line and no request. *)
Lemma freeze_skips_invalid_previous_column
  (remote : trace -> request -> reply) (cfg : config) (props : sheet_props)
  (props_map : gmap string sheet_props) (meta_map : gmap string string)
  (tab_name last_col : string) (tr : trace) :
  props_map !! tab_name = Some props ->
  meta_map !! tab_name = Some last_col ->
  last_col <> EmptyString ->
  a1_to_col last_col <= 1 ->
  Freeze.freeze_tab remote cfg props_map meta_map tab_name tr =
  (Ok tt, tr ++ [Print (SkipInvalidPrevColumn tab_name last_col)]).
Proof.
  intros Hp Hm Hne Hcol. unfold Freeze.freeze_tab. rewrite Hp, Hm.
  destruct last_col as [|c rest]; [congruence|].
  destruct (a1_to_col (String c rest) - 1 <? 1) eqn:E;
    [reflexivity | apply Z.ltb_ge in E; lia].
Qed.

(** C2. The label "1" parses to column index 0.  The freeze job would skip
    such a tab, but the append does not: on a ledger tab of three rows it
    returns normally with label "A" after writing the header into A1,
    reading the range "2:3", which names no column, and writing what it
    read into A2 and into "2". *)
Theorem append_runs_on_invalid_previous_column :
  a1_to_col "1" = 0 ∧
  Update.update_master_tab sample_grid sample_update_env "ledger" "Prices" "1"
    7 3 5 5000 500 [] =
  (Ok "A"%string,
   [Call (ValuesUpdate "ledger" (mk_range "Prices" "A1") RAW [["2024-12-02"%string]])
         Done;
    Call (ValuesGet "ledger" (mk_range "Prices" "2:3") (Some FORMULA))
         (Values [["=B2*2"%string]]);
    Call (ValuesUpdate "ledger" (mk_range "Prices" "A2") USER_ENTERED
            [["=B2*2"%string]]) Done;
    Call (ValuesGet "ledger" (mk_range "Prices" "2:3") (Some UNFORMATTED_VALUE))
         (Values [["=B2*2"%string]]);
    Call (ValuesUpdate "ledger" (mk_range "Prices" "2") RAW [["=B2*2"%string]])
         Done]).
Proof. split; vm_compute; reflexivity. Qed.

(** ** Exit codes *)

Section UpdateMain.
Variable remote : trace -> request -> reply.
Variable env : update_env.
Variable cfg : config.

(** A run that returns: exit code 0 at the first attempt. *)
Lemma update_main_success (tr' : trace) :
  Update.run_update remote env cfg [] = (Ok tt, tr') ->
  Update.main remote env cfg = (0, tr').
Proof.
  intros H. unfold Update.main. simpl. now rewrite H.
Qed.

(** A missing tab or missing metadata: exit code 2 after one attempt,
    with no pause and no second run. *)
Lemma update_main_config_error (msg : string) (tr' : trace) :
  Update.run_update remote env cfg [] = (Raise (TabMissingError msg), tr') ->
  Update.main remote env cfg =
  (2, tr' ++ [Print (FailLine (TabMissingError msg))]).
Proof.
  intros H. unfold Update.main. simpl. now rewrite H.
Qed.
End UpdateMain.

(** C5. The freeze job does not tell a configuration error from a
    transient one.  With a ledger that has no tab "Prices", [run_freeze]
    raises "Master tab not found: Prices", and [main] runs it three times,
    pausing 120 seconds twice, before it exits with the generic code 1;
    the update job on the same ledger exits with code 2 after one
    attempt. *)
Theorem freeze_main_retries_missing_tab :
  Freeze.main sample_grid sample_freeze_env sample_config =
  (1, failed_freeze_attempt 1 ++ [Sleep 120]
      ++ failed_freeze_attempt 2 ++ [Sleep 120]
      ++ failed_freeze_attempt 3) ∧
  Update.main sample_grid master_only_env sample_config =
  (2, [Call (DriveListRecursive "drive") (Files []);
       Call (SpreadsheetsGet "ledger") (Sheets []);
       Call (ValuesGet "ledger" (mk_range "Master_Meta" "B2")
               (Some UNFORMATTED_VALUE)) (Values [["=B2*2"%string]]);
       Print (FailLine (TabMissingError "Master tab not found: Prices"))]).
Proof. split; vm_compute; reflexivity. Qed.

(** The freeze job has two exit codes only. *)
Lemma freeze_main_exit_codes (remote : trace -> request -> reply)
  (env : freeze_env) (cfg : config) :
  fst (Freeze.main remote env cfg) = 0 \/ fst (Freeze.main remote env cfg) = 1.
Proof.
  unfold Freeze.main. generalize (@nil event) as tr.
  induction Freeze.attempts as [|attempt rest IH]; intros tr; simpl.
  - now right.
  - destruct (Freeze.run_freeze remote env cfg tr) as [[[]|e] tr'].
    + now left.
    + destruct (attempt <? RETRY_COUNT); [apply IH | now right].
Qed.

(** ** Where failures go *)

Lemma swallowed_app (absorbed : request -> remote_error -> event -> Prop)
  (req : request) (e : remote_error) (after more : list event) :
  swallowed absorbed req e after -> swallowed absorbed req e (after ++ more).
Proof.
  intros (next & rest & -> & H). exists next, (rest ++ more). auto.
Qed.

(** After a stretch that returned, the faults of what follows decide. *)
Lemma faults_ok_app (absorbed : request -> remote_error -> event -> Prop)
  (evs1 evs2 : list event) (r : option exn) :
  faults_ok absorbed evs1 None -> faults_ok absorbed evs2 r ->
  faults_ok absorbed (evs1 ++ evs2) r.
Proof.
  induction evs1 as [|ev evs1 IH]; simpl; intros H1 H2; [exact H2|].
  destruct ev as [req rep|d|s]; try (apply IH; assumption).
  destruct rep as [| | | |e]; try (apply IH; assumption).
  destruct H1 as [[[_ Hr] | Hsw] H1]; [discriminate|].
  split; [right; now apply swallowed_app | now apply IH].
Qed.

(** The reading of [faults_ok] event by event. *)
Lemma faults_ok_at (absorbed : request -> remote_error -> event -> Prop)
  (evs : list event) (r : option exn) :
  faults_ok absorbed evs r ->
  forall before req e after,
    evs = before ++ Call req (Failed e) :: after ->
    (after = [] /\ r = Some (exn_of_remote e))
    \/ swallowed absorbed req e after.
Proof.
  intros H before. revert evs H.
  induction before as [|ev before IH]; intros evs H req e after ->;
    simpl in H.
  - tauto.
  - apply (IH (before ++ Call req (Failed e) :: after)); [|reflexivity].
    destruct ev as [req' rep'|d|s]; try assumption.
    destruct rep' as [| | | |e']; try assumption. tauto.
Qed.

Section Propagation.
Variable remote : trace -> request -> reply.
Variable absorbed : request -> remote_error -> event -> Prop.

Lemma propagate_ret {A} (a : A) : failures_propagate absorbed (ret a).
Proof. intros tr. exists []. simpl. now rewrite app_nil_r. Qed.

Lemma propagate_raise {A} (e : exn) : failures_propagate absorbed (@raise A e).
Proof. intros tr. exists []. simpl. now rewrite app_nil_r. Qed.

Lemma propagate_lift {A} (o : outcome A) : failures_propagate absorbed (lift o).
Proof. intros tr. exists []. simpl. now rewrite app_nil_r. Qed.

Lemma propagate_print (d : diag) : failures_propagate absorbed (print d).
Proof. intros tr. exists [Print d]. simpl. auto. Qed.

Lemma propagate_exec (req : request) :
  failures_propagate absorbed (exec_request remote req).
Proof.
  intros tr. exists [Call req (remote tr req)]. unfold exec_request. simpl.
  split; [reflexivity|]. destruct (remote tr req); simpl; auto.
Qed.

Lemma propagate_bind {A B} (m : M A) (k : A -> M B) :
  failures_propagate absorbed m -> (forall a, failures_propagate absorbed (k a)) ->
  failures_propagate absorbed (bind m k).
Proof.
  intros Hm Hk tr. unfold bind.
  destruct (Hm tr) as (evs1 & E1 & F1).
  destruct (m tr) as [[a|e] tr1]; simpl in E1, F1; subst tr1.
  - destruct (Hk a (tr ++ evs1)) as (evs2 & E2 & F2).
    exists (evs1 ++ evs2). rewrite E2, app_assoc.
    split; [reflexivity | now apply faults_ok_app].
  - now exists evs1.
Qed.

Lemma propagate_for_each {A} (l : list A) (body : A -> M unit) :
  (forall x, failures_propagate absorbed (body x)) ->
  failures_propagate absorbed (for_each l body).
Proof.
  intros Hbody. induction l as [|x l IH]; simpl.
  - apply propagate_ret.
  - apply propagate_bind; [apply Hbody | intros _; apply IH].
Qed.

Lemma propagate_chunk_loop (chunk : Z) (chunk_pos : 1 <= chunk)
  (end_row : Z) (body : Z -> Z -> M unit) (row : Z) :
  (forall r e, failures_propagate absorbed (body r e)) ->
  failures_propagate absorbed (chunk_loop chunk chunk_pos end_row body row).
Proof.
  intros Hbody tr. rewrite chunk_loop_for_each.
  apply propagate_for_each. intros se. apply Hbody.
Qed.
End Propagation.

Ltac propagate :=
  repeat first
    [ apply propagate_ret | apply propagate_raise | apply propagate_lift
    | apply propagate_print | apply propagate_exec
    | apply propagate_bind; [|intros ?]
    | apply propagate_for_each; intros ?
    | apply propagate_chunk_loop; intros ? ? ].

Section SharedPropagates.
Variable remote : trace -> request -> reply.
Variable absorbed : request -> remote_error -> event -> Prop.

Lemma propagate_get_sheet_properties_map (spreadsheet_id : string) :
  failures_propagate absorbed (get_sheet_properties_map remote spreadsheet_id).
Proof. unfold get_sheet_properties_map. propagate. Qed.

Lemma propagate_get_master_meta_from_rows (spreadsheet_id meta_sheet : string)
  (meta_rows : list (string * Z)) :
  forall result,
    failures_propagate absorbed
      (get_master_meta_from_rows remote spreadsheet_id meta_sheet meta_rows
         result).
Proof.
  induction meta_rows as [|[tab row_idx] rest IH]; intros result; simpl.
  - propagate.
  - propagate. apply IH.
Qed.

End SharedPropagates.

Section UpdatePropagates.
Variable remote : trace -> request -> reply.
Variable env : update_env.
Variable cfg : config.

Lemma propagate_get_master_meta_map
  (spreadsheet_id meta_sheet meta_range : string)
  (meta_rows : list (string * Z)) :
  failures_propagate (skipped_read cfg)
    (Update.get_master_meta_map remote spreadsheet_id meta_sheet meta_range
       meta_rows).
Proof.
  unfold Update.get_master_meta_map. destruct meta_rows.
  - propagate.
  - apply propagate_get_master_meta_from_rows.
Qed.

Lemma propagate_update_meta_scan
  (spreadsheet_id meta_sheet tab_name new_col : string) (table : rows) :
  forall idx,
    failures_propagate (skipped_read cfg)
      (Update.update_meta_scan remote spreadsheet_id meta_sheet tab_name
         new_col table idx).
Proof.
  induction table as [|row rest IH]; intros idx; simpl.
  - propagate.
  - destruct row as [|c0 cs]; [apply IH|].
    destruct (String.eqb (strip c0) tab_name); [propagate | apply IH].
Qed.

Lemma propagate_update_master_meta
  (spreadsheet_id meta_sheet meta_range : string)
  (meta_rows : list (string * Z)) (tab_name new_col : string) :
  failures_propagate (skipped_read cfg)
    (Update.update_master_meta remote spreadsheet_id meta_sheet meta_range
       meta_rows tab_name new_col).
Proof.
  unfold Update.update_master_meta.
  destruct (dict_get tab_name meta_rows); propagate.
  apply propagate_update_meta_scan.
Qed.

Lemma propagate_copy_chunk
  (spreadsheet_id tab_name prev_col_letter new_col_letter : string)
  (row chunk_end : Z) :
  failures_propagate (skipped_read cfg)
    (Update.copy_chunk remote env spreadsheet_id tab_name prev_col_letter
       new_col_letter row chunk_end).
Proof.
  unfold Update.copy_chunk. propagate.
  - destruct (get_values _); propagate.
  - destruct (MASTER_FREEZE_VALUES env); propagate.
    destruct (get_values _); propagate.
Qed.

Lemma propagate_update_master_tab
  (spreadsheet_id tab_name last_date_col : string)
  (sheet_id row_count column_count max_rows chunk_size : Z) :
  failures_propagate (skipped_read cfg)
    (Update.update_master_tab remote env spreadsheet_id tab_name
       last_date_col sheet_id row_count column_count max_rows chunk_size).
Proof.
  unfold Update.update_master_tab.
  destruct (effective_row_count row_count max_rows <=? 1); [propagate|].
  apply propagate_bind; [destruct (column_count <? _); propagate|].
  intros _. apply propagate_bind; [propagate|].
  intros _. apply propagate_bind; [|intros; propagate].
  apply propagate_chunk_loop. intros r e. apply propagate_copy_chunk.
Qed.

(** The guarded read of the source: an [HttpError] becomes a [SKIP]
    line and [None], anything else goes on. *)
Lemma propagate_guarded_read (source_id prefix : string) :
  failures_propagate (skipped_read cfg)
    (try_except
       (let* values := Update.read_source_values remote source_id
            (source_sheet_name cfg) (source_range cfg) in
        ret (Some values))
       (fun exc =>
          match exc with
          | HttpError _ =>
              Some (print (SkipReadFailed prefix exc) ;; ret None)
          | _ => None
          end)).
Proof.
  intros tr.
  unfold try_except, Update.read_source_values, bind, exec_request, ret,
    print, emit.
  destruct (remote tr _) as [| | | |[status|]] eqn:E; simpl;
    try (eexists [_]; simpl; split; [reflexivity | exact I]).
  - eexists [_; _]. simpl. rewrite <- app_assoc. split; [reflexivity|].
    simpl. split; [|exact I]. right.
    eexists _, []. split; [reflexivity|].
    exists source_id, status, prefix. auto.
  - eexists [_]. simpl. split; [reflexivity|]. simpl. auto.
Qed.

Lemma propagate_extract_mapping (files : list file_info)
  (props_map : gmap string sheet_props) (mapping : mapping) :
  failures_propagate (skipped_read cfg)
    (Update.extract_mapping remote cfg files props_map mapping).
Proof.
  unfold Update.extract_mapping.
  destruct (props_map !! m_target_tab mapping); [|propagate].
  apply propagate_bind; [propagate|]. intros [latest_file|]; [|propagate].
  apply propagate_bind; [apply propagate_guarded_read|].
  intros [values|]; [|propagate].
  unfold Update.clear_target_range, Update.write_target_values.
  propagate. destruct values; propagate.
Qed.

Lemma propagate_master_tab (props_map : gmap string sheet_props)
  (master_meta : gmap string string) (tab_name : string) :
  failures_propagate (skipped_read cfg)
    (Update.master_tab remote env cfg props_map master_meta tab_name).
Proof.
  unfold Update.master_tab.
  destruct (nonempty _ && negb _); [propagate|].
  destruct (props_map !! tab_name); [|propagate].
  destruct (master_meta !! tab_name) as [[|c0 s0]|]; try solve [propagate].
  apply propagate_bind; [apply propagate_update_master_tab|].
  intros new_col. destruct (negb _); [|propagate].
  apply propagate_update_master_meta.
Qed.

Lemma propagate_run_update :
  failures_propagate (skipped_read cfg) (Update.run_update remote env cfg).
Proof.
  unfold Update.run_update, Update.list_spreadsheets_recursive.
  apply propagate_bind; [propagate|]. intros files.
  apply propagate_bind; [apply propagate_get_sheet_properties_map|].
  intros props_map.
  apply propagate_bind.
  { destruct (Update.run_mode_in env "both" "master"); [|propagate].
    destruct (decide _); [apply propagate_get_master_meta_map | propagate]. }
  intros master_meta.
  apply propagate_bind.
  { destruct (Update.run_mode_in env "both" "extract"); [|propagate].
    apply propagate_for_each. intros m. apply propagate_extract_mapping. }
  intros _.
  destruct (Update.run_mode_in env "both" "master"); [|propagate].
  apply propagate_for_each. intros t. apply propagate_master_tab.
Qed.
End UpdatePropagates.

Section FreezePropagates.
Variable remote : trace -> request -> reply.
Variable env : freeze_env.
Variable cfg : config.

Lemma propagate_freeze_tab (props_map : gmap string sheet_props)
  (meta_map : gmap string string) (tab_name : string) :
  failures_propagate nothing_skipped
    (Freeze.freeze_tab remote cfg props_map meta_map tab_name).
Proof.
  unfold Freeze.freeze_tab.
  destruct (props_map !! tab_name); [|propagate].
  destruct (meta_map !! tab_name) as [[|c0 s0]|]; try solve [propagate].
  destruct (_ <? 1); [propagate|].
  destruct (_ <=? 1); [propagate|].
  apply propagate_chunk_loop. intros r e.
  unfold Freeze.freeze_column_values. propagate.
Qed.

Lemma propagate_run_freeze :
  failures_propagate nothing_skipped (Freeze.run_freeze remote env cfg).
Proof.
  unfold Freeze.run_freeze.
  destruct (master_meta_rows cfg) as [|row0 rows0] eqn:Erows; [propagate|].
  apply propagate_bind; [apply propagate_get_sheet_properties_map|].
  intros props_map. apply propagate_bind.
  - destruct (nonempty (FREEZE_LAST_COL env)).
    + destruct (if nonempty (FREEZE_ONLY_TAB env) then _ else _)
        as [|t [|t' ts]]; propagate.
    + destruct (nonempty (FREEZE_ONLY_TAB env)).
      * destruct (dict_get _ _); [|propagate].
        apply propagate_get_master_meta_from_rows.
      * apply propagate_get_master_meta_from_rows.
  - intros meta_map. apply propagate_for_each. intros t.
    apply propagate_freeze_tab.
Qed.
End FreezePropagates.

(** ** The guarded read always catches *)

Lemma reads_caught_app (a b : list event) :
  reads_caught a -> reads_caught b -> reads_caught (a ++ b).
Proof.
  intros Ha Hb. induction a as [|ev a IH]; [exact Hb|].
  destruct ev as [[?|?|? ? render|? ? ? ?|? ?|? ? ?|? ? ? ? ? ?] rep|d|seconds]; simpl in *; try (now apply IH).
  destruct render as [o|]; [now apply IH|].
  destruct rep as [| | | |[status|]]; try (now apply IH).
  destruct Ha as [(prefix & rest & ->) Ha]. split; [|now apply IH].
  now exists prefix, (rest ++ b).
Qed.

Lemma reads_caught_at (evs : list event) :
  reads_caught evs ->
  forall before source_id rng status after,
    evs = before
          ++ Call (ValuesGet source_id rng None)
                  (Failed (RemoteHttpError status)) :: after ->
    exists prefix rest,
      after = Print (SkipReadFailed prefix (HttpError status)) :: rest.
Proof.
  intros H before. revert evs H.
  induction before as [|ev before IH]; intros evs H sid rng status after ->.
  - simpl in H. now destruct H.
  - refine (IH _ _ sid rng status after eq_refl).
    change (reads_caught
              (ev :: before
                     ++ Call (ValuesGet sid rng None)
                             (Failed (RemoteHttpError status)) :: after)) in H.
    destruct ev as [[?|?|? ? render|? ? ? ?|? ?|? ? ?|? ? ? ? ? ?] rep|d|seconds]; simpl in H; try exact H.
    destruct render as [o|]; [exact H|].
    destruct rep as [| | | |[st|]]; try exact H. now destruct H.
Qed.

Lemma quiet_reads_caught (evs : list event) :
  Forall not_source_read evs -> reads_caught evs.
Proof.
  induction 1 as [|ev evs Hev _ IH]; [exact I|].
  destruct ev as [[?|?|? ? render|? ? ? ?|? ?|? ? ?|? ? ? ? ? ?] rep|d|seconds]; simpl in *; try exact IH.
  destruct render; [exact IH | contradiction].
Qed.

Lemma catches_quiet {A} (m : M A) : emits_only not_source_read m -> catches m.
Proof.
  intros H tr. destruct (H tr) as (evs & E & F).
  exists evs. split; [exact E | now apply quiet_reads_caught].
Qed.

Lemma catches_bind {A B} (m : M A) (k : A -> M B) :
  catches m -> (forall a, catches (k a)) -> catches (bind m k).
Proof.
  intros Hm Hk tr. unfold bind.
  destruct (Hm tr) as (evs1 & E1 & F1).
  destruct (m tr) as [[a|e] tr1]; simpl in E1; subst tr1.
  - destruct (Hk a (tr ++ evs1)) as (evs2 & E2 & F2).
    exists (evs1 ++ evs2). rewrite E2, app_assoc.
    split; [reflexivity | now apply reads_caught_app].
  - now exists evs1.
Qed.

Lemma catches_for_each {A} (l : list A) (body : A -> M unit) :
  (forall x, catches (body x)) -> catches (for_each l body).
Proof.
  intros Hbody. induction l as [|x l IH]; simpl.
  - apply catches_quiet, emits_only_ret.
  - apply catches_bind; [apply Hbody | intros _; exact IH].
Qed.

Ltac quiet :=
  repeat first
    [ apply emits_only_ret | apply emits_only_raise | apply emits_only_lift
    | apply emits_only_print; exact I
    | apply emits_only_exec; intros ?; exact I
    | apply emits_only_bind; [|intros ?] ].

Section UpdateCatches.
Variable remote : trace -> request -> reply.
Variable env : update_env.
Variable cfg : config.

Lemma get_master_meta_from_rows_quiet (spreadsheet_id meta_sheet : string)
  (meta_rows : list (string * Z)) :
  forall result,
    emits_only not_source_read
      (get_master_meta_from_rows remote spreadsheet_id meta_sheet meta_rows
         result).
Proof.
  induction meta_rows as [|[tab row_idx] rest IH]; intros result; simpl.
  - quiet.
  - quiet. apply IH.
Qed.

Lemma update_meta_scan_quiet
  (spreadsheet_id meta_sheet tab_name new_col : string) (table : rows) :
  forall idx,
    emits_only not_source_read
      (Update.update_meta_scan remote spreadsheet_id meta_sheet tab_name
         new_col table idx).
Proof.
  induction table as [|row rest IH]; intros idx; simpl; [quiet|].
  destruct row as [|c0 cells]; [apply IH|].
  destruct (String.eqb (strip c0) tab_name); [quiet | apply IH].
Qed.

Lemma master_tab_quiet (props_map : gmap string sheet_props)
  (master_meta : gmap string string) (tab_name : string) :
  emits_only not_source_read
    (Update.master_tab remote env cfg props_map master_meta tab_name).
Proof.
  unfold Update.master_tab.
  destruct (nonempty _ && negb _); [quiet|].
  destruct (props_map !! tab_name); [|quiet].
  destruct (master_meta !! tab_name) as [[|c0 s0]|]; try solve [quiet].
  apply emits_only_bind.
  - unfold Update.update_master_tab.
    destruct (_ <=? 1); [quiet|].
    apply emits_only_bind; [destruct (_ <? _); quiet|]. intros _.
    apply emits_only_bind; [quiet|]. intros _.
    apply emits_only_bind; [|intros; quiet].
    apply emits_only_chunk_loop. intros r e.
    unfold Update.copy_chunk. cbv zeta.
    apply emits_only_bind; [quiet|]. intros response.
    apply emits_only_bind; [destruct (get_values response); quiet|].
    intros _. destruct (MASTER_FREEZE_VALUES env); [|quiet].
    apply emits_only_bind; [quiet|]. intros response'.
    destruct (get_values response'); quiet.
  - intros new_col. destruct (negb _); [|quiet].
    unfold Update.update_master_meta.
    destruct (dict_get _ _); [quiet|].
    apply emits_only_bind; [quiet|]. intros response.
    apply update_meta_scan_quiet.
Qed.

Lemma extract_mapping_catches (files : list file_info)
  (props_map : gmap string sheet_props) (mapping : mapping) :
  catches (Update.extract_mapping remote cfg files props_map mapping).
Proof.
  unfold Update.extract_mapping.
  destruct (props_map !! m_target_tab mapping);
    [|apply catches_quiet; quiet].
  apply catches_bind; [apply catches_quiet; quiet|].
  intros [latest|]; [|apply catches_quiet; quiet].
  apply catches_bind.
  - intros tr.
    unfold try_except, Update.read_source_values, bind, exec_request, ret,
      print, emit.
    destruct (remote tr _) as [| | | |[status|]] eqn:E; simpl;
      try (eexists [_]; simpl; split; [reflexivity | exact I]).
    + eexists [_; _]. simpl. rewrite <- app_assoc. split; [reflexivity|].
      simpl. split; [|exact I]. now eexists _, [].
  - intros [values|]; apply catches_quiet; [|quiet].
    unfold Update.clear_target_range, Update.write_target_values.
    quiet. destruct values; quiet.
Qed.

Lemma run_update_catches : catches (Update.run_update remote env cfg).
Proof.
  unfold Update.run_update, Update.list_spreadsheets_recursive.
  apply catches_bind; [apply catches_quiet; quiet|]. intros files.
  apply catches_bind;
    [apply catches_quiet; unfold get_sheet_properties_map; quiet|].
  intros props_map.
  apply catches_bind.
  { apply catches_quiet.
    destruct (Update.run_mode_in env "both" "master"); [|quiet].
    destruct (decide _); [|quiet].
    unfold Update.get_master_meta_map.
    destruct (master_meta_rows cfg);
      [quiet | apply get_master_meta_from_rows_quiet]. }
  intros master_meta. apply catches_bind.
  { destruct (Update.run_mode_in env "both" "extract");
      [|apply catches_quiet; quiet].
    apply catches_for_each. intros mp. apply extract_mapping_catches. }
  intros _.
  destruct (Update.run_mode_in env "both" "master");
    [|apply catches_quiet; quiet].
  apply catches_for_each. intros tab. apply catches_quiet, master_tab_quiet.
Qed.

(** The step of a mapping whose read of the source fails: an
    [HttpError] leaves the read and the [SKIP] line and the step returns;
    any other failure is raised; neither clears nor writes. *)
Lemma extract_mapping_failed_read (files : list file_info)
  (props_map : gmap string sheet_props) (mapping : mapping)
  (props : sheet_props) (latest : file_info) (tr : trace)
  (e : remote_error) :
  props_map !! m_target_tab mapping = Some props ->
  select_latest_file files (m_prefix mapping) (m_exclude_prefixes mapping)
  = Ok (Some latest) ->
  remote tr (source_read cfg latest) = Failed e ->
  Update.extract_mapping remote cfg files props_map mapping tr =
  match e with
  | RemoteHttpError status =>
      (Ok tt,
       tr ++ [Call (source_read cfg latest) (Failed e);
              Print (SkipReadFailed (m_prefix mapping) (HttpError status))])
  | RemoteTransportError =>
      (Raise TransportError, tr ++ [Call (source_read cfg latest) (Failed e)])
  end.
Proof.
  unfold source_read. intros Hp Hsel Hread. unfold Update.extract_mapping.
  rewrite Hp, Hsel.
  cbv [bind lift try_except Update.read_source_values exec_request].
  rewrite Hread. destruct e as [status|]; simpl.
  - now rewrite <- app_assoc.
  - reflexivity.
Qed.
End UpdateCatches.

(** C8, amended. In a run of the update job a failed remote
    call is either the last event of the run, which then ends with that
    very exception, or the read of a source dataset's values failing with
    an [HttpError], which is followed by its [SKIP] line while the run
    goes on; and such a read is always caught: it is never the last
    event.  The step of the mapping then consists of the read and the
    [SKIP] line alone, so the target is neither cleared nor written; a
    read of the source failing otherwise is never absorbed, it is raised
    by the step with the read as its only event; and a prefix without
    candidate is skipped with a line of its own.
    In a run of the freeze job every failed remote call is the last event
    and the run ends with its exception; a tab whose metadata leaves no
    column to freeze is skipped with a line of its own and no request. *)
Theorem remote_failures_propagate (remote : trace -> request -> reply)
  (cfg : config) (tr : trace) :
  (forall env, exists evs,
     snd (Update.run_update remote env cfg tr) = tr ++ evs ∧
     (forall before req e after,
         evs = before ++ Call req (Failed e) :: after ->
         (after = [] ∧
          fst (Update.run_update remote env cfg tr) = Raise (exn_of_remote e))
         ∨ swallowed (skipped_read cfg) req e after) ∧
     (forall before source_id rng status after,
         evs = before
               ++ Call (ValuesGet source_id rng None)
                       (Failed (RemoteHttpError status)) :: after ->
         exists prefix rest,
           after = Print (SkipReadFailed prefix (HttpError status)) :: rest)) ∧
  (forall files (props : sheet_props) (props_map : gmap string sheet_props)
          mapping latest e,
      props_map !! m_target_tab mapping = Some props ->
      select_latest_file files (m_prefix mapping) (m_exclude_prefixes mapping)
      = Ok (Some latest) ->
      remote tr (source_read cfg latest) = Failed e ->
      Update.extract_mapping remote cfg files props_map mapping tr =
      match e with
      | RemoteHttpError status =>
          (Ok tt,
           tr ++ [Call (source_read cfg latest) (Failed e);
                  Print (SkipReadFailed (m_prefix mapping)
                                        (HttpError status))])
      | RemoteTransportError =>
          (Raise TransportError,
           tr ++ [Call (source_read cfg latest) (Failed e)])
      end) ∧
  (forall req next, ~ skipped_read cfg req RemoteTransportError next) ∧
  (forall files (props : sheet_props) (props_map : gmap string sheet_props)
          mapping,
      props_map !! m_target_tab mapping = Some props ->
      select_latest_file files (m_prefix mapping) (m_exclude_prefixes mapping)
      = Ok None ->
      Update.extract_mapping remote cfg files props_map mapping tr =
      (Ok tt, tr ++ [Print (SkipNoFile (m_prefix mapping))])) ∧
  (forall env, exists evs,
     snd (Freeze.run_freeze remote env cfg tr) = tr ++ evs ∧
     forall before req e after,
       evs = before ++ Call req (Failed e) :: after ->
       after = [] ∧
       fst (Freeze.run_freeze remote env cfg tr) = Raise (exn_of_remote e)) ∧
  (forall (props : sheet_props) (props_map : gmap string sheet_props)
          (meta_map : gmap string string) tab_name last_col,
      props_map !! tab_name = Some props ->
      meta_map !! tab_name = Some last_col ->
      last_col <> EmptyString ->
      a1_to_col last_col <= 1 ->
      Freeze.freeze_tab remote cfg props_map meta_map tab_name tr =
      (Ok tt, tr ++ [Print (SkipInvalidPrevColumn tab_name last_col)])).
Proof.
  split; [|split; [|split; [|split; [|split]]]].
  - intros env.
    destruct (propagate_run_update remote env cfg tr) as (evs & E & F).
    destruct (run_update_catches remote env cfg tr) as (evs' & E' & C).
    assert (evs' = evs) by (rewrite E in E'; now apply app_inv_head in E').
    subst evs'.
    exists evs. split; [exact E|]. split.
    + intros before req e after Hevs.
      destruct (faults_ok_at _ evs _ F before req e after Hevs)
        as [[Ha Hr] | Hs]; [left | now right].
      split; [exact Ha|].
      destruct (fst (Update.run_update remote env cfg tr)); simpl in Hr;
        congruence.
    + now apply reads_caught_at.
  - intros files props props_map mapping latest e.
    apply extract_mapping_failed_read.
  - intros req next (sid & status & prefix & _ & He & _). discriminate.
  - intros files props props_map mapping Hp Hsel.
    unfold Update.extract_mapping. rewrite Hp.
    unfold bind, lift. rewrite Hsel. reflexivity.
  - intros env.
    destruct (propagate_run_freeze remote env cfg tr) as (evs & E & F).
    exists evs. split; [exact E|].
    intros before req e after Hevs.
    destruct (faults_ok_at _ evs _ F before req e after Hevs)
      as [[Ha Hr] | (next & rest & _ & [])].
    split; [exact Ha|].
    destruct (fst (Freeze.run_freeze remote env cfg tr)); simpl in Hr;
      congruence.
  - intros props props_map meta_map tab_name last_col.
    apply freeze_skips_invalid_previous_column.
Qed.

Lemma remote_failures_propagate_witness :
  Update.extract_mapping flaky_source_grid sample_config
    [mk_file "src1" (Some "saramin_241202"%string) None None]
    {["Staging"%string := mk_props 11 100 26]}
    (mk_mapping "saramin_" "Staging" []) [] =
  (Ok tt,
   [] ++ [Call (ValuesGet "src1" (mk_range "Sheet1" "A1:Z") None)
            (Failed (RemoteHttpError 503));
          Print (SkipReadFailed "saramin_" (HttpError 503))]) ∧
  Update.extract_mapping sample_grid sample_config []
    {["Staging"%string := mk_props 11 100 26]}
    (mk_mapping "saramin_" "Staging" []) [] =
  (Ok tt, [] ++ [Print (SkipNoFile "saramin_")]) ∧
  Freeze.freeze_tab sample_grid sample_config
    {["Prices"%string := mk_props 7 50 10]} {["Prices"%string := "A"%string]}
    "Prices" [] =
  (Ok tt, [] ++ [Print (SkipInvalidPrevColumn "Prices" "A")]).
Proof.
  destruct (remote_failures_propagate sample_grid sample_config [])
    as (_ & _ & _ & Hmiss & _ & Hskip).
  destruct (remote_failures_propagate flaky_source_grid sample_config [])
    as (_ & Hread & _).
  split; [|split].
  - apply (Hread [mk_file "src1" (Some "saramin_241202"%string) None None]
             (mk_props 11 100 26) {["Staging"%string := mk_props 11 100 26]}
             (mk_mapping "saramin_" "Staging" [])
             (mk_file "src1" (Some "saramin_241202"%string) None None)
             (RemoteHttpError 503));
      reflexivity.
  - apply (Hmiss [] (mk_props 11 100 26)); reflexivity.
  - apply (Hskip (mk_props 7 50 10)); [reflexivity | reflexivity | | ].
    + discriminate.
    + vm_compute. discriminate.
Defined.

(** C8, counterexample: the service answers 503 to the read of the
    selected source dataset, the failure goes no further than a [SKIP]
    line, and the run returns normally. *)
Lemma source_read_failure_is_swallowed :
  Update.run_update flaky_source_grid extract_only_env sample_config [] =
  (Ok tt,
   [Call (DriveListRecursive "drive")
         (Files [mk_file "src1" (Some "saramin_241202"%string) None None]);
    Call (SpreadsheetsGet "ledger")
         (Sheets [mk_sheet_entry (Some "Staging"%string) (Some 11) (Some 100)
                                 (Some 26)]);
    Call (ValuesGet "src1" (mk_range "Sheet1" "A1:Z") None)
         (Failed (RemoteHttpError 503));
    Print (SkipReadFailed "saramin_" (HttpError 503))]).
Proof. vm_compute. reflexivity. Qed.

(** ** The extraction stage *)

Lemma exec_request_ok (remote : trace -> request -> reply) (req : request)
  (tr : trace) :
  is_failed (remote tr req) = false ->
  exec_request remote req tr =
  (Ok (remote tr req), tr ++ [Call req (remote tr req)]).
Proof.
  intros H. unfold exec_request. destruct (remote tr req); try reflexivity.
  discriminate.
Qed.

Lemma exec_request_then_ret (remote : trace -> request -> reply)
  (req : request) (tr : trace) :
  snd ((exec_request remote req ;; ret tt) tr) =
  tr ++ [Call req (remote tr req)].
Proof.
  unfold bind, exec_request, ret. destruct (remote tr req); reflexivity.
Qed.

Lemma try_except_ok {A} (m : M A) (handler : exn -> option (M A))
  (tr tr' : trace) (a : A) :
  m tr = (Ok a, tr') -> try_except m handler tr = (Ok a, tr').
Proof. intros H. unfold try_except. now rewrite H. Qed.

(** C10. When the read of the selected source dataset succeeds and holds
    no row, the mapping issues the read and the clearing of the target
    range and nothing else: no write follows, and the outcome is that of
    the clearing.  [write_target_values] adds nothing to the trace exactly
    when the list of values is empty. *)
Theorem empty_source_clears_without_write
  (remote : trace -> request -> reply) (cfg : config) :
  (forall (files : list file_info) (props : sheet_props)
          (props_map : gmap string sheet_props) (mapping : mapping)
          (latest_file : file_info) (tr : trace),
      let read :=
        ValuesGet (f_id latest_file)
          (mk_range (source_sheet_name cfg) (source_range cfg)) None in
      let clear :=
        ValuesClear (target_sheet_id cfg)
          (mk_range (m_target_tab mapping) (target_range cfg)) in
      let tr1 := tr ++ [Call read (remote tr read)] in
      props_map !! m_target_tab mapping = Some props ->
      select_latest_file files (m_prefix mapping) (m_exclude_prefixes mapping)
      = Ok (Some latest_file) ->
      is_failed (remote tr read) = false ->
      get_values (remote tr read) = [] ->
      Update.extract_mapping remote cfg files props_map mapping tr =
      (match remote tr1 clear with
       | Failed e => Raise (exn_of_remote e)
       | _ => Ok tt
       end, tr1 ++ [Call clear (remote tr1 clear)])) ∧
  (forall (spreadsheet_id tab_name : string) (values : rows) (tr : trace),
      snd (Update.write_target_values remote spreadsheet_id tab_name values tr)
      = tr <-> values = []).
Proof.
  split.
  - intros files props props_map mapping latest_file tr read clear tr1
           Hp Hsel Hok Hempty.
    unfold Update.extract_mapping. rewrite Hp.
    rewrite (bind_ok _ _ tr tr (Some latest_file))
      by (unfold lift; now rewrite Hsel).
    cbv beta iota.
    assert (Hread :
              (let* values := Update.read_source_values remote
                   (f_id latest_file) (source_sheet_name cfg)
                   (source_range cfg) in
               ret (Some values)) tr = (Ok (Some []), tr1)).
    { unfold Update.read_source_values.
      unfold bind. rewrite exec_request_ok by assumption.
      fold read tr1. unfold ret. now rewrite Hempty. }
    erewrite bind_ok; [|apply try_except_ok; exact Hread].
    cbv beta iota.
    unfold Update.clear_target_range, Update.write_target_values, bind,
      exec_request, ret. fold clear.
    destruct (remote tr1 clear); reflexivity.
  - intros sid tab values tr. unfold Update.write_target_values.
    destruct values as [|v vs]; simpl.
    + tauto.
    + split; [|discriminate]. intros H. exfalso.
      rewrite exec_request_then_ret in H.
      apply (f_equal (@List.length event)) in H.
      rewrite length_app in H. simpl in H. lia.
Qed.

Lemma empty_source_clears_without_write_witness :
  Update.extract_mapping empty_source_grid sample_config
    [mk_file "src1" (Some "saramin_241202"%string) None None]
    {["Staging"%string := mk_props 11 100 26]}
    (mk_mapping "saramin_" "Staging" []) [] =
  (Ok tt,
   ([] ++ [Call (ValuesGet "src1" (mk_range "Sheet1" "A1:Z") None) (Values [])])
   ++ [Call (ValuesClear "ledger" (mk_range "Staging" "A1:Z")) Done]).
Proof.
  apply (proj1 (empty_source_clears_without_write empty_source_grid
                  sample_config)
           [mk_file "src1" (Some "saramin_241202"%string) None None]
           (mk_props 11 100 26)
           {["Staging"%string := mk_props 11 100 26]}
           (mk_mapping "saramin_" "Staging" [])
           (mk_file "src1" (Some "saramin_241202"%string) None None) []);
    reflexivity.
Defined.

(** ** The metadata store *)



Section Metadata.
Variable remote : trace -> request -> reply.
Variable env : update_env.

End Metadata.



(** ** Sorting with comparisons that can raise *)

Lemma lex_ltb_irrefl (x : Z * Z * Z) : lex_ltb x x = false.
Proof.
  destruct x as [[x1 x2] x3]. unfold lex_ltb.
  rewrite !Z.ltb_irrefl, !Z.eqb_refl. reflexivity.
Qed.

Lemma lex_ltb_spec (x y : Z * Z * Z) :
  lex_ltb x y = true <->
  (fst (fst x) < fst (fst y)
   \/ (fst (fst x) = fst (fst y)
       /\ (snd (fst x) < snd (fst y)
           \/ (snd (fst x) = snd (fst y) /\ snd x < snd y)))).
Proof.
  destruct x as [[x1 x2] x3], y as [[y1 y2] y3]. unfold lex_ltb. simpl.
  rewrite !orb_true_iff, !andb_true_iff, !orb_true_iff, !andb_true_iff,
    !Z.ltb_lt, !Z.eqb_eq. tauto.
Qed.

(** [x < y] and [z] not below [y] put [x] below [z]. *)
Lemma lex_ltb_le_trans (x y z : Z * Z * Z) :
  lex_ltb x y = true -> lex_ltb z y = false -> lex_ltb x z = true.
Proof.
  intros Hxy Hzy. apply lex_ltb_spec. apply lex_ltb_spec in Hxy.
  assert (Hn : ~ (fst (fst z) < fst (fst y)
                  \/ (fst (fst z) = fst (fst y)
                      /\ (snd (fst z) < snd (fst y)
                          \/ (snd (fst z) = snd (fst y) /\ snd z < snd y)))))
    by (rewrite <- lex_ltb_spec; congruence).
  lia.
Qed.

Section SortedInsert.
Context {K A : Type} (ltb : K -> K -> outcome bool) (rk : K -> Z * Z * Z).
Variable good : K -> Prop.
Hypothesis ltb_rank :
  forall x y, good x -> good y -> ltb x y = Ok (lex_ltb (rk x) (rk y)).

Local Abbreviation rank := (rank_of_key rk).

Lemma insert_sorted_nonempty (x : K * A) (sorted sorted' : list (K * A)) :
  insert_sorted ltb x sorted = Ok sorted' -> sorted' <> [].
Proof.
  destruct sorted as [|y rest]; simpl.
  - intros E; inversion E; discriminate.
  - destruct (ltb (fst x) (fst y)) as [[|]|]; simpl; try discriminate.
    + intros E; inversion E; discriminate.
    + destruct (insert_sorted ltb x rest); simpl; try discriminate.
      intros E; inversion E; discriminate.
Qed.

(** Inserting into an ascending list of comparable elements succeeds,
    keeps it ascending, and its last element is the greater of the old
    last and the new element. *)
Lemma insert_sorted_last (x : K * A) (sorted : list (K * A)) :
  good (fst x) -> Forall (fun y => good (fst y)) sorted ->
  ascending rank sorted ->
  exists sorted',
    insert_sorted ltb x sorted = Ok sorted' /\
    Forall (fun y => good (fst y)) sorted' /\
    ascending rank sorted' /\
    (forall P : K * A -> Prop, P x -> Forall P sorted -> Forall P sorted') /\
    last sorted' = pick rank (last sorted) x.
Proof.
  intros Hx. induction sorted as [|y rest IH]; intros Hgood Hasc.
  - exists [x]. simpl. repeat split; auto.
  - inversion Hgood as [|? ? Hy Hrest]; subst.
    destruct Hasc as [Hy_le Hasc].
    simpl. rewrite (ltb_rank _ _ Hx Hy). simpl.
    change (rk (fst x)) with (rank x). change (rk (fst y)) with (rank y).
    destruct (lex_ltb (rank x) (rank y)) eqn:Exy.
    + exists (x :: y :: rest). split; [reflexivity|].
      split; [now constructor|].
      assert (Hbelow : Forall (fun z => lex_ltb (rank z) (rank x) = false)
                         (y :: rest)).
      { constructor.
        - destruct (lex_ltb (rank y) (rank x)) eqn:Eyx; [|reflexivity].
          apply lex_ltb_spec in Exy, Eyx. lia.
        - eapply List.Forall_impl; [|exact Hy_le]. intros z Hz. simpl in Hz.
          destruct (lex_ltb (rank z) (rank x)) eqn:Ezx; [|reflexivity].
          apply lex_ltb_spec in Exy, Ezx.
          assert (Hn : lex_ltb (rank z) (rank y) <> true) by congruence.
          rewrite lex_ltb_spec in Hn. lia. }
      split; [simpl; split; [exact Hbelow | split; assumption]|].
      split; [intros P Px HP; now constructor|].
      rewrite last_cons_cons.
      destruct (last (y :: rest)) as [b|] eqn:Elast; simpl.
      * assert (Hb : lex_ltb (rank b) (rank y) = false).
        { apply last_Some_elem_of in Elast.
          apply elem_of_cons in Elast as [-> | Hin];
            [apply lex_ltb_irrefl|].
          rewrite Forall_forall in Hy_le. now apply Hy_le. }
        now rewrite (lex_ltb_le_trans _ _ _ Exy Hb).
      * apply last_None in Elast. discriminate.
    + destruct (IH Hrest Hasc) as (r & Er & Gr & Ar & Pr & Lr).
      rewrite Er. simpl. exists (y :: r). split; [reflexivity|].
      split; [now constructor|].
      split; [simpl; split; [apply Pr; assumption | assumption]|].
      split.
      { intros P Px HP. inversion HP; subst. constructor; auto. }
      pose proof (insert_sorted_nonempty _ _ _ Er) as Hr.
      destruct r as [|r0 r']; [congruence|].
      rewrite last_cons_cons, Lr. rewrite (last_cons y rest).
      destruct (last rest) as [b|]; simpl; [reflexivity|].
      now rewrite Exy.
Qed.

(** The insertion sort of comparable elements succeeds, and the last
    element of its result is the greatest, the latest of the input among
    equals. *)
Lemma sort_ascending_last (todo : list (K * A)) :
  forall sorted,
    Forall (fun y => good (fst y)) sorted -> ascending rank sorted ->
    Forall (fun y => good (fst y)) todo ->
    exists result,
      sort_ascending ltb sorted todo = Ok result /\
      last result = fold_left (pick rank) todo (last sorted).
Proof.
  induction todo as [|x rest IH]; intros sorted Hs Ha Ht; simpl.
  - now exists sorted.
  - inversion Ht as [|? ? Hx Hrest]; subst.
    destruct (insert_sorted_last x sorted Hx Hs Ha)
      as (s' & Es & Gs & As & _ & Ls).
    rewrite Es. simpl.
    destruct (IH s' Gs As Hrest) as (result & Er & Lr).
    exists result. split; [exact Er|]. now rewrite Lr, Ls.
Qed.
End SortedInsert.

Lemma first_max_fold {A} (rank : A -> Z * Z * Z) (l : list A) :
  fold_left (pick rank) (rev l) None = first_max rank l.
Proof.
  induction l as [|x rest IH]; simpl; [reflexivity|].
  rewrite fold_left_app, IH. reflexivity.
Qed.

(** What [first_max] picks: an element of the list that outranks all
    before it and that none after it outranks. *)
Lemma first_max_spec {A} (rank : A -> Z * Z * Z) (l : list A) (m : A) :
  first_max rank l = Some m ->
  exists before after,
    l = before ++ m :: after /\
    Forall (fun x => lex_ltb (rank x) (rank m) = true) before /\
    Forall (fun x => lex_ltb (rank m) (rank x) = false) after.
Proof.
  revert m. induction l as [|x rest IH]; intros m; simpl; [discriminate|].
  destruct (first_max rank rest) as [best|] eqn:Eb.
  - destruct (lex_ltb (rank x) (rank best)) eqn:Ex; intros E; inversion E;
      subst.
    + destruct (IH m eq_refl) as (before & after & -> & Hb & Ha).
      exists (x :: before), after. repeat split; auto.
    + destruct (IH best eq_refl) as (before & after & -> & Hb & Ha).
      exists [], (before ++ best :: after). repeat split; auto.
      apply Forall_app. split.
      * eapply List.Forall_impl; [|exact Hb]. intros z Hz. simpl in Hz.
        destruct (lex_ltb (rank m) (rank z)) eqn:Emz; [|reflexivity].
        apply lex_ltb_spec in Hz, Emz.
        assert (Hn : lex_ltb (rank m) (rank best) <> true) by congruence.
        rewrite lex_ltb_spec in Hn. lia.
      * constructor; [exact Ex|].
        eapply List.Forall_impl; [|exact Ha]. intros z Hz. simpl in Hz.
        destruct (lex_ltb (rank m) (rank z)) eqn:Emz; [|reflexivity].
        apply lex_ltb_spec in Emz.
        assert (Hn1 : lex_ltb (rank m) (rank best) <> true) by congruence.
        assert (Hn2 : lex_ltb (rank best) (rank z) <> true) by congruence.
        rewrite lex_ltb_spec in Hn1, Hn2. lia.
  - intros E; inversion E; subst. destruct rest; [|simpl in Eb].
    + exists [], []. repeat split; auto.
    + destruct (first_max rank rest); [destruct (lex_ltb _ _)|]; discriminate.
Qed.

(** ** The selector on a pool whose times are uniformly present *)

Lemma dt_eqb_rank (a b : datetime) :
  is_aware a = is_aware b -> dt_eqb a b = (dt_rank a =? dt_rank b).
Proof.
  unfold is_aware, dt_eqb, dt_rank.
  destruct (utcoffset a), (utcoffset b); intros H; try discriminate;
    reflexivity.
Qed.

Lemma dt_ltb_rank (a b : datetime) :
  is_aware a = is_aware b -> dt_ltb a b = Ok (dt_rank a <? dt_rank b).
Proof.
  unfold is_aware, dt_ltb, dt_rank.
  destruct (utcoffset a), (utcoffset b); intros H; try discriminate;
    reflexivity.
Qed.

(** On keys of one shape the comparison never raises and is the
    lexicographic order of the ranks. *)
Lemma key_ltb_rank (sh : bool * bool * bool) (x y : sort_key_t) :
  key_shape x = sh -> key_shape y = sh ->
  key_ltb x y = Ok (lex_ltb (key_rank x) (key_rank y)).
Proof.
  destruct x as [[a1 a2] a3], y as [[b1 b2] b3]. simpl.
  intros <- Hy. inversion Hy as [[H1 H2 H3]].
  rewrite !dt_eqb_rank, !dt_ltb_rank by auto.
  destruct (dt_rank a1 =? dt_rank b1) eqn:E1; simpl.
  - apply Z.eqb_eq in E1. rewrite E1, Z.ltb_irrefl. simpl.
    destruct (dt_rank a2 =? dt_rank b2) eqn:E2; simpl.
    + apply Z.eqb_eq in E2. rewrite E2, Z.ltb_irrefl. simpl.
      destruct (dt_rank a3 =? dt_rank b3) eqn:E3; simpl; [|reflexivity].
      apply Z.eqb_eq in E3. now rewrite E3, Z.ltb_irrefl.
    + now rewrite orb_false_r.
  - now rewrite orb_false_r.
Qed.

Lemma head_map_rev {A B} (f : A -> B) (l : list A) :
  head (map f (rev l)) = f <$> last l.
Proof.
  induction l as [|x l IH] using rev_ind; [reflexivity|].
  now rewrite rev_app_distr, last_snoc.
Qed.

Lemma compute_keys_nil {K A} (key : A -> outcome K) (l : list A) :
  compute_keys key l = Ok [] -> l = [].
Proof.
  destruct l as [|x rest]; [reflexivity|]. simpl.
  destruct (key x); simpl; [|discriminate].
  destruct (compute_keys key rest); discriminate.
Qed.

(** When every candidate's key has the same shape, the selector returns
    the first of the candidates with the greatest key; it returns no
    candidate exactly when none passes the filter. *)
Lemma select_latest_file_uniform (files : list file_info) (prefix : string)
  (exclude_prefixes : list string) (keyed : list (sort_key_t * file_info))
  (sh : bool * bool * bool) :
  compute_keys (sort_key prefix)
    (List.filter (is_candidate prefix exclude_prefixes) files) = Ok keyed ->
  Forall (fun kx => key_shape (fst kx) = sh) keyed ->
  select_latest_file files prefix exclude_prefixes =
  Ok (snd <$> first_max (rank_of_key key_rank) keyed).
Proof.
  intros Hkeys Hshape. unfold select_latest_file.
  destruct (List.filter (is_candidate prefix exclude_prefixes) files)
    as [|c cs] eqn:Ec.
  - simpl in Hkeys. now inversion Hkeys.
  - unfold list_sort. rewrite Hkeys. simpl.
    destruct (sort_ascending_last key_ltb key_rank
                (fun k => key_shape k = sh) (key_ltb_rank sh)
                (rev keyed) [])
      as (result & Er & Lr); [constructor | exact I | |].
    { apply List.Forall_rev. exact Hshape. }
    rewrite Er. simpl. rewrite head_map_rev, Lr. simpl.
    now rewrite first_max_fold.
Qed.

(** Datasets that nothing tells apart: the first in enumeration order. *)
Example select_tie_keeps_enumeration_order :
  select_latest_file
    [mk_file "1" (Some "saramin_a"%string) None None;
     mk_file "2" (Some "saramin_b"%string) None None] "saramin_" [] =
  Ok (Some (mk_file "1" (Some "saramin_a"%string) None None)).
Proof. vm_compute. reflexivity. Qed.

(** ** Source selector *)

(** The examples of the specification. *)
Example select_by_name_timestamp :
  select_latest_file
    [mk_file "1" (Some "saramin_241201"%string) None None;
     mk_file "2" (Some "saramin_241202"%string) None None;
     mk_file "3" (Some "saramin_241130"%string) None None] "saramin_" [] =
  Ok (Some (mk_file "2" (Some "saramin_241202"%string) None None)).
Proof. vm_compute. reflexivity. Qed.

Example select_by_modified_time :
  select_latest_file
    [mk_file "1" (Some "saramin_a"%string)
             (Some "2024-12-01T00:00:00Z"%string) None;
     mk_file "2" (Some "saramin_b"%string)
             (Some "2024-12-02T00:00:00Z"%string) None] "saramin_" [] =
  Ok (Some (mk_file "2" (Some "saramin_b"%string)
                    (Some "2024-12-02T00:00:00Z"%string) None)).
Proof. vm_compute. reflexivity. Qed.

Example select_none_when_no_candidate :
  select_latest_file mixed_pool "jobkorea_" [] = Ok None.
Proof. vm_compute. reflexivity. Qed.

(** C4. A present modification time does not outrank an absent one: the
    present one parses to an offset-aware [datetime], the absent one is
    the naive [datetime.min], the two names give equal first components,
    and ordering the second components raises [TypeError] out of
    [select_latest_file]. *)
Theorem select_latest_file_mixed_presence_raises :
  sort_key "saramin_" (mk_file "src1" (Some "saramin_old"%string)
                               (Some "2024-12-02T00:00:00Z"%string) None) =
  Ok (datetime_min, mk_datetime 2024 12 2 0 0 0 0 (Some 0), datetime_min) ∧
  sort_key "saramin_" (mk_file "src2" (Some "saramin_new"%string) None None) =
  Ok (datetime_min, datetime_min, datetime_min) ∧
  select_latest_file mixed_pool "saramin_" [] = Raise TypeError.
Proof. repeat split; vm_compute; reflexivity. Qed.

(** * Further properties *)

(** ** Column codec *)

Lemma chr_ord (ch : ascii) : chr (ord ch) = ch.
Proof.
  unfold chr, ord. rewrite N2Z.id. apply ascii_N_embedding.
Qed.

Lemma ord_range (ch : ascii) : 0 <= ord ch < 256.
Proof.
  unfold ord. pose proof (N_ascii_bounded ch) as H. lia.
Qed.

Lemma col_to_a1_snoc (v d : Z) :
  0 <= v -> 1 <= d <= 26 ->
  col_to_a1 (v * 26 + d) =
  (col_to_a1 v ++ String (chr (64 + d)) EmptyString)%string.
Proof.
  intros Hv Hd. rewrite col_to_a1_step by lia.
  replace (v * 26 + d - 1) with ((d - 1) + v * 26) by lia.
  rewrite Z.div_add, Z.mod_add by lia.
  rewrite Z.div_small, Z.mod_small by lia.
  simpl. do 3 f_equal. lia.
Qed.

Lemma string_app_assoc (a b c : string) :
  ((a ++ b) ++ c)%string = (a ++ (b ++ c))%string.
Proof.
  induction a as [|ch a IH]; [reflexivity|].
  change (String ch ((a ++ b) ++ c) = String ch (a ++ (b ++ c)))%string.
  now f_equal.
Qed.

Lemma string_app_nil_r (a : string) : (a ++ EmptyString)%string = a.
Proof.
  induction a as [|ch a IH]; [reflexivity|].
  change (String ch (a ++ EmptyString) = String ch a)%string. now f_equal.
Qed.

Lemma col_to_a1_a1_to_col_loop (s : string) :
  all_AZ s = true ->
  forall acc, 0 <= acc ->
    col_to_a1 (a1_to_col_loop acc s) = (col_to_a1 acc ++ s)%string.
Proof.
  induction s as [|c s IH]; simpl; intros Hs acc Hacc.
  - now rewrite string_app_nil_r.
  - apply andb_prop in Hs as [Hc Hs]. rewrite Hc. simpl.
    unfold is_AZ in Hc. apply andb_prop in Hc as [Hlo Hhi].
    apply Z.leb_le in Hlo, Hhi.
    rewrite IH by (auto; lia).
    rewrite col_to_a1_snoc by lia.
    replace (64 + (ord c - 64)) with (ord c) by lia.
    rewrite chr_ord, string_app_assoc. reflexivity.
Qed.

(** X1. Printing the index of a label gives the label back: for a label
    made of the letters A..Z only, [col_to_a1 (a1_to_col label)] is the
    label itself. *)
Theorem col_to_a1_a1_to_col (label : string) :
  all_AZ label = true -> col_to_a1 (a1_to_col label) = label.
Proof.
  intros H. unfold a1_to_col. rewrite upper_all_AZ by assumption.
  rewrite col_to_a1_a1_to_col_loop by (auto; lia). reflexivity.
Qed.

Lemma col_to_a1_a1_to_col_witness :
  col_to_a1 (a1_to_col "ZZAB") = "ZZAB"%string.
Proof. apply col_to_a1_a1_to_col. reflexivity. Defined.

Lemma char_upper_idem (ch : ascii) : char_upper (char_upper ch) = char_upper ch.
Proof.
  unfold char_upper at 2 3. destruct (is_az ch) eqn:E; unfold char_upper.
  - unfold is_az in E. apply andb_prop in E as [Hlo Hhi].
    apply Z.leb_le in Hlo, Hhi.
    assert (Hz : is_az (chr (ord ch - 32)) = false).
    { unfold is_az. rewrite ord_chr by lia.
      apply andb_false_iff. left. apply Z.leb_gt. lia. }
    now rewrite Hz.
  - now rewrite E.
Qed.

Lemma upper_idem (s : string) : upper (upper s) = upper s.
Proof.
  induction s as [|c s IH]; simpl; [reflexivity|].
  now rewrite char_upper_idem, IH.
Qed.

Lemma upper_app (s t : string) :
  upper (s ++ t)%string = (upper s ++ upper t)%string.
Proof.
  induction s as [|c s IH]; [reflexivity|].
  change (String (char_upper c) (upper (s ++ t))
          = String (char_upper c) (upper s ++ upper t))%string.
  now f_equal.
Qed.

Lemma all_letters_upper (s : string) :
  all_letters s = true -> all_AZ (upper s) = true.
Proof.
  induction s as [|c s IH]; simpl; [reflexivity|].
  intros H. apply andb_prop in H as [Hc Hs].
  unfold is_letter in Hc. now rewrite Hc, IH.
Qed.

(** X2. [a1_to_col] reads the leading letters only and ignores their
    case: the label in upper case parses to the same index, and whatever
    follows the first character that is not a letter changes nothing,
    when that character is an ASCII one (the digit of a row number,
    say), which [str.upper] leaves as it is. *)
Theorem a1_to_col_leading_letters :
  (forall s, a1_to_col (upper s) = a1_to_col s) ∧
  (forall s ch rest,
      all_letters s = true -> is_ascii ch = true -> is_letter ch = false ->
      a1_to_col (s ++ String ch rest) = a1_to_col s).
Proof.
  split.
  - intros s. unfold a1_to_col. now rewrite upper_idem.
  - intros s ch rest Hs _ Hch. unfold a1_to_col.
    rewrite upper_app.
    rewrite a1_to_col_loop_app by (now apply all_letters_upper).
    simpl. unfold is_letter in Hch. now rewrite Hch.
Qed.

Lemma a1_to_col_leading_letters_witness :
  a1_to_col ("ab" ++ String "1" "2c") = a1_to_col "ab".
Proof.
  apply (proj2 a1_to_col_leading_letters "ab"%string "1"%char "2c"%string);
    reflexivity.
Defined.

Lemma a1_to_col_loop_ge (s : string) :
  forall acc, 0 <= acc -> acc <= a1_to_col_loop acc s.
Proof.
  induction s as [|c s IH]; simpl; intros acc Hacc; [lia|].
  destruct (is_AZ c) eqn:Hc; simpl; [|lia].
  unfold is_AZ in Hc. apply andb_prop in Hc as [Hlo Hhi].
  apply Z.leb_le in Hlo, Hhi.
  specialize (IH (acc * 26 + (ord c - 64)) ltac:(lia)). lia.
Qed.



(** ** Source selector *)

Section SortPermutes.
Context {K A : Type} (ltb : K -> K -> outcome bool).

Lemma insert_sorted_perm (x : K * A) (sorted sorted' : list (K * A)) :
  insert_sorted ltb x sorted = Ok sorted' -> Permutation (x :: sorted) sorted'.
Proof.
  revert sorted'. induction sorted as [|y rest IH]; simpl; intros sorted' E.
  - inversion E. reflexivity.
  - destruct (ltb (fst x) (fst y)) as [[|]|]; simpl in E; try discriminate.
    + inversion E. reflexivity.
    + destruct (insert_sorted ltb x rest) as [r|] eqn:Er; simpl in E;
        try discriminate.
      inversion E; subst. rewrite perm_swap. constructor. now apply IH.
Qed.

Lemma sort_ascending_perm (todo : list (K * A)) :
  forall sorted result,
    sort_ascending ltb sorted todo = Ok result ->
    Permutation (sorted ++ todo) result.
Proof.
  induction todo as [|x rest IH]; simpl; intros sorted result E.
  - inversion E. now rewrite app_nil_r.
  - destruct (insert_sorted ltb x sorted) as [s|] eqn:Es; simpl in E;
      try discriminate.
    apply IH in E. rewrite <- E.
    apply insert_sorted_perm in Es. rewrite <- Es. simpl.
    symmetry. apply Permutation_middle.
Qed.

Lemma compute_keys_snd (key : A -> outcome K) (l : list A) :
  forall keyed, compute_keys key l = Ok keyed -> map snd keyed = l.
Proof.
  induction l as [|x rest IH]; simpl; intros keyed E.
  - now inversion E.
  - destruct (key x) as [k|]; simpl in E; try discriminate.
    destruct (compute_keys key rest) as [r|]; simpl in E; try discriminate.
    inversion E; subst. simpl. f_equal. now apply IH.
Qed.

(** What [list.sort] returns is a rearrangement of the list. *)
Lemma list_sort_perm (key : A -> outcome K) (reverse : bool)
  (l sorted : list A) :
  list_sort ltb key reverse l = Ok sorted -> Permutation l sorted.
Proof.
  unfold list_sort. intros E.
  destruct (compute_keys key l) as [keyed|] eqn:Ek; simpl in E;
    try discriminate.
  destruct (sort_ascending ltb [] (if reverse then rev keyed else keyed))
    as [r|] eqn:Er; simpl in E; try discriminate.
  inversion E; subst. apply sort_ascending_perm in Er. simpl in Er.
  rewrite <- (compute_keys_snd _ _ _ Ek).
  apply Permutation_map.
  destruct reverse.
  - rewrite <- Permutation_rev. rewrite <- Er. apply Permutation_rev.
  - exact Er.
Qed.
End SortPermutes.

(** X4. Whatever [select_latest_file] returns is one of the files it was
    given, its name starts with the prefix and with none of the excluded
    prefixes; and it returns no file exactly when no file passes that
    filter. *)
Theorem select_latest_file_sound (files : list file_info) (prefix : string)
  (exclude_prefixes : list string) :
  (forall f,
      select_latest_file files prefix exclude_prefixes = Ok (Some f) ->
      In f files ∧
      startswith (get_name f) prefix = true ∧
      forall ex, In ex exclude_prefixes -> startswith (get_name f) ex = false) ∧
  (select_latest_file files prefix exclude_prefixes = Ok None <->
   List.filter (is_candidate prefix exclude_prefixes) files = []).
Proof.
  unfold select_latest_file.
  destruct (List.filter (is_candidate prefix exclude_prefixes) files)
    as [|c cs] eqn:Ec.
  - split; [discriminate | tauto].
  - destruct (list_sort key_ltb (sort_key prefix) true (c :: cs))
      as [sorted|e] eqn:Es; simpl.
    + pose proof (list_sort_perm _ _ _ _ _ Es) as Hperm.
      split.
      * intros f Hf. inversion Hf as [Hhead].
        assert (Hin : In f (c :: cs)).
        { eapply Permutation_in; [symmetry; exact Hperm|].
          destruct sorted; [discriminate|]. inversion Hhead. now left. }
        rewrite <- Ec in Hin. apply List.filter_In in Hin as [Hfiles Hcand].
        unfold is_candidate in Hcand.
        apply andb_prop in Hcand as [Hpre Hex].
        repeat split; auto.
        intros ex Hin. apply negb_true_iff in Hex.
        destruct (startswith (get_name f) ex) eqn:E; [|reflexivity].
        assert (existsb (fun ex => startswith (get_name f) ex)
                        exclude_prefixes = true)
          by (apply existsb_exists; eauto).
        congruence.
      * split; [|discriminate]. intros H. exfalso.
        destruct sorted; [|discriminate].
        apply Permutation_sym, Permutation_nil in Hperm. discriminate.
    + split; [discriminate|]. split; discriminate.
Qed.

Lemma select_latest_file_sound_witness :
  In (mk_file "2" (Some "saramin_241202"%string) None None)
     [mk_file "1" (Some "jobkorea_241203"%string) None None;
      mk_file "2" (Some "saramin_241202"%string) None None;
      mk_file "3" (Some "saramin_x_241204"%string) None None].
Proof.
  apply (proj1 (select_latest_file_sound _ "saramin_" ["saramin_x"%string])).
  vm_compute. reflexivity.
Defined.

Lemma compute_keys_uniform (prefix : string) (sh : bool * bool * bool)
  (l : list file_info) :
  Forall (fun f => file_shape prefix f = Some sh) l ->
  exists keyed,
    compute_keys (sort_key prefix) l = Ok keyed /\
    Forall (fun kx => key_shape (fst kx) = sh) keyed /\
    Forall (fun kx => key_rank (fst kx) = file_rank prefix (snd kx)) keyed /\
    map snd keyed = l.
Proof.
  induction l as [|f rest IH]; intros H.
  - exists []. repeat split; constructor.
  - inversion H as [|? ? Hf Hrest]; subst.
    destruct (IH Hrest) as (keyed & Ek & Hs & Hr & Hm).
    unfold file_shape in Hf.
    destruct (sort_key prefix f) as [k|] eqn:Ekf; [|discriminate].
    exists ((k, f) :: keyed). simpl. rewrite Ekf, Ek. simpl.
    repeat split.
    + constructor; [simpl; congruence | assumption].
    + constructor; [simpl; unfold file_rank; now rewrite Ekf | assumption].
    + now rewrite Hm.
Qed.

Lemma first_max_nonempty {A} (rank : A -> Z * Z * Z) (x : A) (l : list A) :
  exists m, first_max rank (x :: l) = Some m.
Proof.
  simpl. destruct (first_max rank l) as [b|]; [|eauto].
  destruct (lex_ltb (rank x) (rank b)); eauto.
Qed.

(** X5. On a pool whose candidates all have keys of one shape (each of
    the two times present in all of them, with an offset, or absent in
    all of them) the selector returns the candidate of greatest key, and
    among equals the first in the order of the pool: every candidate
    before it ranks strictly lower and none after it ranks higher. *)
Theorem select_latest_file_first_greatest (files : list file_info)
  (prefix : string) (exclude_prefixes : list string)
  (sh : bool * bool * bool) :
  Forall (fun f => file_shape prefix f = Some sh)
         (List.filter (is_candidate prefix exclude_prefixes) files) ->
  match List.filter (is_candidate prefix exclude_prefixes) files with
  | [] => select_latest_file files prefix exclude_prefixes = Ok None
  | _ :: _ =>
      exists m before after,
        select_latest_file files prefix exclude_prefixes = Ok (Some m) ∧
        List.filter (is_candidate prefix exclude_prefixes) files
        = before ++ m :: after ∧
        Forall (fun f => lex_ltb (file_rank prefix f) (file_rank prefix m)
                         = true) before ∧
        Forall (fun f => lex_ltb (file_rank prefix m) (file_rank prefix f)
                         = false) after
  end.
Proof.
  intros Hshape.
  destruct (compute_keys_uniform prefix sh _ Hshape)
    as (keyed & Ek & Hs & Hr & Hm).
  pose proof (select_latest_file_uniform files prefix exclude_prefixes keyed
                sh Ek Hs) as Hsel.
  destruct (List.filter (is_candidate prefix exclude_prefixes) files)
    as [|c cs] eqn:Ec.
  - destruct keyed; [exact Hsel | discriminate].
  - destruct keyed as [|k0 keyed']; [discriminate|].
    destruct (first_max_nonempty (rank_of_key key_rank) k0 keyed')
      as (km & Efm).
    rewrite Efm in Hsel. simpl in Hsel.
    destruct (first_max_spec _ _ _ Efm) as (kb & ka & Ekeyed & Hb & Ha).
    exists (snd km), (map snd kb), (map snd ka).
    split; [exact Hsel|].
    rewrite Ekeyed in Hm, Hr. rewrite map_app in Hm. simpl in Hm.
    split; [now rewrite Hm|].
    apply Forall_app in Hr as [Hrb Hra].
    inversion Hra as [|? ? Hrm Hra']; subst.
    unfold rank_of_key in Hb, Ha. split.
    + apply Forall_map. rewrite Forall_forall in *. intros x Hx.
      rewrite <- Hrm, <- (Hrb x Hx). now apply Hb.
    + apply Forall_map. rewrite Forall_forall in *. intros x Hx.
      rewrite <- Hrm, <- (Hra' x Hx). now apply Ha.
Qed.

Lemma select_latest_file_first_greatest_witness :
  exists m before after,
    select_latest_file
      [mk_file "1" (Some "saramin_241201"%string)
               (Some "2024-12-05T00:00:00Z"%string) None;
       mk_file "2" (Some "saramin_241202"%string)
               (Some "2024-12-03T00:00:00Z"%string) None;
       mk_file "3" (Some "saramin_241202"%string)
               (Some "2024-12-03T00:00:00Z"%string) None]
      "saramin_" [] = Ok (Some m) ∧
    [mk_file "1" (Some "saramin_241201"%string)
             (Some "2024-12-05T00:00:00Z"%string) None;
     mk_file "2" (Some "saramin_241202"%string)
             (Some "2024-12-03T00:00:00Z"%string) None;
     mk_file "3" (Some "saramin_241202"%string)
             (Some "2024-12-03T00:00:00Z"%string) None]
    = before ++ m :: after ∧
    Forall (fun f => lex_ltb (file_rank "saramin_" f) (file_rank "saramin_" m)
                     = true) before ∧
    Forall (fun f => lex_ltb (file_rank "saramin_" m) (file_rank "saramin_" f)
                     = false) after.
Proof.
  apply (select_latest_file_first_greatest
           [mk_file "1" (Some "saramin_241201"%string)
                    (Some "2024-12-05T00:00:00Z"%string) None;
            mk_file "2" (Some "saramin_241202"%string)
                    (Some "2024-12-03T00:00:00Z"%string) None;
            mk_file "3" (Some "saramin_241202"%string)
                    (Some "2024-12-03T00:00:00Z"%string) None]
           "saramin_" [] (false, true, false)).
  repeat constructor.
Defined.

(** *** Time stamps in names *)

Lemma all_digits_take (n : nat) (s : string) :
  all_digits s = true -> all_digits (take_chars n s) = true.
Proof.
  revert s. induction n as [|n IH]; intros s H; [reflexivity|].
  destruct s as [|c s]; [reflexivity|]. simpl in *.
  apply andb_prop in H as [Hc Hs]. now rewrite Hc, IH.
Qed.

Lemma all_digits_drop (n : nat) (s : string) :
  all_digits s = true -> all_digits (drop_chars n s) = true.
Proof.
  revert s. induction n as [|n IH]; intros s H; [exact H|].
  destruct s as [|c s]; [reflexivity|]. simpl in *.
  apply andb_prop in H as [Hc Hs]. now apply IH.
Qed.

Lemma length_take_chars (n : nat) (s : string) :
  (String.length (take_chars n s) <= n)%nat.
Proof.
  revert s. induction n as [|n IH]; intros s; [simpl; lia|].
  destruct s as [|c s]; simpl; [lia|]. specialize (IH s). lia.
Qed.

Lemma int_of_digits_acc_bound (s : string) :
  all_digits s = true ->
  forall acc, 0 <= acc ->
    let r := fold_left (fun a ch => a * 10 + (ord ch - 48))
                       (list_ascii_of_string s) acc in
    acc * 10 ^ Z.of_nat (String.length s) <= r
    < (acc + 1) * 10 ^ Z.of_nat (String.length s).
Proof.
  induction s as [|c s IH]; intros H acc Hacc;
    cbn [String.length list_ascii_of_string fold_left].
  - simpl. lia.
  - simpl in H. apply andb_prop in H as [Hc Hs].
    unfold is_digit in Hc. apply andb_prop in Hc as [Hlo Hhi].
    apply Z.leb_le in Hlo, Hhi.
    specialize (IH Hs (acc * 10 + (ord c - 48)) ltac:(lia)).
    cbv zeta in IH.
    rewrite Nat2Z.inj_succ, Z.pow_succ_r by lia.
    assert (0 < 10 ^ Z.of_nat (String.length s))
      by (apply Z.pow_pos_nonneg; lia).
    nia.
Qed.

Lemma two_digits_bound (a : nat) (s : string) :
  all_digits s = true -> 0 <= int_of_digits (slice a (a + 2) s) <= 99.
Proof.
  intros H. unfold slice. replace (a + 2 - a)%nat with 2%nat by lia.
  set (tok := take_chars 2 (drop_chars a s)).
  assert (Htok : all_digits tok = true)
    by (apply all_digits_take, all_digits_drop, H).
  pose proof (length_take_chars 2 (drop_chars a s)) as Hlen. fold tok in Hlen.
  pose proof (int_of_digits_acc_bound tok Htok 0 ltac:(lia)) as Hb.
  simpl in Hb. fold (int_of_digits tok) in Hb.
  assert (10 ^ Z.of_nat (String.length tok) <= 100).
  { replace 100 with (10 ^ 2) by reflexivity.
    apply Z.pow_le_mono_r; lia. }
  lia.
Qed.

Lemma six_digits_all_digits (s tok : string) :
  six_digits s = Some tok -> all_digits tok = true.
Proof.
  unfold six_digits.
  destruct ((String.length (take_chars 6 s) =? 6)%nat
            && all_digits (take_chars 6 s)) eqn:E; [|discriminate].
  intros H. inversion H; subst. now apply andb_prop in E as [_ E].
Qed.

Lemma search_stamp_all_digits (suffix yymmdd : string) (group2 : option string) :
  search_stamp suffix = Some (yymmdd, group2) ->
  all_digits yymmdd = true /\
  match group2 with
  | Some hhmmss => all_digits hhmmss = true
  | None => True
  end.
Proof.
  induction suffix as [|c rest IH].
  - simpl. discriminate.
  - cbn [search_stamp].
    destruct (six_digits (String c rest)) as [tok|] eqn:E6.
    + pose proof (six_digits_all_digits _ _ E6) as Htok.
      destruct (drop_chars 6 (String c rest)) as [|c' rest'] eqn:Ed.
      * intros H; inversion H; subst. auto.
      * destruct (Ascii.eqb c' "_") eqn:Eu.
        -- apply Ascii.eqb_eq in Eu. subst c'.
           intros H; inversion H; subst. split; [assumption|].
           destruct (six_digits rest') eqn:E2; [|exact I].
           now apply six_digits_all_digits in E2.
        -- assert (Hne : c' <> "_"%char)
             by (intros ->; now rewrite Ascii.eqb_refl in Eu).
           destruct c' as [[] [] [] [] [] [] [] []];
             try (intros H; inversion H; subst; auto); congruence.
    + exact IH.
Qed.

Lemma make_datetime_ok (y mo d h mi s us : Z) (tz : option Z) (dt : datetime) :
  make_datetime y mo d h mi s us tz = Ok dt ->
  dt = mk_datetime y mo d h mi s us tz /\
  1 <= y <= 9999 /\ 1 <= mo <= 12 /\ 1 <= d <= days_in_month y mo /\
  0 <= h <= 23 /\ 0 <= mi <= 59 /\ 0 <= s <= 59 /\ 0 <= us <= 999999.
Proof.
  unfold make_datetime.
  destruct (_ && _) eqn:E; [|discriminate].
  intros H; inversion H; subst.
  repeat (apply andb_prop in E as [E ?]).
  repeat match goal with
         | H : (_ <=? _) = true |- _ => apply Z.leb_le in H
         end.
  repeat split; assumption.
Qed.

Lemma parse_timestamp_from_name_fields (name prefix : string)
  (dt : datetime) :
  parse_timestamp_from_name name prefix = Some dt ->
  startswith name prefix = true ∧
  utcoffset dt = None ∧
  2000 <= year dt <= 2099 ∧
  1 <= month dt <= 12 ∧
  1 <= day dt <= days_in_month (year dt) (month dt) ∧
  0 <= hour dt <= 23 ∧ 0 <= minute dt <= 59 ∧ 0 <= second dt <= 59 ∧
  microsecond dt = 0.
Proof.
  unfold parse_timestamp_from_name.
  destruct (startswith name prefix); simpl; [|discriminate].
  destruct (search_stamp (drop_chars (String.length prefix) name))
    as [[yymmdd group2]|] eqn:Es; [|discriminate].
  destruct (make_datetime _ _ _ _ _ _ 0 None) as [d|] eqn:Em; [|discriminate].
  intros H; inversion H; subst d.
  apply search_stamp_all_digits in Es as [Hd _].
  apply make_datetime_ok in Em
    as (-> & Hy & Hmo & Hday & Hh & Hmi & Hs & _).
  pose proof (two_digits_bound 0 yymmdd Hd) as Hyy. simpl in Hyy.
  simpl. repeat split; try lia.
Qed.

(** X6. A time stamp read out of a name is a naive [datetime] of the
    years 2000 to 2099, at a real calendar date and time of day, with no
    fraction of a second; and a name is only read when it starts with the
    prefix. *)
Theorem parse_timestamp_from_name_well_formed (name prefix : string)
  (dt : datetime) :
  parse_timestamp_from_name name prefix = Some dt ->
  startswith name prefix = true ∧
  utcoffset dt = None ∧
  2000 <= year dt <= 2099 ∧
  1 <= month dt <= 12 ∧
  1 <= day dt <= days_in_month (year dt) (month dt) ∧
  0 <= hour dt <= 23 ∧ 0 <= minute dt <= 59 ∧ 0 <= second dt <= 59 ∧
  microsecond dt = 0.
Proof. apply parse_timestamp_from_name_fields. Qed.

Lemma parse_timestamp_from_name_well_formed_witness :
  startswith "saramin_241202_101112" "saramin_" = true ∧
  utcoffset (mk_datetime 2024 12 2 10 11 12 0 None) = None ∧
  2000 <= year (mk_datetime 2024 12 2 10 11 12 0 None) <= 2099 ∧
  1 <= month (mk_datetime 2024 12 2 10 11 12 0 None) <= 12 ∧
  1 <= day (mk_datetime 2024 12 2 10 11 12 0 None)
  <= days_in_month (year (mk_datetime 2024 12 2 10 11 12 0 None))
                   (month (mk_datetime 2024 12 2 10 11 12 0 None)) ∧
  0 <= hour (mk_datetime 2024 12 2 10 11 12 0 None) <= 23 ∧
  0 <= minute (mk_datetime 2024 12 2 10 11 12 0 None) <= 59 ∧
  0 <= second (mk_datetime 2024 12 2 10 11 12 0 None) <= 59 ∧
  microsecond (mk_datetime 2024 12 2 10 11 12 0 None) = 0.
Proof.
  apply (parse_timestamp_from_name_well_formed "saramin_241202_101112"
           "saramin_").
  vm_compute. reflexivity.
Defined.

Lemma days_before_month_nonneg (y m : Z) : 0 <= days_before_month y m.
Proof.
  unfold days_before_month.
  assert (H : forall l acc, 0 <= acc ->
            0 <= fold_left (fun a k => a + days_in_month y (Z.of_nat k)) l acc).
  { induction l as [|k l IH]; simpl; intros acc Hacc; [assumption|].
    apply IH. unfold days_in_month.
    destruct (_ =? 2); [destruct (is_leap y)|destruct (_ || _)]; lia. }
  apply H. lia.
Qed.

(** A day of the years 2000 and later lies after [datetime.min]. *)
Lemma local_micros_after_min (dt : datetime) :
  2000 <= year dt -> 1 <= day dt -> 0 <= hour dt -> 0 <= minute dt ->
  0 <= second dt -> 0 <= microsecond dt ->
  local_micros datetime_min < local_micros dt.
Proof.
  intros Hy Hd Hh Hmi Hs Hus.
  change (local_micros datetime_min) with 86400000000.
  unfold local_micros, toordinal, days_before_year.
  pose proof (days_before_month_nonneg (year dt) (month dt)).
  assert (0 <= (year dt - 1) / 400) by (apply Z.div_pos; lia).
  assert ((year dt - 1) / 100 <= (year dt - 1) / 4).
  { apply Z.div_le_compat_l with (p := year dt - 1) (q := 4) (r := 100); lia. }
  nia.
Qed.

(** X7. A dataset whose name carries a time stamp outranks one whose name
    carries none, whatever the modification and creation times of the
    two, and comparing the two keys never raises: the first components
    differ and decide. *)
Theorem name_timestamp_outranks_absent (prefix : string) (f g : file_info)
  (kf kg : sort_key_t) :
  sort_key prefix f = Ok kf ->
  sort_key prefix g = Ok kg ->
  parse_timestamp_from_name (get_name f) prefix = None ->
  parse_timestamp_from_name (get_name g) prefix <> None ->
  key_ltb kf kg = Ok true ∧ key_ltb kg kf = Ok false.
Proof.
  unfold sort_key. intros Hf Hg Hnone Hsome.
  rewrite Hnone in Hf.
  destruct (parse_timestamp_from_name (get_name g) prefix) as [dt|] eqn:Eg;
    [|congruence].
  apply parse_timestamp_from_name_fields in Eg
    as (_ & Htz & Hy & _ & Hd & Hh & Hmi & Hs & Hus).
  destruct (time_or_min (f_modifiedTime f)) as [mf|]; simpl in Hf;
    [|discriminate].
  destruct (time_or_min (f_createdTime f)) as [cf|]; simpl in Hf;
    [|discriminate].
  destruct (time_or_min (f_modifiedTime g)) as [mg|]; simpl in Hg;
    [|discriminate].
  destruct (time_or_min (f_createdTime g)) as [cg|]; simpl in Hg;
    [|discriminate].
  inversion Hf; inversion Hg; subst kf kg.
  pose proof (local_micros_after_min dt ltac:(lia) ltac:(lia) ltac:(lia)
                ltac:(lia) ltac:(lia) ltac:(lia)) as Hlt.
  assert (E1 : dt_eqb datetime_min dt = false).
  { unfold dt_eqb. rewrite Htz. apply Z.eqb_neq. lia. }
  assert (E2 : dt_eqb dt datetime_min = false).
  { unfold dt_eqb. rewrite Htz. apply Z.eqb_neq. lia. }
  assert (L1 : dt_ltb datetime_min dt = Ok true).
  { unfold dt_ltb. rewrite Htz. cbn [utcoffset datetime_min]. f_equal.
    apply Z.ltb_lt. lia. }
  assert (L2 : dt_ltb dt datetime_min = Ok false).
  { unfold dt_ltb. rewrite Htz. cbn [utcoffset datetime_min]. f_equal.
    apply Z.ltb_ge. lia. }
  unfold key_ltb. rewrite E1, E2. simpl. auto.
Qed.

Lemma name_timestamp_outranks_absent_witness :
  key_ltb (datetime_min, mk_datetime 2024 12 9 0 0 0 0 (Some 0), datetime_min)
          (mk_datetime 2024 12 2 0 0 0 0 None, datetime_min, datetime_min)
  = Ok true ∧
  key_ltb (mk_datetime 2024 12 2 0 0 0 0 None, datetime_min, datetime_min)
          (datetime_min, mk_datetime 2024 12 9 0 0 0 0 (Some 0), datetime_min)
  = Ok false.
Proof.
  apply (name_timestamp_outranks_absent "saramin_"
           (mk_file "1" (Some "saramin_old"%string)
                    (Some "2024-12-09T00:00:00Z"%string) None)
           (mk_file "2" (Some "saramin_241202"%string) None None)).
  - vm_compute. reflexivity.
  - vm_compute. reflexivity.
  - vm_compute. reflexivity.
  - vm_compute. discriminate.
Defined.

(** ** The metadata store *)

Section MetaUpdate.
Variable remote : trace -> request -> reply.

Lemma update_meta_scan_no_row
  (spreadsheet_id meta_sheet tab_name new_col : string) (table : rows) :
  Forall (fun row => names_tab tab_name row = false) table ->
  forall idx tr,
    Update.update_meta_scan remote spreadsheet_id meta_sheet tab_name new_col
      table idx tr = (Ok tt, tr).
Proof.
  induction table as [|row rest IH]; intros H idx tr; [reflexivity|].
  inversion H as [|? ? Hrow Hrest]; subst. simpl.
  destruct row as [|c0 cs]; [now apply IH|].
  simpl in Hrow. rewrite Hrow. now apply IH.
Qed.

Lemma update_meta_scan_first_row
  (spreadsheet_id meta_sheet tab_name new_col : string)
  (before : rows) (row : list cell) (after : rows) :
  Forall (fun r => names_tab tab_name r = false) before ->
  names_tab tab_name row = true ->
  forall idx tr,
    Update.update_meta_scan remote spreadsheet_id meta_sheet tab_name new_col
      (before ++ row :: after) idx tr =
    (exec_request remote
       (ValuesUpdate spreadsheet_id
          (mk_range meta_sheet ("B" ++ pretty (idx + Z.of_nat (List.length before))))
          RAW [[new_col]]) ;;
     ret tt) tr.
Proof.
  induction before as [|r rest IH]; intros Hb Hrow idx tr.
  - simpl. destruct row as [|c0 cs]; [discriminate|].
    simpl in Hrow. rewrite Hrow. now rewrite Z.add_0_r.
  - inversion Hb as [|? ? Hr Hrest]; subst.
    cbn [app Update.update_meta_scan].
    replace (idx + Z.of_nat (List.length (r :: rest)))
      with (idx + 1 + Z.of_nat (List.length rest))
      by (cbn [List.length]; lia).
    destruct r as [|c0 cs]; [now apply IH|].
    simpl in Hr. rewrite Hr. now apply IH.
Qed.
End MetaUpdate.

(** X8. In table-scan mode (the tab has no fixed metadata row)
    [update_master_meta] reads the metadata table once; when no row after
    the header names the tab, it writes nothing and returns normally: the
    new label is not recorded. *)
Theorem update_master_meta_without_row_is_silent
  (remote : trace -> request -> reply)
  (spreadsheet_id meta_sheet meta_range : string)
  (meta_rows : list (string * Z)) (tab_name new_col : string) (tr : trace) :
  let read := ValuesGet spreadsheet_id (mk_range meta_sheet meta_range)
                        (Some FORMATTED_VALUE) in
  dict_get tab_name meta_rows = None ->
  is_failed (remote tr read) = false ->
  Forall (fun row => names_tab tab_name row = false)
         (tail (get_values (remote tr read))) ->
  Update.update_master_meta remote spreadsheet_id meta_sheet meta_range
    meta_rows tab_name new_col tr =
  (Ok tt, tr ++ [Call read (remote tr read)]).
Proof.
  intros read Hdict Hok Hrows. unfold Update.update_master_meta.
  rewrite Hdict. unfold bind. fold read.
  rewrite exec_request_ok by assumption.
  now apply update_meta_scan_no_row.
Qed.

Lemma update_master_meta_without_row_is_silent_witness :
  Update.update_master_meta sample_grid "ledger" "Master_Meta" "A1:B10" []
    "Prices" "K" [] =
  (Ok tt,
   [] ++ [Call (ValuesGet "ledger" (mk_range "Master_Meta" "A1:B10")
                  (Some FORMATTED_VALUE))
            (sample_grid [] (ValuesGet "ledger" (mk_range "Master_Meta" "A1:B10")
                               (Some FORMATTED_VALUE)))]).
Proof.
  apply update_master_meta_without_row_is_silent;
    [reflexivity | reflexivity | constructor].
Defined.

(** X9. In table-scan mode [update_master_meta] writes the new label once,
    into column B of the first row after the header whose first cell,
    stripped, is the tab name: the row of sheet number 2 plus the number
    of rows skipped; later rows that name the tab are left as they are. *)
Theorem update_master_meta_writes_first_row
  (remote : trace -> request -> reply)
  (spreadsheet_id meta_sheet meta_range : string)
  (meta_rows : list (string * Z)) (tab_name new_col : string) (tr : trace)
  (header : list cell) (before : rows) (row : list cell) (after : rows) :
  let read := ValuesGet spreadsheet_id (mk_range meta_sheet meta_range)
                        (Some FORMATTED_VALUE) in
  let tr1 := tr ++ [Call read (remote tr read)] in
  let write :=
    ValuesUpdate spreadsheet_id
      (mk_range meta_sheet ("B" ++ pretty (2 + Z.of_nat (List.length before))))
      RAW [[new_col]] in
  dict_get tab_name meta_rows = None ->
  remote tr read = Values (header :: before ++ row :: after) ->
  Forall (fun r => names_tab tab_name r = false) before ->
  names_tab tab_name row = true ->
  Update.update_master_meta remote spreadsheet_id meta_sheet meta_range
    meta_rows tab_name new_col tr =
  (match remote tr1 write with
   | Failed e => Raise (exn_of_remote e)
   | _ => Ok tt
   end, tr1 ++ [Call write (remote tr1 write)]).
Proof.
  intros read tr1 write Hdict Hread Hbefore Hrow.
  unfold Update.update_master_meta. rewrite Hdict. unfold bind at 1.
  fold read. rewrite exec_request_ok by (now rewrite Hread).
  fold tr1. rewrite Hread. cbn [get_values tail].
  rewrite update_meta_scan_first_row by assumption.
  unfold bind, exec_request, ret. fold write.
  destruct (remote tr1 write); reflexivity.
Qed.

Lemma update_master_meta_writes_first_row_witness :
  Update.update_master_meta table_grid "ledger" "Master_Meta" "A1:B10" []
    "Prices" "K" [] =
  (Ok tt,
   ([] ++ [Call (ValuesGet "ledger" (mk_range "Master_Meta" "A1:B10")
                   (Some FORMATTED_VALUE))
             (table_grid [] (ValuesGet "ledger"
                               (mk_range "Master_Meta" "A1:B10")
                               (Some FORMATTED_VALUE)))])
   ++ [Call (ValuesUpdate "ledger" (mk_range "Master_Meta" "B3") RAW
               [["K"%string]]) Done]).
Proof.
  apply (update_master_meta_writes_first_row table_grid "ledger" "Master_Meta"
           "A1:B10" [] "Prices" "K" []
           ["Tab"%string; "Last"%string] [["Other"%string; "C"%string]]
           [" Prices "%string; "J"%string] [["Prices"%string; "Q"%string]]);
    [reflexivity | reflexivity | repeat constructor | reflexivity].
Defined.

(** *** Writing the label and reading it back *)

Lemma written_app (sid : string) (rng : range) (tr evs : trace) :
  written sid rng (tr ++ evs) =
  match written sid rng evs with
  | Some v => Some v
  | None => written sid rng tr
  end.
Proof.
  induction tr as [|ev tr IH]; simpl.
  - now destruct (written sid rng evs).
  - rewrite IH. destruct (written sid rng evs); [reflexivity|].
    reflexivity.
Qed.

Lemma written_after_read (sid : string) (rng : range) (tr : trace)
  (sid' : string) (rng' : range) (opt : option render_option) (rep : reply) :
  written sid rng (tr ++ [Call (ValuesGet sid' rng' opt) rep]) =
  written sid rng tr.
Proof. now rewrite written_app. Qed.

Lemma written_after_write (sid : string) (rng : range) (tr : trace)
  (input : input_option) (values : rows) (rep : reply) :
  is_failed rep = false ->
  written sid rng (tr ++ [Call (ValuesUpdate sid rng input values) rep]) =
  Some values.
Proof.
  intros Hok. rewrite written_app. simpl.
  now rewrite !String.eqb_refl, Hok.
Qed.

Lemma is_space_AZ (ch : ascii) : is_AZ ch = true -> is_space ch = false.
Proof.
  unfold is_AZ, is_space. intros H. apply andb_prop in H as [Hlo Hhi].
  apply Z.leb_le in Hlo, Hhi.
  apply orb_false_iff. split; apply andb_false_iff; right; apply Z.leb_gt; lia.
Qed.

Lemma strip_all_AZ (s : string) : all_AZ s = true -> strip s = s.
Proof.
  intros H. unfold strip.
  assert (Hl : lstrip s = s).
  { destruct s as [|c s]; [reflexivity|]. simpl in *.
    apply andb_prop in H as [Hc _]. now rewrite (is_space_AZ c Hc). }
  rewrite Hl. induction s as [|c s IH]; [reflexivity|].
  simpl in H. apply andb_prop in H as [Hc Hs].
  cbn [rstrip]. rewrite IH.
  - destruct s; [now rewrite (is_space_AZ c Hc) | reflexivity].
  - exact Hs.
  - destruct s as [|c' s']; [reflexivity|]. simpl in *.
    apply andb_prop in Hs as [Hc' _]. now rewrite (is_space_AZ c' Hc').
Qed.

Section ReadBack.
Variable remote : trace -> request -> reply.
Hypothesis remote_ok : never_fails remote.
Hypothesis remote_memory : reads_back remote.

Lemma get_master_meta_from_rows_other (spreadsheet_id meta_sheet : string)
  (tab_name : string) (meta_rows : list (string * Z)) :
  dict_get tab_name meta_rows = None ->
  forall result tr, exists m tr',
    get_master_meta_from_rows remote spreadsheet_id meta_sheet meta_rows
      result tr = (Ok m, tr') /\
    m !! tab_name = result !! tab_name.
Proof.
  induction meta_rows as [|[t r] rest IH]; intros Hd result tr.
  - exists result, tr. split; reflexivity.
  - simpl in Hd. destruct (String.eqb t tab_name) eqn:Et; [discriminate|].
    apply String.eqb_neq in Et.
    cbn [get_master_meta_from_rows]. unfold bind.
    rewrite exec_request_never_fails by assumption.
    match goal with
    | |- context [get_master_meta_from_rows _ _ _ rest ?res ?t'] =>
        destruct (IH Hd res t') as (m & tr' & E & L)
    end.
    exists m, tr'. split; [exact E|]. rewrite L.
    destruct (get_values _) as [|[|v vs] rs]; try reflexivity.
    now rewrite lookup_insert_ne.
Qed.

Lemma get_master_meta_from_rows_written (spreadsheet_id meta_sheet : string)
  (tab_name label : string) (row_idx : Z) (meta_rows : list (string * Z)) :
  dict_get tab_name meta_rows = Some row_idx ->
  NoDup (map fst meta_rows) ->
  forall result tr,
    written spreadsheet_id (mk_range meta_sheet ("B" ++ pretty row_idx)) tr
    = Some [[label]] ->
    exists m tr',
      get_master_meta_from_rows remote spreadsheet_id meta_sheet meta_rows
        result tr = (Ok m, tr') /\
      m !! tab_name = Some (upper (strip label)).
Proof.
  induction meta_rows as [|[t r] rest IH]; intros Hd Hnd result tr Hw.
  - discriminate.
  - simpl in Hd. inversion Hnd as [|? ? Hnotin Hnd']; subst.
    cbn [get_master_meta_from_rows]. unfold bind.
    rewrite exec_request_never_fails by assumption.
    destruct (String.eqb t tab_name) eqn:Et.
    + apply String.eqb_eq in Et. subst t. inversion Hd; subst r.
      rewrite (remote_memory _ _ _ _ _ Hw). cbn [get_values].
      assert (Hrest : dict_get tab_name rest = None).
      { clear - Hnotin. induction rest as [|[t' r'] rest IH]; [reflexivity|].
        simpl in *. apply not_elem_of_cons in Hnotin as [Hne Hnotin].
        destruct (String.eqb t' tab_name) eqn:E.
        - apply String.eqb_eq in E. congruence.
        - now apply IH. }
      match goal with
      | |- context [get_master_meta_from_rows _ _ _ rest ?res ?t'] =>
          destruct (get_master_meta_from_rows_other spreadsheet_id meta_sheet
                      tab_name rest Hrest res t') as (m & tr' & E & L)
      end.
      exists m, tr'. split; [exact E|]. rewrite L. apply lookup_insert_eq.
    + match goal with
      | |- context [get_master_meta_from_rows _ _ _ rest ?res ?t'] =>
          destruct (IH Hd Hnd' res t') as (m & tr' & E & L)
      end; [now rewrite written_after_read|].
      exists m, tr'. split; assumption.
Qed.
End ReadBack.

(** X10. With fixed metadata rows of distinct tab names, on a grid that
    answers and that reads a cell as what was last written to it, the
    label [update_master_meta] records for a tab is the label
    [get_master_meta_map] reads for it afterwards, stripped and in upper
    case; a label of letters A..Z, as the append returns, reads back
    unchanged. *)
Theorem metadata_written_is_read_back (remote : trace -> request -> reply)
  (spreadsheet_id meta_sheet meta_range : string)
  (meta_rows : list (string * Z)) (tab_name new_col : string) (row_idx : Z)
  (tr : trace) :
  never_fails remote -> reads_back remote ->
  dict_get tab_name meta_rows = Some row_idx ->
  NoDup (map fst meta_rows) ->
  exists tr1 m tr2,
    Update.update_master_meta remote spreadsheet_id meta_sheet meta_range
      meta_rows tab_name new_col tr = (Ok tt, tr1) ∧
    Update.get_master_meta_map remote spreadsheet_id meta_sheet meta_range
      meta_rows tr1 = (Ok m, tr2) ∧
    m !! tab_name = Some (upper (strip new_col)) ∧
    (all_AZ new_col = true -> m !! tab_name = Some new_col).
Proof.
  intros Hok Hmem Hd Hnd.
  unfold Update.update_master_meta. rewrite Hd. unfold bind.
  rewrite exec_request_never_fails by assumption. unfold ret.
  eexists. 
  destruct (get_master_meta_from_rows_written remote Hok Hmem spreadsheet_id
              meta_sheet tab_name new_col row_idx meta_rows Hd Hnd ∅
              (tr ++ [Call (ValuesUpdate spreadsheet_id
                              (mk_range meta_sheet ("B" ++ pretty row_idx))
                              RAW [[new_col]])
                        (remote tr (ValuesUpdate spreadsheet_id
                              (mk_range meta_sheet ("B" ++ pretty row_idx))
                              RAW [[new_col]]))]))
    as (m & tr2 & E & L).
  { apply written_after_write.
    destruct (remote tr _) eqn:Er; try reflexivity.
    now destruct (Hok _ _ _ Er). }
  exists m, tr2. split; [reflexivity|].
  unfold Update.get_master_meta_map.
  destruct meta_rows as [|p rest]; [discriminate|].
  split; [exact E|]. split; [exact L|].
  intros Haz. rewrite L, (strip_all_AZ _ Haz), (upper_all_AZ _ Haz).
  reflexivity.
Qed.

Lemma memory_grid_never_fails : never_fails memory_grid.
Proof.
  intros tr req e. destruct req; simpl; try discriminate.
  destruct (written _ _ _); discriminate.
Qed.

Lemma memory_grid_reads_back : reads_back memory_grid.
Proof. intros tr sid rng opt values H. simpl. now rewrite H. Qed.

Lemma metadata_written_is_read_back_witness :
  exists tr1 m tr2,
    Update.update_master_meta memory_grid "ledger" "Master_Meta" "A1:B10"
      [("Prices"%string, 2); ("Jobs"%string, 3)] "Jobs" "K" [] = (Ok tt, tr1) ∧
    Update.get_master_meta_map memory_grid "ledger" "Master_Meta" "A1:B10"
      [("Prices"%string, 2); ("Jobs"%string, 3)] tr1 = (Ok m, tr2) ∧
    m !! "Jobs"%string = Some (upper (strip "K")) ∧
    (all_AZ "K" = true -> m !! "Jobs"%string = Some "K"%string).
Proof.
  apply (metadata_written_is_read_back memory_grid "ledger" "Master_Meta"
           "A1:B10" [("Prices"%string, 2); ("Jobs"%string, 3)] "Jobs" "K" 3 []).
  - exact memory_grid_never_fails.
  - exact memory_grid_reads_back.
  - reflexivity.
  - apply NoDup_cons. split; [|apply NoDup_singleton].
    intros H. apply list_elem_of_singleton in H. discriminate.
Defined.

(** ** The sheet list *)

Lemma add_sheet_other (title : string) (sheet : sheet_entry)
  (m : gmap string sheet_props) :
  titled title sheet = false -> add_sheet m sheet !! title = m !! title.
Proof.
  unfold titled, add_sheet. destruct (se_title sheet) as [t|]; [|reflexivity].
  destruct (nonempty t); simpl; [|reflexivity].
  intros H. apply String.eqb_neq in H. now rewrite lookup_insert_ne.
Qed.

Lemma add_sheet_titled (title : string) (sheet : sheet_entry)
  (m : gmap string sheet_props) :
  titled title sheet = true ->
  add_sheet m sheet !! title =
  Some (mk_props (default 0 (se_sheetId sheet)) (default 0 (se_rowCount sheet))
                 (default 0 (se_columnCount sheet))).
Proof.
  unfold titled, add_sheet. destruct (se_title sheet) as [t|]; [|discriminate].
  intros H. apply andb_prop in H as [Hne Ht]. apply String.eqb_eq in Ht.
  subst t. rewrite Hne. simpl. apply lookup_insert_eq.
Qed.

Lemma fold_add_sheet_other (title : string) (sheets : list sheet_entry) :
  Forall (fun s => titled title s = false) sheets ->
  forall m, fold_left add_sheet sheets m !! title = m !! title.
Proof.
  induction sheets as [|s rest IH]; intros H m; [reflexivity|].
  inversion H as [|? ? Hs Hrest]; subst. simpl.
  rewrite IH by assumption. now apply add_sheet_other.
Qed.

Lemma titled_empty (sheet : sheet_entry) : titled EmptyString sheet = false.
Proof.
  unfold titled. destruct (se_title sheet) as [[|c t]|]; reflexivity.
Qed.

(** X11. The map [get_sheet_properties_map] builds from a sheet list has
    no entry for the empty title nor for a title no sheet carries, and
    under a title it holds the properties of the last sheet of that
    title, each missing number read as 0. *)
Theorem get_sheet_properties_map_lookup (remote : trace -> request -> reply)
  (spreadsheet_id : string) (tr : trace) (sheets : list sheet_entry) :
  remote tr (SpreadsheetsGet spreadsheet_id) = Sheets sheets ->
  exists m,
    get_sheet_properties_map remote spreadsheet_id tr =
    (Ok m, tr ++ [Call (SpreadsheetsGet spreadsheet_id) (Sheets sheets)]) ∧
    m !! EmptyString = None ∧
    (forall title,
        Forall (fun s => titled title s = false) sheets -> m !! title = None) ∧
    (forall title before sheet after,
        sheets = before ++ sheet :: after ->
        titled title sheet = true ->
        Forall (fun s => titled title s = false) after ->
        m !! title =
        Some (mk_props (default 0 (se_sheetId sheet))
                       (default 0 (se_rowCount sheet))
                       (default 0 (se_columnCount sheet)))).
Proof.
  intros Hrep. exists (fold_left add_sheet sheets ∅).
  split; [|split; [|split]].
  - unfold get_sheet_properties_map, bind.
    rewrite exec_request_ok by (now rewrite Hrep).
    now rewrite Hrep.
  - rewrite fold_add_sheet_other; [apply lookup_empty|].
    apply Forall_forall. intros s _. apply titled_empty.
  - intros title H. rewrite fold_add_sheet_other by assumption.
    apply lookup_empty.
  - intros title before sheet after -> Ht Hafter.
    rewrite fold_left_app. simpl.
    rewrite fold_add_sheet_other by assumption.
    now apply add_sheet_titled.
Qed.

Lemma get_sheet_properties_map_lookup_witness :
  exists m,
    get_sheet_properties_map flaky_source_grid "ledger" [] =
    (Ok m,
     [] ++ [Call (SpreadsheetsGet "ledger")
              (Sheets [mk_sheet_entry (Some "Staging"%string) (Some 11)
                                      (Some 100) (Some 26)])]) ∧
    m !! "Staging"%string = Some (mk_props 11 100 26).
Proof.
  destruct (get_sheet_properties_map_lookup flaky_source_grid "ledger" []
              [mk_sheet_entry (Some "Staging"%string) (Some 11) (Some 100)
                              (Some 26)] eq_refl)
    as (m & E & _ & _ & H).
  exists m. split; [exact E|].
  apply (H "Staging"%string []
           (mk_sheet_entry (Some "Staging"%string) (Some 11) (Some 100)
                           (Some 26)) []); [reflexivity | reflexivity |].
  constructor.
Defined.

(** ** The append engine, further *)

(** X12. A ledger tab without data rows (an effective row count of 1 or
    less) is left alone: the step of the update job for it prints its
    [SKIP] line, issues no request, and leaves the metadata as it is. *)
Theorem master_tab_without_rows_is_skipped
  (remote : trace -> request -> reply) (env : update_env) (cfg : config)
  (props : sheet_props) (props_map : gmap string sheet_props)
  (master_meta : gmap string string) (tab_name last_date_col : string)
  (tr : trace) :
  props_map !! tab_name = Some props ->
  master_meta !! tab_name = Some last_date_col ->
  last_date_col <> EmptyString ->
  MASTER_ONLY_TAB env = EmptyString ∨ MASTER_ONLY_TAB env = tab_name ->
  effective_row_count (rowCount props) (master_max_rows cfg) <= 1 ->
  Update.update_master_tab remote env (target_sheet_id cfg) tab_name
    last_date_col (sheetId props) (rowCount props) (columnCount props)
    (master_max_rows cfg) (master_chunk_size cfg) tr =
  (Ok last_date_col, tr ++ [Print (SkipNoDataRows tab_name)]) ∧
  Update.master_tab remote env cfg props_map master_meta tab_name tr =
  (Ok tt, tr ++ [Print (SkipNoDataRows tab_name)]).
Proof.
  intros Hp Hm Hne Honly Heff.
  assert (Happ :
            Update.update_master_tab remote env (target_sheet_id cfg) tab_name
              last_date_col (sheetId props) (rowCount props)
              (columnCount props) (master_max_rows cfg)
              (master_chunk_size cfg) tr =
            (Ok last_date_col, tr ++ [Print (SkipNoDataRows tab_name)])).
  { unfold Update.update_master_tab.
    apply Z.leb_le in Heff. rewrite Heff. reflexivity. }
  split; [exact Happ|].
  unfold Update.master_tab. rewrite Hp, Hm.
  assert (Hgo : nonempty (MASTER_ONLY_TAB env)
                && negb (String.eqb tab_name (MASTER_ONLY_TAB env)) = false).
  { destruct Honly as [-> | ->]; [reflexivity|].
    rewrite String.eqb_refl. apply andb_false_r. }
  rewrite Hgo. destruct last_date_col as [|c s]; [congruence|].
  unfold bind. rewrite Happ. now rewrite String.eqb_refl.
Qed.

Lemma master_tab_without_rows_is_skipped_witness :
  Update.update_master_tab sample_grid sample_update_env
    (target_sheet_id sample_config) "Prices" "J" 7 1 10
    (master_max_rows sample_config) (master_chunk_size sample_config) [] =
  (Ok "J"%string, [] ++ [Print (SkipNoDataRows "Prices")]) ∧
  Update.master_tab sample_grid sample_update_env sample_config
    {["Prices"%string := mk_props 7 1 10]} {["Prices"%string := "J"%string]}
    "Prices" [] =
  (Ok tt, [] ++ [Print (SkipNoDataRows "Prices")]).
Proof.
  apply (master_tab_without_rows_is_skipped sample_grid sample_update_env
           sample_config (mk_props 7 1 10));
    [reflexivity | reflexivity | discriminate | left; reflexivity
    | vm_compute; discriminate].
Defined.

Lemma chunk_rows_bounds (chunk end_row row : Z) (se : Z * Z) :
  1 <= chunk -> In se (chunk_rows chunk end_row row) ->
  row + 1 <= fst se /\ fst se <= snd se /\ snd se <= end_row /\
  snd se - fst se + 1 <= chunk.
Proof.
  intros Hc. unfold chunk_rows. rewrite in_map_iff.
  intros (i & <- & Hi). apply in_seq in Hi. simpl.
  assert (Hq : Z.of_nat i + 1 <= (end_row - row + chunk - 1) / chunk)
    by (unfold chunk_count in Hi; lia).
  assert (Hm : chunk * ((end_row - row + chunk - 1) / chunk)
               <= end_row - row + chunk - 1)
    by (apply Z.mul_div_le; lia).
  assert (Z.of_nat i * chunk + 1 <= end_row - row) by nia.
  lia.
Qed.

Section AppendFootprint.
Variable remote : trace -> request -> reply.
Variable env : update_env.

Lemma copy_chunk_footprint
  (spreadsheet_id tab_name prev_col new_col : string)
  (sheet_id column_count new_col_index effective_rows chunk : Z)
  (row chunk_end : Z) :
  1 <= row -> row + 1 <= chunk_end -> chunk_end <= effective_rows ->
  chunk_end - row <= chunk ->
  emits_only
    (append_event env spreadsheet_id tab_name sheet_id column_count prev_col
       new_col new_col_index effective_rows chunk)
    (Update.copy_chunk remote env spreadsheet_id tab_name prev_col new_col
       row chunk_end).
Proof.
  intros H1 H2 H3 H4.
  assert (Hspan : exists first last,
             (prev_col ++ pretty (row + 1) ++ ":" ++ prev_col
              ++ pretty chunk_end)%string = column_rows prev_col first last /\
             2 <= first <= last /\ last <= effective_rows /\
             last - first + 1 <= chunk).
  { exists (row + 1), chunk_end. split; [reflexivity | lia]. }
  unfold Update.copy_chunk.
  apply emits_only_bind;
    [apply emits_only_exec; intros rep; simpl; auto 10|].
  intros response. apply emits_only_bind.
  - destruct (get_values response); [apply emits_only_ret|].
    apply emits_only_bind; [|intros; apply emits_only_ret].
    apply emits_only_exec. intros rep. simpl.
    split; [reflexivity|]. split; [reflexivity|]. right. left.
    split; [reflexivity|]. exists (row + 1). split; [reflexivity | lia].
  - intros _. destruct (MASTER_FREEZE_VALUES env) eqn:Efr;
      [|apply emits_only_ret].
    apply emits_only_bind;
      [apply emits_only_exec; intros rep; simpl; auto 10|].
    intros response'. destruct (get_values response');
      [apply emits_only_ret|].
    apply emits_only_bind; [|intros; apply emits_only_ret].
    apply emits_only_exec. intros rep. simpl.
    split; [reflexivity|]. split; [reflexivity|]. right. right.
    split; [reflexivity|]. split; [exact Efr|].
    exists (row + 1). split; [reflexivity | lia].
Qed.
End AppendFootprint.

Lemma update_master_tab_emits (remote : trace -> request -> reply)
  (env : update_env) (spreadsheet_id tab_name last_date_col : string)
  (sheet_id row_count column_count max_rows chunk_size : Z) :
  emits_only
    (append_event env spreadsheet_id tab_name sheet_id column_count
       (col_to_a1 (a1_to_col last_date_col))
       (col_to_a1 (a1_to_col last_date_col + 1))
       (a1_to_col last_date_col + 1)
       (effective_row_count row_count max_rows) (Z.max 1 chunk_size))
    (Update.update_master_tab remote env spreadsheet_id tab_name last_date_col
       sheet_id row_count column_count max_rows chunk_size).
Proof.
  destruct (Z_le_gt_dec (effective_row_count row_count max_rows) 1)
    as [Hle | Hgt].
  - unfold Update.update_master_tab. apply Z.leb_le in Hle. rewrite Hle.
    apply emits_only_bind; [apply emits_only_print; reflexivity|].
    intros _. apply emits_only_ret.
  - intros tr. rewrite update_master_tab_chunks by lia. revert tr.
    apply emits_only_bind.
    + unfold append_prologue. apply emits_only_bind.
      * destruct (column_count <? a1_to_col last_date_col + 1) eqn:E;
          [|apply emits_only_ret].
        apply Z.ltb_lt in E.
        apply emits_only_bind; [|intros; apply emits_only_ret].
        apply emits_only_exec. intros rep. simpl. auto.
      * intros _. apply emits_only_bind; [|intros; apply emits_only_ret].
        apply emits_only_exec. intros rep. simpl. auto 10.
    + intros _. apply emits_only_bind; [|intros; apply emits_only_ret].
      apply emits_only_for_each. intros se Hin.
      apply chunk_rows_bounds in Hin as (Ha & Hb & Hc & Hd); [|lia].
      apply copy_chunk_footprint; lia.
Qed.

(** X13. Whatever the grid answers, the append on a tab puts on the trace
    only events of [append_event]: requests on its own tab of its own
    spreadsheet, no clearing and no copy-paste; the structural update
    only when the new column lies beyond the grid; chunk reads of the
    previous column within the data rows and at most one chunk long; the
    header and re-evaluated formulas into the new column; and literal
    values into the previous column, or reads of computed values, only
    when freezing is on. *)
Theorem update_master_tab_footprint (remote : trace -> request -> reply)
  (env : update_env) (spreadsheet_id tab_name last_date_col : string)
  (sheet_id row_count column_count max_rows chunk_size : Z) :
  emits_only
    (append_event env spreadsheet_id tab_name sheet_id column_count
       (col_to_a1 (a1_to_col last_date_col))
       (col_to_a1 (a1_to_col last_date_col + 1))
       (a1_to_col last_date_col + 1)
       (effective_row_count row_count max_rows) (Z.max 1 chunk_size))
    (Update.update_master_tab remote env spreadsheet_id tab_name last_date_col
       sheet_id row_count column_count max_rows chunk_size).
Proof.
  apply update_master_tab_emits.
Qed.

(** ** The extraction step *)

(** X14. When the read of the chosen source file fails, the extraction
    step never touches the target tab: the read is the only request it
    issues.  After an HTTP error it prints a [SKIP] line and goes on to
    the next mapping; any other failure is raised. *)
Theorem failed_source_read_leaves_target_untouched
  (remote : trace -> request -> reply) (cfg : config)
  (files : list file_info) (props_map : gmap string sheet_props)
  (mp : mapping) (props : sheet_props) (latest : file_info) (tr : trace)
  (e : remote_error) :
  props_map !! m_target_tab mp = Some props ->
  select_latest_file files (m_prefix mp) (m_exclude_prefixes mp)
  = Ok (Some latest) ->
  remote tr (source_read cfg latest) = Failed e ->
  Update.extract_mapping remote cfg files props_map mp tr =
  match e with
  | RemoteHttpError status =>
      (Ok tt, tr ++ [Call (source_read cfg latest) (Failed e);
                     Print (SkipReadFailed (m_prefix mp) (HttpError status))])
  | RemoteTransportError =>
      (Raise TransportError, tr ++ [Call (source_read cfg latest) (Failed e)])
  end.
Proof.
  unfold source_read. intros Hp Hsel Hread. unfold Update.extract_mapping.
  rewrite Hp, Hsel.
  cbv [bind lift try_except Update.read_source_values exec_request].
  rewrite Hread. destruct e as [status|]; simpl.
  - now rewrite <- app_assoc.
  - reflexivity.
Qed.

Lemma failed_source_read_leaves_target_untouched_witness :
  Update.extract_mapping flaky_source_grid sample_config
    [mk_file "src1" (Some "saramin_241202"%string) None None]
    {["Staging"%string := mk_props 11 100 26]}
    (mk_mapping "saramin_" "Staging" []) [] =
  (Ok tt,
   [] ++ [Call (ValuesGet "src1" (mk_range "Sheet1" "A1:Z") None)
            (Failed (RemoteHttpError 503));
          Print (SkipReadFailed "saramin_" (HttpError 503))]).
Proof.
  apply (failed_source_read_leaves_target_untouched flaky_source_grid
           sample_config
           [mk_file "src1" (Some "saramin_241202"%string) None None]
           {["Staging"%string := mk_props 11 100 26]}
           (mk_mapping "saramin_" "Staging" [])
           (mk_props 11 100 26)
           (mk_file "src1" (Some "saramin_241202"%string) None None) []
           (RemoteHttpError 503));
    reflexivity.
Defined.

(** X15. When the read of the chosen source file succeeds, the extraction
    step clears the target range of the target tab and then, only if the
    clearing went through and there are rows, writes exactly the rows it
    read, as literal values, at the top-left cell of the target tab.  A
    failed clearing or a failed write is raised, and nothing follows
    it. *)
Theorem extraction_writes_what_it_read
  (remote : trace -> request -> reply) (cfg : config)
  (files : list file_info) (props_map : gmap string sheet_props)
  (mp : mapping) (props : sheet_props) (latest : file_info) (tr : trace)
  (values : rows) :
  props_map !! m_target_tab mp = Some props ->
  select_latest_file files (m_prefix mp) (m_exclude_prefixes mp)
  = Ok (Some latest) ->
  remote tr (source_read cfg latest) = Values values ->
  let tr1 := tr ++ [Call (source_read cfg latest) (Values values)] in
  let cleared := remote tr1 (target_clear cfg mp) in
  let tr2 := tr1 ++ [Call (target_clear cfg mp) cleared] in
  let written := remote tr2 (target_write cfg mp values) in
  Update.extract_mapping remote cfg files props_map mp tr =
  match cleared with
  | Failed e => (Raise (exn_of_remote e), tr2)
  | _ =>
      match values with
      | [] => (Ok tt, tr2)
      | _ :: _ =>
          (match written with
           | Failed e => Raise (exn_of_remote e)
           | _ => Ok tt
           end, tr2 ++ [Call (target_write cfg mp values) written])
      end
  end.
Proof.
  intros Hp Hsel Hread tr1 cleared tr2 written.
  unfold source_read, target_clear, target_write in *.
  unfold Update.extract_mapping.
  rewrite Hp, Hsel.
  cbv [bind lift try_except Update.read_source_values exec_request ret
       Update.clear_target_range Update.write_target_values].
  rewrite Hread. cbn [get_values]. fold tr1. fold cleared.
  subst written tr2.
  destruct cleared as [fs|ss|vs| |e]; try reflexivity;
    (destruct values as [|row rest]; [reflexivity|]); cbv beta iota;
    match goal with
    | |- context [remote ?t ?r] => destruct (remote t r); reflexivity
    end.
Qed.

Lemma extraction_writes_what_it_read_witness :
  Update.extract_mapping sample_grid sample_config
    [mk_file "src1" (Some "saramin_241202"%string) None None]
    {["Staging"%string := mk_props 11 100 26]}
    (mk_mapping "saramin_" "Staging" []) [] =
  (Ok tt,
   [Call (ValuesGet "src1" (mk_range "Sheet1" "A1:Z") None)
      (Values [["=B2*2"%string]]);
    Call (ValuesClear "ledger" (mk_range "Staging" "A1:Z")) Done;
    Call (ValuesUpdate "ledger" (mk_range "Staging" "A1") RAW
            [["=B2*2"%string]]) Done]).
Proof.
  apply (extraction_writes_what_it_read sample_grid sample_config
           [mk_file "src1" (Some "saramin_241202"%string) None None]
           {["Staging"%string := mk_props 11 100 26]}
           (mk_mapping "saramin_" "Staging" [])
           (mk_props 11 100 26)
           (mk_file "src1" (Some "saramin_241202"%string) None None) []
           [["=B2*2"%string]]);
    reflexivity.
Defined.

Lemma select_latest_file_none (files : list file_info) (prefix : string)
  (exclude_prefixes : list string) :
  Forall (fun f => is_candidate prefix exclude_prefixes f = false) files ->
  select_latest_file files prefix exclude_prefixes = Ok None.
Proof.
  intros H. unfold select_latest_file.
  assert (E : List.filter (is_candidate prefix exclude_prefixes) files = []).
  { induction H as [|f rest Hf _ IH]; [reflexivity|].
    simpl. now rewrite Hf. }
  now rewrite E.
Qed.

(** X16. A mapping without a source leaves its target tab untouched: when
    no file of the listing has a name that starts with the prefix and
    with no excluded prefix, the extraction step prints its [SKIP] line
    and issues no request; and when the choice among the candidates
    raises, the step raises the same exception before any request. *)
Theorem extraction_without_source_leaves_target_untouched
  (remote : trace -> request -> reply) (cfg : config)
  (files : list file_info) (props_map : gmap string sheet_props)
  (mp : mapping) (props : sheet_props) (tr : trace) :
  props_map !! m_target_tab mp = Some props ->
  (Forall (fun f =>
             is_candidate (m_prefix mp) (m_exclude_prefixes mp) f = false)
          files ->
   Update.extract_mapping remote cfg files props_map mp tr =
   (Ok tt, tr ++ [Print (SkipNoFile (m_prefix mp))])) ∧
  (forall e,
      select_latest_file files (m_prefix mp) (m_exclude_prefixes mp)
      = Raise e ->
      Update.extract_mapping remote cfg files props_map mp tr
      = (Raise e, tr)).
Proof.
  intros Hp. split.
  - intros Hnone. unfold Update.extract_mapping.
    rewrite Hp, select_latest_file_none by assumption. reflexivity.
  - intros e He. unfold Update.extract_mapping. rewrite Hp, He. reflexivity.
Qed.

Lemma extraction_without_source_leaves_target_untouched_witness :
  Update.extract_mapping sample_grid sample_config
    [mk_file "1" (Some "jobkorea_241203"%string) None None]
    {["Staging"%string := mk_props 11 100 26]}
    (mk_mapping "saramin_" "Staging" []) [] =
  (Ok tt, [] ++ [Print (SkipNoFile "saramin_")]).
Proof.
  apply (extraction_without_source_leaves_target_untouched sample_grid
           sample_config
           [mk_file "1" (Some "jobkorea_241203"%string) None None]
           {["Staging"%string := mk_props 11 100 26]}
           (mk_mapping "saramin_" "Staging" []) (mk_props 11 100 26) []);
    [reflexivity | repeat constructor].
Defined.

(** ** The freeze engine, further *)

Lemma a1_to_col_nonneg (label : string) : 0 <= a1_to_col label.
Proof. unfold a1_to_col. apply a1_to_col_loop_ge. lia. Qed.

Lemma a1_to_col_col_to_a1 (n : Z) : 0 <= n -> a1_to_col (col_to_a1 n) = n.
Proof.
  intros Hn. unfold a1_to_col.
  rewrite upper_all_AZ by apply col_to_a1_all_AZ.
  now apply a1_to_col_loop_col_to_a1.
Qed.

Lemma freeze_tab_emits (remote : trace -> request -> reply) (cfg : config)
  (props : sheet_props) (props_map : gmap string sheet_props)
  (meta_map : gmap string string) (tab_name last_col : string) :
  props_map !! tab_name = Some props ->
  meta_map !! tab_name = Some last_col ->
  emits_only
    (paste_event (target_sheet_id cfg) (sheetId props)
       (a1_to_col last_col - 2)
       (effective_row_count (rowCount props) (master_max_rows cfg))
       (Z.max 1 (master_freeze_chunk_size cfg)))
    (Freeze.freeze_tab remote cfg props_map meta_map tab_name).
Proof.
  intros Hp Hm. unfold Freeze.freeze_tab. rewrite Hp, Hm.
  destruct last_col as [|c s]; [apply emits_only_raise|].
  destruct (a1_to_col (String c s) - 1 <? 1) eqn:Eprev;
    [apply emits_only_print; reflexivity|].
  apply Z.ltb_ge in Eprev.
  destruct (effective_row_count (rowCount props) (master_max_rows cfg) <=? 1);
    [apply emits_only_print; reflexivity|].
  intros tr. rewrite chunk_loop_for_each. revert tr.
  apply emits_only_for_each. intros se Hin.
  apply chunk_rows_bounds in Hin as (Ha & Hb & Hc & Hd); [|lia].
  unfold Freeze.freeze_column_values.
  apply emits_only_bind; [|intros; apply emits_only_ret].
  apply emits_only_exec. intros rep. simpl.
  repeat split; lia.
Qed.

(** X17. Whatever the grid answers, the freeze of a tab issues nothing but
    copy-pastes of values within the tab's own sheet, one column wide, at
    the column before the one the metadata names (zero-based index
    [a1_to_col last_col - 2]); the rows pasted lie below the header row
    and within the effective row count, at most one chunk at a time. *)
Theorem freeze_tab_pastes_previous_column
  (remote : trace -> request -> reply) (cfg : config)
  (props : sheet_props) (props_map : gmap string sheet_props)
  (meta_map : gmap string string) (tab_name last_col : string) :
  props_map !! tab_name = Some props ->
  meta_map !! tab_name = Some last_col ->
  emits_only
    (paste_event (target_sheet_id cfg) (sheetId props)
       (a1_to_col last_col - 2)
       (effective_row_count (rowCount props) (master_max_rows cfg))
       (Z.max 1 (master_freeze_chunk_size cfg)))
    (Freeze.freeze_tab remote cfg props_map meta_map tab_name).
Proof.
  apply freeze_tab_emits.
Qed.

Lemma freeze_tab_pastes_previous_column_witness :
  emits_only (paste_event "ledger" 7 9 5000 2000)
    (Freeze.freeze_tab sample_grid sample_config
       {["Prices"%string := mk_props 7 6000 12]}
       {["Prices"%string := "K"%string]} "Prices").
Proof.
  apply (freeze_tab_pastes_previous_column sample_grid sample_config
           (mk_props 7 6000 12) {["Prices"%string := mk_props 7 6000 12]}
           {["Prices"%string := "K"%string]} "Prices" "K");
    reflexivity.
Defined.

Lemma freeze_tab_requests (remote : trace -> request -> reply) (cfg : config)
  (props : sheet_props) (props_map : gmap string sheet_props)
  (meta_map : gmap string string) (tab_name last_col : string) (tr : trace) :
  never_fails remote ->
  props_map !! tab_name = Some props ->
  meta_map !! tab_name = Some last_col ->
  2 <= a1_to_col last_col ->
  1 < effective_row_count (rowCount props) (master_max_rows cfg) ->
  exists evs,
    Freeze.freeze_tab remote cfg props_map meta_map tab_name tr
    = (Ok tt, tr ++ evs) /\
    requests evs =
    map (fun se =>
           CopyPasteValues (target_sheet_id cfg) (sheetId props)
             (fst se - 1) (snd se)
             (a1_to_col last_col - 2) (a1_to_col last_col - 2 + 1))
        (chunk_rows (Z.max 1 (master_freeze_chunk_size cfg))
           (effective_row_count (rowCount props) (master_max_rows cfg)) 1).
Proof.
  intros Hok Hp Hm Hcol Heff.
  rewrite (freeze_tab_chunks remote cfg props props_map meta_map tab_name
             last_col tr Hp Hm Hcol Heff).
  rewrite map_as_flat_map.
  assert (Hrun :
            yields request_of (fun _ => True)
              (flat_map
                 (fun se =>
                    [CopyPasteValues (target_sheet_id cfg) (sheetId props)
                       (fst se - 1) (snd se)
                       (a1_to_col last_col - 2) (a1_to_col last_col - 2 + 1)])
                 (chunk_rows (Z.max 1 (master_freeze_chunk_size cfg))
                    (effective_row_count (rowCount props)
                       (master_max_rows cfg)) 1))
              (for_each
                 (chunk_rows (Z.max 1 (master_freeze_chunk_size cfg))
                    (effective_row_count (rowCount props)
                       (master_max_rows cfg)) 1)
                 (fun se =>
                    Freeze.freeze_column_values remote (target_sheet_id cfg)
                      (sheetId props) (a1_to_col last_col - 2)
                      (fst se - 1) (snd se)))).
  { apply yields_for_each. intros se. unfold Freeze.freeze_column_values.
    eapply yields_bind_l with (Q1 := fun _ => True);
      [apply yields_exec; [assumption | reflexivity] |].
    intros; now apply yields_ret. }
  destruct (Hrun tr) as ([] & evs & E & _ & R).
  exists evs. split; assumption.
Qed.

(** X18. The two jobs fit together: when the metadata of a tab holds the
    label the append returned for [last_date_col], the freeze of the tab
    pastes the column the append read its formulas from, the one with
    label [col_to_a1 (a1_to_col last_date_col)], whose zero-based index is
    [a1_to_col last_date_col - 1].  It issues nothing else, whatever the
    grid answers; and when no call fails, [last_date_col] names a column
    and the tab has data rows, it does paste that column: it returns
    after one copy-paste per chunk of the data rows, in row order, and
    there is at least one. *)
Theorem freeze_pastes_the_column_the_append_read
  (remote : trace -> request -> reply) (cfg : config)
  (props : sheet_props) (props_map : gmap string sheet_props)
  (meta_map : gmap string string) (tab_name last_date_col : string) :
  props_map !! tab_name = Some props ->
  meta_map !! tab_name = Some (col_to_a1 (a1_to_col last_date_col + 1)) ->
  emits_only
    (paste_event (target_sheet_id cfg) (sheetId props)
       (a1_to_col (col_to_a1 (a1_to_col last_date_col)) - 1)
       (effective_row_count (rowCount props) (master_max_rows cfg))
       (Z.max 1 (master_freeze_chunk_size cfg)))
    (Freeze.freeze_tab remote cfg props_map meta_map tab_name) ∧
  (never_fails remote ->
   1 <= a1_to_col last_date_col ->
   1 < effective_row_count (rowCount props) (master_max_rows cfg) ->
   chunk_rows (Z.max 1 (master_freeze_chunk_size cfg))
     (effective_row_count (rowCount props) (master_max_rows cfg)) 1 <> [] ∧
   forall tr, exists evs,
     Freeze.freeze_tab remote cfg props_map meta_map tab_name tr
     = (Ok tt, tr ++ evs) ∧
     requests evs =
     map (fun se =>
            CopyPasteValues (target_sheet_id cfg) (sheetId props)
              (fst se - 1) (snd se)
              (a1_to_col (col_to_a1 (a1_to_col last_date_col)) - 1)
              (a1_to_col (col_to_a1 (a1_to_col last_date_col))))
         (chunk_rows (Z.max 1 (master_freeze_chunk_size cfg))
            (effective_row_count (rowCount props) (master_max_rows cfg)) 1)).
Proof.
  intros Hp Hm.
  pose proof (a1_to_col_nonneg last_date_col) as Hge.
  split.
  - pose proof (freeze_tab_emits remote cfg props props_map meta_map tab_name
                  _ Hp Hm) as H.
    rewrite a1_to_col_col_to_a1 in H by lia.
    rewrite a1_to_col_col_to_a1 by lia.
    replace (a1_to_col last_date_col + 1 - 2)
      with (a1_to_col last_date_col - 1) in H by lia.
    exact H.
  - intros Hok Hcol Heff. split.
    + rewrite chunk_rows_step by lia. discriminate.
    + intros tr.
      destruct (freeze_tab_requests remote cfg props props_map meta_map
                  tab_name _ tr Hok Hp Hm) as (evs & E & R);
        [rewrite a1_to_col_col_to_a1 by lia; lia | exact Heff |].
      exists evs. split; [exact E|].
      rewrite R, !a1_to_col_col_to_a1 by lia.
      apply map_ext. intros se. f_equal; lia.
Qed.

Lemma freeze_pastes_the_column_the_append_read_witness :
  emits_only (paste_event "ledger" 7 9 50 20)
    (Freeze.freeze_tab sample_grid
       (mk_config "drive" "ledger" "Sheet1" "A1:Z" "A1:Z" []
          ["Prices"%string] "Master_Meta" "A1:B10" 5000 500 20
          [("Prices"%string, 2)] ∅)
       {["Prices"%string := mk_props 7 50 12]}
       {["Prices"%string := "K"%string]} "Prices") ∧
  exists evs,
    Freeze.freeze_tab sample_grid
      (mk_config "drive" "ledger" "Sheet1" "A1:Z" "A1:Z" []
         ["Prices"%string] "Master_Meta" "A1:B10" 5000 500 20
         [("Prices"%string, 2)] ∅)
      {["Prices"%string := mk_props 7 50 12]}
      {["Prices"%string := "K"%string]} "Prices" []
    = (Ok tt, [] ++ evs) ∧
    requests evs =
    [CopyPasteValues "ledger" 7 1 21 9 10;
     CopyPasteValues "ledger" 7 21 41 9 10;
     CopyPasteValues "ledger" 7 41 50 9 10].
Proof.
  destruct (freeze_pastes_the_column_the_append_read sample_grid
              (mk_config "drive" "ledger" "Sheet1" "A1:Z" "A1:Z" []
                 ["Prices"%string] "Master_Meta" "A1:B10" 5000 500 20
                 [("Prices"%string, 2)] ∅)
              (mk_props 7 50 12) {["Prices"%string := mk_props 7 50 12]}
              {["Prices"%string := "K"%string]} "Prices" "J")
    as [Hsafe Hlive]; [reflexivity | reflexivity |].
  split; [exact Hsafe|].
  destruct Hlive as [_ Hrun];
    [apply sample_grid_never_fails | vm_compute; discriminate
    | vm_compute; reflexivity |].
  exact (Hrun []).
Defined.

(** ** What a whole run may do *)

Lemma dict_get_In {V} (k : string) (d : list (string * V)) (v : V) :
  dict_get k d = Some v -> In (k, v) d.
Proof.
  induction d as [|[k' v'] rest IH]; simpl; [discriminate|].
  destruct (String.eqb k' k) eqn:E.
  - apply String.eqb_eq in E. intros [= ->]. left. now subst.
  - intros H. right. now apply IH.
Qed.

Section RunFootprints.
Variable remote : trace -> request -> reply.

Lemma get_sheet_properties_map_emits (P : event -> Prop)
  (spreadsheet_id : string) :
  (forall rep, P (Call (SpreadsheetsGet spreadsheet_id) rep)) ->
  emits_only P (get_sheet_properties_map remote spreadsheet_id).
Proof.
  intros HP. unfold get_sheet_properties_map.
  apply emits_only_bind; [now apply emits_only_exec|].
  intros response. apply emits_only_ret.
Qed.

Lemma get_master_meta_from_rows_emits (P : event -> Prop)
  (spreadsheet_id meta_sheet : string) (meta_rows : list (string * Z)) :
  (forall tab row rep, In (tab, row) meta_rows ->
     P (Call (ValuesGet spreadsheet_id
                (mk_range meta_sheet ("B" ++ pretty row))
                (Some UNFORMATTED_VALUE)) rep)) ->
  forall result,
    emits_only P
      (get_master_meta_from_rows remote spreadsheet_id meta_sheet meta_rows
         result).
Proof.
  induction meta_rows as [|[tab row] rest IH]; intros HP result; simpl.
  - apply emits_only_ret.
  - apply emits_only_bind.
    + apply emits_only_exec. intros rep. apply (HP tab row). now left.
    + intros response. apply IH. intros tab' row' rep Hin.
      apply (HP tab' row'). now right.
Qed.

Section UpdateJob.
Variable env : update_env.
Variable cfg : config.

Lemma get_master_meta_map_emits :
  emits_only (ledger_event env cfg)
    (Update.get_master_meta_map remote (target_sheet_id cfg)
       (master_meta_sheet cfg) (master_meta_range cfg)
       (master_meta_rows cfg)).
Proof.
  unfold Update.get_master_meta_map.
  destruct (master_meta_rows cfg) as [|entry rest] eqn:E.
  - apply emits_only_bind; [|intros; apply emits_only_ret].
    apply emits_only_exec. intros rep. simpl. split; [reflexivity|].
    now left.
  - apply get_master_meta_from_rows_emits. intros tab row rep _. simpl.
    split; [reflexivity|]. now left.
Qed.

Lemma update_meta_scan_emits (tab_name new_col : string) (table : rows) :
  forall idx,
    emits_only (ledger_event env cfg)
      (Update.update_meta_scan remote (target_sheet_id cfg)
         (master_meta_sheet cfg) tab_name new_col table idx).
Proof.
  induction table as [|row rest IH]; intros idx; simpl.
  - apply emits_only_ret.
  - destruct row as [|c0 cells]; [apply IH|].
    destruct (String.eqb (strip c0) tab_name); [|apply IH].
    apply emits_only_bind; [|intros; apply emits_only_ret].
    apply emits_only_exec. intros rep. simpl. split; [reflexivity|].
    now left.
Qed.

Lemma update_master_meta_emits (tab_name new_col : string) :
  emits_only (ledger_event env cfg)
    (Update.update_master_meta remote (target_sheet_id cfg)
       (master_meta_sheet cfg) (master_meta_range cfg)
       (master_meta_rows cfg) tab_name new_col).
Proof.
  unfold Update.update_master_meta.
  destruct (dict_get tab_name (master_meta_rows cfg)) as [row_idx|].
  - apply emits_only_bind; [|intros; apply emits_only_ret].
    apply emits_only_exec. intros rep. simpl. split; [reflexivity|].
    now left.
  - apply emits_only_bind; [|intros; apply update_meta_scan_emits].
    apply emits_only_exec. intros rep. simpl. split; [reflexivity|].
    now left.
Qed.

Lemma master_tab_emits (props_map : gmap string sheet_props)
  (master_meta : gmap string string) (tab_name : string) :
  In tab_name (master_tabs cfg) ->
  emits_only (ledger_event env cfg)
    (Update.master_tab remote env cfg props_map master_meta tab_name).
Proof.
  intros Hin. unfold Update.master_tab.
  destruct (nonempty (MASTER_ONLY_TAB env)
            && negb (String.eqb tab_name (MASTER_ONLY_TAB env))) eqn:Esel;
    [apply emits_only_ret|].
  assert (Hsel : MASTER_ONLY_TAB env = EmptyString
                 \/ tab_name = MASTER_ONLY_TAB env).
  { apply andb_false_iff in Esel as [Hne | Heq].
    - left. now destruct (MASTER_ONLY_TAB env).
    - right. apply negb_false_iff in Heq. now apply String.eqb_eq. }
  destruct (props_map !! tab_name) as [props|]; [|apply emits_only_raise].
  destruct (master_meta !! tab_name) as [[|c s]|];
    try apply emits_only_raise.
  apply emits_only_bind.
  - eapply emits_only_weaken; [|apply update_master_tab_emits].
    intros [[] rep|d|seconds]; simpl; try tauto.
    + intros (-> & -> & _). split; [reflexivity|]. right. now split.
    + intros (-> & -> & _). split; [reflexivity|]. right. now split.
    + now intros ->.
  - intros new_col.
    destruct (negb (String.eqb new_col (String c s)));
      [apply update_master_meta_emits | apply emits_only_ret].
Qed.

Lemma extract_mapping_emits (files : list file_info)
  (props_map : gmap string sheet_props) (mp : mapping) :
  In mp (mappings cfg) ->
  emits_only (extract_event cfg)
    (Update.extract_mapping remote cfg files props_map mp).
Proof.
  intros Hin. unfold Update.extract_mapping.
  destruct (props_map !! m_target_tab mp); [|apply emits_only_raise].
  apply emits_only_bind; [apply emits_only_lift|].
  intros [latest|]; [|apply emits_only_print; reflexivity].
  apply emits_only_bind.
  - apply emits_only_try_except.
    + unfold Update.read_source_values.
      apply emits_only_bind; [|intros; apply emits_only_ret].
      apply emits_only_bind; [|intros; apply emits_only_ret].
      apply emits_only_exec. intros rep. simpl. now split.
    + intros e h. destruct e; try discriminate. intros [= <-].
      apply emits_only_bind; [|intros; apply emits_only_ret].
      apply emits_only_print. reflexivity.
  - intros [values|]; [|apply emits_only_ret].
    apply emits_only_bind.
    + unfold Update.clear_target_range.
      apply emits_only_bind; [|intros; apply emits_only_ret].
      apply emits_only_exec. intros rep. simpl. split; [reflexivity|].
      now exists mp.
    + intros _. unfold Update.write_target_values.
      destruct values as [|row rest]; [apply emits_only_ret|].
      apply emits_only_bind; [|intros; apply emits_only_ret].
      apply emits_only_exec. intros rep. simpl.
      split; [reflexivity|]. split; [reflexivity|]. now exists mp.
Qed.

Lemma run_update_emits :
  emits_only (update_event env cfg) (Update.run_update remote env cfg).
Proof.
  unfold Update.run_update.
  apply emits_only_bind.
  { unfold Update.list_spreadsheets_recursive.
    apply emits_only_bind; [|intros; apply emits_only_ret].
    apply emits_only_exec. intros rep. reflexivity. }
  intros files. apply emits_only_bind.
  { apply get_sheet_properties_map_emits. intros rep. reflexivity. }
  intros props_map.
  assert (Hledger : forall ev,
             Update.run_mode_in env "both" "master" = true ->
             ledger_event env cfg ev -> update_event env cfg ev).
  { intros [[] rep|d|seconds] Hmode; simpl; try tauto. }
  assert (Hextract : forall ev,
             Update.run_mode_in env "both" "extract" = true ->
             extract_event cfg ev -> update_event env cfg ev).
  { intros [[] rep|d|seconds] Hmode; simpl; try tauto. }
  apply emits_only_bind.
  { destruct (Update.run_mode_in env "both" "master") eqn:Em;
      [|apply emits_only_ret].
    destruct (decide (master_meta_override cfg = ∅));
      [|apply emits_only_ret].
    eapply emits_only_weaken; [|apply get_master_meta_map_emits].
    intros ev. now apply Hledger. }
  intros master_meta. apply emits_only_bind.
  { destruct (Update.run_mode_in env "both" "extract") eqn:Ex;
      [|apply emits_only_ret].
    apply emits_only_for_each. intros mp Hin.
    eapply emits_only_weaken; [|now apply extract_mapping_emits].
    intros ev. now apply Hextract. }
  intros _.
  destruct (Update.run_mode_in env "both" "master") eqn:Em;
    [|apply emits_only_ret].
  apply emits_only_for_each. intros tab Hin.
  eapply emits_only_weaken; [|now apply master_tab_emits].
  intros ev. now apply Hledger.
Qed.
End UpdateJob.

Section FreezeJob.
Variable env : freeze_env.
Variable cfg : config.

Lemma freeze_tab_in_run (props_map : gmap string sheet_props)
  (meta_map : gmap string string) (tab_name : string) :
  emits_only (freeze_event env cfg)
    (Freeze.freeze_tab remote cfg props_map meta_map tab_name).
Proof.
  destruct (props_map !! tab_name) as [props|] eqn:Hp.
  - destruct (meta_map !! tab_name) as [last_col|] eqn:Hm.
    + eapply emits_only_weaken;
        [|exact (freeze_tab_emits remote cfg props props_map meta_map
                   tab_name last_col Hp Hm)].
      intros [[] rep|d|seconds]; simpl; try tauto.
      intros (-> & _ & -> & -> & H0 & H1 & H2 & _ & H3).
      repeat split; assumption.
    + unfold Freeze.freeze_tab. rewrite Hp, Hm. apply emits_only_raise.
  - unfold Freeze.freeze_tab. rewrite Hp. apply emits_only_raise.
Qed.

Lemma run_freeze_emits :
  emits_only (freeze_event env cfg) (Freeze.run_freeze remote env cfg).
Proof.
  unfold Freeze.run_freeze.
  destruct (master_meta_rows cfg) as [|entry rest] eqn:Erows;
    [apply emits_only_raise|].
  rewrite <- Erows.
  apply emits_only_bind.
  { apply get_sheet_properties_map_emits. intros rep. reflexivity. }
  intros props_map. apply emits_only_bind.
  - destruct (nonempty (FREEZE_LAST_COL env)) eqn:Elast.
    { destruct (if nonempty (FREEZE_ONLY_TAB env)
                then [FREEZE_ONLY_TAB env] else master_tabs cfg)
        as [|tab [|tab' tabs]];
        [apply emits_only_raise | apply emits_only_ret
        | apply emits_only_raise]. }
    assert (Hlast : FREEZE_LAST_COL env = EmptyString)
      by now destruct (FREEZE_LAST_COL env).
    destruct (nonempty (FREEZE_ONLY_TAB env)) eqn:Eonly.
    + destruct (dict_get (FREEZE_ONLY_TAB env) (master_meta_rows cfg))
        as [row_idx|] eqn:Eget; [|apply emits_only_raise].
      apply get_master_meta_from_rows_emits.
      intros tab row rep [[= <- <-]|[]]. simpl.
      repeat split; try assumption.
      exists (FREEZE_ONLY_TAB env), row_idx.
      split; [now apply dict_get_In|]. split; [now right | reflexivity].
    + assert (Honly : FREEZE_ONLY_TAB env = EmptyString)
        by now destruct (FREEZE_ONLY_TAB env).
      apply get_master_meta_from_rows_emits.
      intros tab row rep Hin. simpl. repeat split; try assumption.
      exists tab, row. split; [assumption|]. split; [now left | reflexivity].
  - intros meta_map. apply emits_only_for_each. intros tab _.
    apply freeze_tab_in_run.
Qed.
End FreezeJob.
End RunFootprints.

(** X19. Whatever the grid answers, a run of the update job puts on the
    trace only events of [update_event]: one kind of listing and of
    properties read; in a run mode with extraction, reads of the source
    window and, on the target spreadsheet, clearings of the target range
    and literal writes at the top-left cell of tabs named by a mapping;
    in a run mode with the append, reads, writes and structural updates
    on the target spreadsheet, on the metadata sheet or on ledger tabs
    that [MASTER_ONLY_TAB] does not exclude.  A run mode that is none of
    "both", "extract" and "master" does neither, and no run copy-pastes
    or pauses. *)
Theorem update_job_footprint (remote : trace -> request -> reply)
  (env : update_env) (cfg : config) :
  emits_only (update_event env cfg) (Update.run_update remote env cfg).
Proof.
  apply run_update_emits.
Qed.

(** X20. Whatever the grid answers, a run of the freeze job puts on the
    trace only events of [freeze_event]: the properties read, reads of
    the metadata cells of configured rows (of the one tab when
    [FREEZE_ONLY_TAB] is set, none when [FREEZE_LAST_COL] is set), and
    copy-pastes of values one column wide below the header row.  It
    never writes or clears values, so it leaves the metadata as it
    is. *)
Theorem freeze_job_footprint (remote : trace -> request -> reply)
  (env : freeze_env) (cfg : config) :
  emits_only (freeze_event env cfg) (Freeze.run_freeze remote env cfg).
Proof.
  apply run_freeze_emits.
Qed.

(** X21. Neither job ever modifies a spreadsheet other than the target
    one: every write, clearing, structural update and copy-paste of a
    run addresses [target_sheet_id]; the source files are only read. *)
Theorem jobs_modify_only_the_target (remote : trace -> request -> reply)
  (uenv : update_env) (fenv : freeze_env) (cfg : config) :
  emits_only
    (fun ev => forall sid, modified_spreadsheet ev = Some sid ->
                           sid = target_sheet_id cfg)
    (Update.run_update remote uenv cfg) ∧
  emits_only
    (fun ev => forall sid, modified_spreadsheet ev = Some sid ->
                           sid = target_sheet_id cfg)
    (Freeze.run_freeze remote fenv cfg).
Proof.
  split.
  - eapply emits_only_weaken; [|apply run_update_emits].
    intros [[] rep|d|seconds]; simpl; try discriminate;
      intros H sid' [= <-]; destruct H as [[_ H]|[_ H]];
      try destruct H; tauto.
  - eapply emits_only_weaken; [|apply run_freeze_emits].
    intros [[] rep|d|seconds]; simpl; try discriminate;
      intros H sid' [= <-]; try destruct H; tauto.
Qed.

(** ** The retry loops of [main] *)

Lemma emits_only_flat_map {A B} (P : event -> Prop) (g : event -> list B)
  (m : M A) :
  emits_only P m -> (forall ev, P ev -> g ev = []) ->
  forall tr, flat_map g (snd (m tr)) = flat_map g tr.
Proof.
  intros Hm Hg tr. destruct (Hm tr) as (evs & -> & Hevs).
  rewrite flat_map_app.
  assert (Hnil : flat_map g evs = []).
  { induction Hevs as [|ev evs Hev _ IH]; [reflexivity|].
    simpl. now rewrite (Hg ev Hev), IH. }
  rewrite Hnil. apply app_nil_r.
Qed.

Lemma run_update_quiet (remote : trace -> request -> reply)
  (env : update_env) (cfg : config) (tr : trace) :
  error_lines (snd (Update.run_update remote env cfg tr)) = error_lines tr /\
  pauses (snd (Update.run_update remote env cfg tr)) = pauses tr.
Proof.
  split; apply (emits_only_flat_map (update_event env cfg));
    try apply run_update_emits;
    intros [[] rep|[]|seconds]; simpl; try reflexivity;
    intros [[_ H]|[_ H]]; try discriminate H; destruct H.
Qed.

Lemma run_freeze_quiet (remote : trace -> request -> reply)
  (env : freeze_env) (cfg : config) (tr : trace) :
  error_lines (snd (Freeze.run_freeze remote env cfg tr)) = error_lines tr /\
  pauses (snd (Freeze.run_freeze remote env cfg tr)) = pauses tr.
Proof.
  split; apply (emits_only_flat_map (freeze_event env cfg));
    try apply run_freeze_emits;
    intros [[] rep|[]|seconds]; simpl; try reflexivity;
    intros H; try discriminate H; destruct H.
Qed.

Lemma error_lines_app (tr evs : trace) :
  error_lines (tr ++ evs) = error_lines tr ++ error_lines evs.
Proof. apply flat_map_app. Qed.

Lemma pauses_app (tr evs : trace) : pauses (tr ++ evs) = pauses tr ++ pauses evs.
Proof. apply flat_map_app. Qed.

Lemma attempts_snoc (k : nat) :
  map Z.of_nat (seq 1 k) ++ [Z.of_nat (S k)] = map Z.of_nat (seq 1 (S k)).
Proof. now rewrite seq_S, map_app. Qed.

Lemma repeat_snoc {A} (x : A) (n : nat) : repeat x n ++ [x] = repeat x (S n).
Proof. induction n as [|n IH]; simpl; [reflexivity | now rewrite IH]. Qed.

Section UpdateRetries.
Variable remote : trace -> request -> reply.
Variable env : update_env.
Variable cfg : config.

(** The outcome of the loop from attempt [S a] on, [n] attempts being
    left, after [a] failed attempts. *)
Lemma update_main_loop_shape (n : nat) :
  forall (a : nat) (tr : trace),
    (a + S n = Z.to_nat RETRY_COUNT)%nat ->
    error_lines tr = map Z.of_nat (seq 1 a) ->
    pauses tr = repeat RETRY_DELAY_SECONDS a ->
    let r := Update.main_loop remote env cfg
               (map Z.of_nat (seq (S a) (S n))) tr in
    retry_shape (fst r) (snd r) /\
    (fst r = 0 \/ fst r = 1 \/ fst r = 2) /\
    (fst r = 0 ->
     exists tr0, Update.run_update remote env cfg tr0 = (Ok tt, snd r)) /\
    (fst r = 2 ->
     exists tr0 tr1 msg,
       Update.run_update remote env cfg tr0
       = (Raise (TabMissingError msg), tr1) /\
       snd r = tr1 ++ [Print (FailLine (TabMissingError msg))]).
Proof.
  change (Z.to_nat RETRY_COUNT) with 3%nat.
  induction n as [|n IH]; intros a tr Ha Herr Hpau;
    cbn [seq map Update.main_loop];
    pose proof (run_update_quiet remote env cfg tr) as [Qerr Qpau];
    destruct (Update.run_update remote env cfg tr) as [[[]|e] tr'] eqn:Erun;
    cbn [fst snd] in Qerr, Qpau.
  1, 3: (split; [|split; [now left|split; [intros _; now exists tr|]]];
         [exists a; cbn [fst snd]; unfold retry_shape;
          change (Z.to_nat RETRY_COUNT) with 3%nat;
          rewrite Qerr, Qpau, Herr, Hpau;
          repeat split; try lia;
          now replace (Nat.min a (3 - 1)) with a by lia
         | cbn [fst]; lia]).
  - (* the last attempt fails *)
    assert (Hlast : (Z.of_nat (S a) <? RETRY_COUNT) = false)
      by (apply Z.ltb_ge; unfold RETRY_COUNT; lia).
    assert (Hshape : forall d,
               is_skip d = true \/ d = FailLine e ->
               retry_shape 2 (tr' ++ [Print d])).
    { intros d Hd. exists a. change (Z.to_nat RETRY_COUNT) with 3%nat.
      rewrite error_lines_app, pauses_app, Qerr, Qpau, Herr, Hpau.
      replace (Nat.min a (3 - 1)) with a by lia.
      destruct Hd as [Hd| ->]; [destruct d; try discriminate Hd|];
        simpl; rewrite !app_nil_r; repeat split; lia. }
    assert (Hfail : retry_shape 1
                      (tr' ++ [Print (ErrorLine (Z.of_nat (S a)) e)])).
    { exists 3%nat. change (Z.to_nat RETRY_COUNT) with 3%nat.
      rewrite error_lines_app, pauses_app, Qerr, Qpau, Herr, Hpau.
      replace a with 2%nat by lia. repeat split; lia. }
    destruct e; rewrite ?Hlast; cbn [fst snd];
      try (split; [exact Hfail|];
           split; [now (right; left)|]; split; discriminate).
    split; [apply Hshape; now right|].
    split; [now (right; right)|]. split; [discriminate|].
    intros _. now exists tr, tr', msg.
  - (* an attempt before the last fails *)
    assert (Hmore : (Z.of_nat (S a) <? RETRY_COUNT) = true)
      by (apply Z.ltb_lt; unfold RETRY_COUNT; lia).
    assert (Hnext : forall e',
               let r := Update.main_loop remote env cfg
                          (Z.of_nat (S (S a)) :: map Z.of_nat (seq (S (S (S a))) n))
                          ((tr' ++ [Print (ErrorLine (Z.of_nat (S a)) e')])
                           ++ [Sleep RETRY_DELAY_SECONDS]) in
               retry_shape (fst r) (snd r) /\
               (fst r = 0 \/ fst r = 1 \/ fst r = 2) /\
               (fst r = 0 ->
                exists tr0,
                  Update.run_update remote env cfg tr0 = (Ok tt, snd r)) /\
               (fst r = 2 ->
                exists tr0 tr1 msg,
                  Update.run_update remote env cfg tr0
                  = (Raise (TabMissingError msg), tr1) /\
                  snd r = tr1 ++ [Print (FailLine (TabMissingError msg))])).
    { intros e'. apply (IH (S a)); [lia| |].
      - rewrite !error_lines_app, Qerr, Herr. simpl. rewrite app_nil_r.
        apply attempts_snoc.
      - rewrite !pauses_app, Qpau, Hpau. simpl. rewrite app_nil_r.
        apply repeat_snoc. }
    destruct e; rewrite ?Hmore; try apply Hnext.
    cbn [fst snd].
    split.
    { exists a. change (Z.to_nat RETRY_COUNT) with 3%nat.
      rewrite error_lines_app, pauses_app, Qerr, Qpau, Herr, Hpau.
      replace (Nat.min a (3 - 1)) with a by lia.
      simpl. rewrite !app_nil_r. repeat split; lia. }
    split; [now (right; right)|]. split; [discriminate|].
    intros _. now exists tr, tr', msg.
Qed.
End UpdateRetries.

Section FreezeRetries.
Variable remote : trace -> request -> reply.
Variable env : freeze_env.
Variable cfg : config.

Lemma freeze_main_loop_shape (n : nat) :
  forall (a : nat) (tr : trace),
    (a + S n = Z.to_nat RETRY_COUNT)%nat ->
    error_lines tr = map Z.of_nat (seq 1 a) ->
    pauses tr = repeat RETRY_DELAY_SECONDS a ->
    let r := Freeze.main_loop remote env cfg
               (map Z.of_nat (seq (S a) (S n))) tr in
    retry_shape (fst r) (snd r) /\
    (fst r = 0 \/ fst r = 1) /\
    (fst r = 0 ->
     exists tr0, Freeze.run_freeze remote env cfg tr0 = (Ok tt, snd r)).
Proof.
  change (Z.to_nat RETRY_COUNT) with 3%nat.
  induction n as [|n IH]; intros a tr Ha Herr Hpau;
    cbn [seq map Freeze.main_loop];
    pose proof (run_freeze_quiet remote env cfg tr) as [Qerr Qpau];
    destruct (Freeze.run_freeze remote env cfg tr) as [[[]|e] tr'] eqn:Erun;
    cbn [fst snd] in Qerr, Qpau.
  1, 3: (split; [|split; [now left|intros _; now exists tr]];
         exists a; cbn [fst snd];
         change (Z.to_nat RETRY_COUNT) with 3%nat;
         rewrite Qerr, Qpau, Herr, Hpau;
         repeat split; try lia;
         now replace (Nat.min a (3 - 1)) with a by lia).
  - assert (Hlast : (Z.of_nat (S a) <? RETRY_COUNT) = false)
      by (apply Z.ltb_ge; unfold RETRY_COUNT; lia).
    rewrite Hlast. cbn [fst snd].
    split; [|split; [now right | discriminate]].
    exists 3%nat. change (Z.to_nat RETRY_COUNT) with 3%nat.
    rewrite error_lines_app, pauses_app, Qerr, Qpau, Herr, Hpau.
    replace a with 2%nat by lia. repeat split; lia.
  - assert (Hmore : (Z.of_nat (S a) <? RETRY_COUNT) = true)
      by (apply Z.ltb_lt; unfold RETRY_COUNT; lia).
    rewrite Hmore. apply (IH (S a)); [lia| |].
    + rewrite !error_lines_app, Qerr, Herr. simpl. rewrite app_nil_r.
      apply attempts_snoc.
    + rewrite !pauses_app, Qpau, Hpau. simpl. rewrite app_nil_r.
      apply repeat_snoc.
Qed.
End FreezeRetries.

(** X22. [main] of the update job makes at most [RETRY_COUNT] attempts,
    whatever the grid answers: its trace holds [k <= RETRY_COUNT]
    [ERROR] lines, numbered from 1, and [min k (RETRY_COUNT - 1)] pauses
    of [RETRY_DELAY_SECONDS].  It exits with 0 only after a run that
    completed, with 2 only after a run that raised [TabMissingError]
    (with the [FAIL] line as last event, and no further attempt), and
    with 1 exactly when there are [RETRY_COUNT] [ERROR] lines. *)
Theorem update_main_retries (remote : trace -> request -> reply)
  (env : update_env) (cfg : config) :
  let r := Update.main remote env cfg in
  retry_shape (fst r) (snd r) ∧
  (fst r = 0 ∨ fst r = 1 ∨ fst r = 2) ∧
  (fst r = 0 ->
   exists tr0, Update.run_update remote env cfg tr0 = (Ok tt, snd r)) ∧
  (fst r = 2 ->
   exists tr0 tr1 msg,
     Update.run_update remote env cfg tr0
     = (Raise (TabMissingError msg), tr1) ∧
     snd r = tr1 ++ [Print (FailLine (TabMissingError msg))]).
Proof.
  apply (update_main_loop_shape remote env cfg 2 0 []); reflexivity.
Qed.

(** X23. [main] of the freeze job makes at most [RETRY_COUNT] attempts,
    whatever the grid answers: its trace holds [k <= RETRY_COUNT]
    [ERROR] lines, numbered from 1, and [min k (RETRY_COUNT - 1)] pauses
    of [RETRY_DELAY_SECONDS].  It exits with 0 only after a run that
    completed and with 1 exactly when there are [RETRY_COUNT] [ERROR]
    lines, and it has no other exit code. *)
Theorem freeze_main_retries (remote : trace -> request -> reply)
  (env : freeze_env) (cfg : config) :
  let r := Freeze.main remote env cfg in
  retry_shape (fst r) (snd r) ∧
  (fst r = 0 ∨ fst r = 1) ∧
  (fst r = 0 ->
   exists tr0, Freeze.run_freeze remote env cfg tr0 = (Ok tt, snd r)).
Proof.
  apply (freeze_main_loop_shape remote env cfg 2 0 []); reflexivity.
Qed.

(** ** The metadata table read as a whole *)

Lemma scan_meta_rows_other (tab_name : string) (table : rows) :
  Forall (fun r => labels_tab tab_name r = false) table ->
  forall result,
    Update.scan_meta_rows table result !! tab_name = result !! tab_name.
Proof.
  induction table as [|row rest IH]; intros H result; [reflexivity|].
  inversion H as [|? ? Hrow Hrest]; subst. simpl.
  destruct row as [|c0 [|c1 cells]]; try now apply IH.
  simpl in Hrow.
  destruct (nonempty (strip c0) && nonempty (upper (strip c1))) eqn:Etest;
    [|now apply IH].
  rewrite andb_true_r in Hrow. apply String.eqb_neq in Hrow.
  rewrite IH by assumption. now apply lookup_insert_ne.
Qed.

Lemma scan_meta_rows_last (tab_name : string) (before : rows)
  (row : list cell) (after : rows) :
  labels_tab tab_name row = true ->
  Forall (fun r => labels_tab tab_name r = false) after ->
  forall result,
    Update.scan_meta_rows (before ++ row :: after) result !! tab_name
    = Some (label_of row).
Proof.
  intros Hrow Hafter.
  induction before as [|r before IH]; intros result.
  - simpl. destruct row as [|c0 [|c1 cells]]; try discriminate.
    simpl in Hrow. apply andb_prop in Hrow as [Hname Htest].
    apply String.eqb_eq in Hname. rewrite Htest.
    rewrite scan_meta_rows_other by assumption. subst tab_name.
    apply lookup_insert_eq.
  - simpl. destruct r as [|c0 [|c1 cells]]; try apply IH.
    destruct (nonempty (strip c0) && nonempty (upper (strip c1)));
      apply IH.
Qed.

Lemma scan_meta_rows_nonempty (table : rows) :
  forall result,
    (forall tab label, result !! tab = Some label ->
                       tab <> EmptyString /\ label <> EmptyString) ->
    forall tab label,
      Update.scan_meta_rows table result !! tab = Some label ->
      tab <> EmptyString /\ label <> EmptyString.
Proof.
  induction table as [|row rest IH]; intros result Hres; [exact Hres|].
  simpl. destruct row as [|c0 [|c1 cells]]; try now apply IH.
  destruct (nonempty (strip c0) && nonempty (upper (strip c1))) eqn:Etest;
    [|now apply IH].
  apply IH. intros tab label.
  apply andb_prop in Etest as [Ht Hl].
  destruct (decide (strip c0 = tab)) as [<- | Hne].
  - rewrite lookup_insert_eq. intros [= <-].
    split; intros E; [rewrite E in Ht | rewrite E in Hl]; discriminate.
  - rewrite lookup_insert_ne by assumption. apply Hres.
Qed.

(** X24. Without configured metadata rows, [get_master_meta_map] reads the
    metadata range once; the header row is ignored, and a tab gets the
    label of the last row after it that names the tab with a label that
    is not empty, stripped and upper-cased.  A tab no such row names has
    no entry, and neither a tab name nor a label of the map is empty. *)
Theorem get_master_meta_map_last_row_wins
  (remote : trace -> request -> reply)
  (spreadsheet_id meta_sheet meta_range : string) (tr : trace)
  (header : list cell) (table : rows) :
  let read := ValuesGet spreadsheet_id (mk_range meta_sheet meta_range)
                        (Some FORMATTED_VALUE) in
  remote tr read = Values (header :: table) ->
  exists m,
    Update.get_master_meta_map remote spreadsheet_id meta_sheet meta_range []
      tr = (Ok m, tr ++ [Call read (Values (header :: table))]) ∧
    (forall tab,
        Forall (fun r => labels_tab tab r = false) table -> m !! tab = None) ∧
    (forall tab before row after,
        table = before ++ row :: after ->
        labels_tab tab row = true ->
        Forall (fun r => labels_tab tab r = false) after ->
        m !! tab = Some (label_of row)) ∧
    (forall tab label,
        m !! tab = Some label -> tab <> EmptyString ∧ label <> EmptyString).
Proof.
  intros read Hread.
  exists (Update.scan_meta_rows table ∅).
  split; [|split; [|split]].
  - unfold Update.get_master_meta_map, bind, exec_request. fold read.
    rewrite Hread. reflexivity.
  - intros tab H. rewrite scan_meta_rows_other by assumption.
    apply lookup_empty.
  - intros tab before row after -> Hrow Hafter.
    now apply scan_meta_rows_last.
  - apply scan_meta_rows_nonempty. intros tab label.
    rewrite lookup_empty. discriminate.
Qed.

Lemma get_master_meta_map_last_row_wins_witness :
  exists m,
    Update.get_master_meta_map
      (fun _ _ => Values [["tab"; "last"]; ["Prices"; "j"]; ["Prices"; " k "]])
      "ledger" "Master_Meta" "A1:B10" [] [] =
    (Ok m,
     [] ++ [Call (ValuesGet "ledger" (mk_range "Master_Meta" "A1:B10")
                    (Some FORMATTED_VALUE))
              (Values [["tab"; "last"]; ["Prices"; "j"]; ["Prices"; " k "]])])
    ∧ m !! "Prices"%string = Some "K"%string.
Proof.
  destruct (get_master_meta_map_last_row_wins
              (fun _ _ => Values [["tab"; "last"]; ["Prices"; "j"];
                                  ["Prices"; " k "]])
              "ledger" "Master_Meta" "A1:B10" [] ["tab"; "last"]
              [["Prices"; "j"]; ["Prices"; " k "]] eq_refl)%string
    as (m & Hrun & _ & Hlast & _).
  exists m. split; [exact Hrun|].
  apply (Hlast "Prices" [["Prices"; "j"]] ["Prices"; " k "] [])%string;
    [reflexivity | reflexivity | constructor].
Defined.

(** ** Timestamps of the Drive listing *)

Lemma replace_trailing_Z_app (body : string) :
  replace_trailing_Z (body ++ "Z") = (body ++ "+00:00")%string.
Proof.
  induction body as [|ch rest IH]; [reflexivity|].
  change ((String ch rest) ++ "Z")%string with (String ch (rest ++ "Z")).
  cbn [replace_trailing_Z]. rewrite IH.
  destruct rest; reflexivity.
Qed.

Lemma get_drop_chars (n p : nat) (s : string) :
  String.get p (drop_chars n s) = String.get (n + p) s.
Proof.
  revert s. induction n as [|n IH]; intros s; [reflexivity|].
  destruct s as [|ch s]; simpl; [now destruct p | apply IH].
Qed.

Lemma get_take_chars (n p : nat) (s : string) :
  (p < n)%nat -> String.get p (take_chars n s) = String.get p s.
Proof.
  revert p s. induction n as [|n IH]; intros p s Hp; [lia|].
  destruct s as [|ch s]; [reflexivity|]. simpl.
  destruct p as [|p]; [reflexivity|]. apply IH. lia.
Qed.

Lemma string_get_some (p : nat) (s : string) :
  (p < String.length s)%nat -> exists ch, String.get p s = Some ch.
Proof.
  revert p. induction s as [|c s IH]; intros p Hp; simpl in Hp; [lia|].
  destruct p as [|p]; simpl; [eauto|]. apply IH. lia.
Qed.

Lemma string_get_none (p : nat) (s : string) :
  (String.length s <= p)%nat -> String.get p s = None.
Proof.
  revert p. induction s as [|c s IH]; intros p Hp; [now destruct p|].
  simpl in Hp. destruct p as [|p]; [lia|]. simpl. apply IH. lia.
Qed.

Lemma all_digits_get (s : string) (p : nat) (ch : ascii) :
  all_digits s = true -> String.get p s = Some ch -> is_digit ch = true.
Proof.
  revert p. induction s as [|c s IH]; intros p Hall Hget; [now destruct p|].
  simpl in Hall. apply andb_prop in Hall as [Hc Hs].
  destruct p as [|p]; simpl in Hget; [now inversion Hget; subst|].
  now apply (IH p).
Qed.

Lemma digits_at_get (a b : nat) (s : string) (z : Z) (p : nat) :
  digits_at a b s = Some z -> (a <= p < b)%nat ->
  exists ch, String.get p s = Some ch /\ is_digit ch = true.
Proof.
  unfold digits_at, slice. intros H Hp.
  destruct ((String.length (take_chars (b - a) (drop_chars a s)) =? b - a)%nat
            && all_digits (take_chars (b - a) (drop_chars a s))) eqn:E;
    [|discriminate].
  apply andb_prop in E as [Hlen Hall]. apply Nat.eqb_eq in Hlen.
  destruct (string_get_some (p - a) (take_chars (b - a) (drop_chars a s)))
    as [ch Hch]; [lia|].
  exists ch. split; [|now apply (all_digits_get _ _ _ Hall Hch)].
  rewrite get_take_chars, get_drop_chars in Hch by lia.
  now replace (a + (p - a))%nat with p in Hch by lia.
Qed.

Lemma char_is_get (i : nat) (ch : ascii) (s : string) :
  char_is i ch s = true -> String.get i s = Some ch.
Proof.
  unfold char_is. destruct (String.get i s) as [c|]; [|discriminate].
  intros H. apply Ascii.eqb_eq in H. now subst.
Qed.

Lemma string_length_app (s t : string) :
  String.length (s ++ t)%string = (String.length s + String.length t)%nat.
Proof. induction s as [|c s IH]; simpl; [reflexivity | now rewrite IH]. Qed.

Lemma get_app_at (s t : string) (p : nat) :
  String.get (String.length s + p) (s ++ t)%string = String.get p t.
Proof. induction s as [|c s IH]; simpl; [reflexivity | exact IH]. Qed.

Lemma drop_chars_app (n : nat) (s t : string) :
  (n <= String.length s)%nat -> drop_chars n (s ++ t) = (drop_chars n s ++ t)%string.
Proof.
  revert s. induction n as [|n IH]; intros s Hn; [reflexivity|].
  destruct s as [|c s]; simpl in Hn; [lia|]. simpl. apply IH. lia.
Qed.

Lemma parse_fraction_not_dot (c : ascii) (s : string) :
  c <> "."%char -> parse_fraction (String c s) = Some (0, String c s).
Proof.
  intros Hc. destruct c as [[] [] [] [] [] [] [] []];
    try reflexivity. now elim Hc.
Qed.

Lemma parse_fraction_keeps_offset (r : string) (us : Z) (rest : string) :
  parse_fraction (r ++ "+00:00") = Some (us, rest) ->
  exists r', rest = (r' ++ "+00:00")%string.
Proof.
  destruct r as [|c r].
  - simpl. intros [= <- <-]. now exists EmptyString.
  - change (String c r ++ "+00:00")%string with (String c (r ++ "+00:00")).
    destruct (Ascii.eqb_spec c ".") as [-> | Hne].
    + cbn [parse_fraction].
      destruct (digits_at 0 6 (r ++ "+00:00")) as [us6|] eqn:E6.
      * intros [= <- <-]. exists (drop_chars 6 r).
        refine (drop_chars_app 6 r "+00:00" _).
        destruct (le_lt_dec 6 (String.length r)) as [|Hlt]; [assumption|].
        destruct (digits_at_get _ _ _ _ (String.length r) E6 ltac:(lia))
          as (ch & Hget & Hdig).
        rewrite <- (Nat.add_0_r (String.length r)) in Hget.
        rewrite get_app_at in Hget. inversion Hget; subst. discriminate.
      * destruct (digits_at 0 3 (r ++ "+00:00")) as [us3|] eqn:E3;
          [|discriminate].
        intros [= <- <-]. exists (drop_chars 3 r).
        refine (drop_chars_app 3 r "+00:00" _).
        destruct (le_lt_dec 3 (String.length r)) as [|Hlt]; [assumption|].
        destruct (digits_at_get _ _ _ _ (String.length r) E3 ltac:(lia))
          as (ch & Hget & Hdig).
        rewrite <- (Nat.add_0_r (String.length r)) in Hget.
        rewrite get_app_at in Hget. inversion Hget; subst. discriminate.
    + rewrite parse_fraction_not_dot by assumption.
      intros [= <- <-]. now exists (String c r).
Qed.

Lemma parse_offset_utc (r : string) (tz : option Z) :
  parse_offset (r ++ "+00:00") = Some tz -> tz = Some 0.
Proof.
  destruct r as [|c r].
  - vm_compute. now intros [= <-].
  - change (String c r ++ "+00:00")%string with (String c (r ++ "+00:00")).
    cbn [parse_offset].
    assert (Hlen : (String.length (r ++ "+00:00")%string =? 5)%nat = false).
    { apply Nat.eqb_neq. rewrite string_length_app. simpl. lia. }
    rewrite Hlen, andb_false_r. discriminate.
Qed.

Lemma fromisoformat_utc (body : string) (dt : datetime) :
  fromisoformat (body ++ "+00:00") = Ok dt -> utcoffset dt = Some 0.
Proof.
  unfold fromisoformat.
  destruct (digits_at 0 4 _) as [y|]; [|discriminate].
  destruct (digits_at 5 7 _) as [mo|]; [|discriminate].
  destruct (digits_at 8 10 _) as [d|]; [|discriminate].
  destruct (digits_at 11 13 _) as [h|]; [|discriminate].
  destruct (digits_at 14 16 _) as [mi|] eqn:Emi; [|discriminate].
  destruct (digits_at 17 19 _) as [s|] eqn:Es; [|discriminate].
  destruct (char_is 4 "-" _ && char_is 7 "-" _ && char_is 13 ":" _
            && char_is 16 ":" _) eqn:Esep; [|discriminate].
  apply andb_prop in Esep as [Esep H16].
  apply andb_prop in Esep as [_ H13].
  apply char_is_get in H13, H16.
  assert (Hlen : (19 <= String.length body)%nat).
  { destruct (le_lt_dec 19 (String.length body)) as [|Hlt]; [assumption|].
    exfalso.
    pose proof (get_app_at body "+00:00" 0) as Hplus.
    rewrite Nat.add_0_r in Hplus. simpl in Hplus.
    destruct (digits_at_get _ _ _ _ 14%nat Emi ltac:(lia)) as (c14 & G14 & D14).
    destruct (digits_at_get _ _ _ _ 15%nat Emi ltac:(lia)) as (c15 & G15 & D15).
    destruct (digits_at_get _ _ _ _ 17%nat Es ltac:(lia)) as (c17 & G17 & D17).
    destruct (digits_at_get _ _ _ _ 18%nat Es ltac:(lia)) as (c18 & G18 & D18).
    destruct (le_lt_dec (String.length body) 12) as [Hshort|Hlong].
    - rewrite string_get_none in G18; [discriminate|].
      rewrite string_length_app. simpl. lia.
    - assert (Hcases : (String.length body = 13 \/ String.length body = 14 \/
                        String.length body = 15 \/ String.length body = 16 \/
                        String.length body = 17 \/ String.length body = 18)%nat)
        by lia.
      destruct Hcases as [E|[E|[E|[E|[E|E]]]]]; rewrite E in Hplus;
        first [ rewrite Hplus in H13; discriminate H13
              | rewrite Hplus in H16; discriminate H16
              | rewrite Hplus in G14; inversion G14; subst; discriminate D14
              | rewrite Hplus in G15; inversion G15; subst; discriminate D15
              | rewrite Hplus in G17; inversion G17; subst; discriminate D17
              | rewrite Hplus in G18; inversion G18; subst; discriminate D18 ]. }
  rewrite drop_chars_app by assumption.
  destruct (parse_fraction _) as [[us rest]|] eqn:Efrac; [|discriminate].
  apply parse_fraction_keeps_offset in Efrac as [r' ->].
  destruct (parse_offset _) as [tz|] eqn:Etz; [|discriminate].
  apply parse_offset_utc in Etz as ->.
  unfold make_datetime. destruct (_ && _); [|discriminate].
  now intros [= <-].
Qed.

(** X25. A timestamp of the Drive listing, a date and a time of day to the
    second or finer (19 characters or more) followed by "Z", is read by
    [parse_rfc3339] as an offset-aware value at offset 0 whenever it is
    read at all; name timestamps, by contrast, are naive. *)
Theorem drive_timestamps_are_offset_aware (body : string) (dt : datetime) :
  (19 <= String.length body)%nat ->
  parse_rfc3339 (body ++ "Z") = Ok dt -> utcoffset dt = Some 0.
Proof.
  intros _. unfold parse_rfc3339. rewrite replace_trailing_Z_app.
  apply fromisoformat_utc.
Qed.

Lemma drive_timestamps_are_offset_aware_witness :
  parse_rfc3339 "2024-12-02T01:02:03.000Z"
  = Ok (mk_datetime 2024 12 2 1 2 3 0 (Some 0)) ∧
  utcoffset (mk_datetime 2024 12 2 1 2 3 0 (Some 0)) = Some 0.
Proof.
  split; [reflexivity|].
  apply (drive_timestamps_are_offset_aware "2024-12-02T01:02:03.000");
    [vm_compute; lia | reflexivity].
Defined.
